(** * arch-flow: the diagram viewer, the analysis jobs and the status stream

    A shallow embedding of the TypeScript sources of arch-flow:

    - [src/components/DiagramViewer.tsx]: label matching, the highlight
      procedures over the rendered SVG, the playback handlers and the
      timer-driven autoplay loop;
    - [src/lib/kv-client.ts], [src/lib/blob-client.ts]: the in-memory
      development stores;
    - [src/lib/analysis.ts], [src/lib/analyzer.ts], [src/lib/storage.ts],
      [src/lib/cache.ts], [src/lib/github.ts]: jobs, orchestration, storage;
    - [src/app/api/stream/[analysisId]/route.ts]: the status stream.

    All definitions come first; the theorems follow. *)

From Stdlib Require Import ZArith NArith Lia List Bool String Ascii Sorted.
From stdpp Require Import base option list strings gmap.

Import ListNotations.

(** ** JavaScript strings

    Text that the viewer inspects character by character (node labels) is a
    list of Unicode code points; keys, messages and other text that is only
    compared or concatenated is a [string]. *)

Definition jsstring : Type := list N.

(** A literal of ASCII characters as code points. *)
Definition str (s : string) : jsstring :=
  map N_of_ascii (list_ascii_of_string s).

(** [WhiteSpace] and [LineTerminator] of ECMAScript: what [\s] matches and
    what [String.prototype.trim] removes. *)
Definition isWhiteSpace (c : N) : bool :=
  ((9 <=? c) && (c <=? 13) || (c =? 32) || (c =? 160) || (c =? 5760)
   || (8192 <=? c) && (c <=? 8202) || (c =? 8232) || (c =? 8233)
   || (c =? 8239) || (c =? 8287) || (c =? 12288) || (c =? 65279))%N.

(** [String.prototype.toLowerCase], code point by code point, for labels
    written with the letters of Basic Latin and Latin-1: these letters go to
    their lower case; digits, punctuation, white space, emoji and variation
    selectors are left as they are.  The case mappings of other scripts are
    not modelled. *)
Definition lower_cp (c : N) : N :=
  (if (65 <=? c) && (c <=? 90) then c + 32
   else if (192 <=? c) && (c <=? 222) && negb (c =? 215) then c + 32
   else c)%N.

Definition toLowerCase (s : jsstring) : jsstring := map lower_cp s.

Fixpoint trimStart (s : jsstring) : jsstring :=
  match s with
  | [] => []
  | c :: s' => if isWhiteSpace c then trimStart s' else s
  end.

Definition trimEnd (s : jsstring) : jsstring := rev (trimStart (rev s)).

Definition trim (s : jsstring) : jsstring := trimEnd (trimStart s).

(** [s.replace(/[\u{1F300}-\u{1F9FF}]/gu, '')] *)
Definition inEmojiRange (c : N) : bool :=
  ((127744 <=? c) && (c <=? 129535))%N.

Definition removeEmojiRange (s : jsstring) : jsstring :=
  List.filter (fun c => negb (inEmojiRange c)) s.

(** [s.split(/\s+/)]: the pieces between maximal runs of white space.  The
    empty string gives one empty piece; white space at either end gives an
    empty piece there. *)
Fixpoint split_ws (s : jsstring) : list jsstring :=
  match s with
  | [] => [[]]
  | c :: s' =>
      if isWhiteSpace c then
        match s' with
        | [] => [[]; []]
        | c' :: _ => if isWhiteSpace c' then split_ws s' else [] :: split_ws s'
        end
      else
        match split_ws s' with
        | [] => [[c]]
        | w :: ws => (c :: w) :: ws
        end
  end.

(** Strict equality [===] of two strings. *)
Definition jsstring_eqb (a b : jsstring) : bool :=
  bool_decide (a = b).

(** [words.every((word, idx) => labelWords[idx] === word)], from index
    [idx] on; an index past the end of [labelWords] reads [undefined], which
    equals no string. *)
Fixpoint every_word (idx : nat) (words labelWords : list jsstring) : bool :=
  match words with
  | [] => true
  | word :: rest =>
      match labelWords !! idx with
      | Some lw => jsstring_eqb lw word && every_word (S idx) rest labelWords
      | None => false
      end
  end.

(** The test of [highlightNode] for one rendered label: [nodeName] is the
    step's label, [textContent] the text of the node's [.nodeLabel]. *)
Definition normalizedName (nodeName : jsstring) : jsstring :=
  trim (toLowerCase nodeName).

Definition cleanLabel (textContent : jsstring) : jsstring :=
  let labelText := trim (toLowerCase textContent) in
  trim (removeEmojiRange labelText).

Definition labelMatches (nodeName textContent : jsstring) : bool :=
  let words := split_ws (normalizedName nodeName) in
  let labelWords := split_ws (cleanLabel textContent) in
  every_word 0 words labelWords.

(** *** The rule in the words of the specification

    Tokens are the maximal runs of characters that are not white space;
    both labels are trimmed, lower-cased and stripped of emoji glyphs, and
    the query must be a token-for-token prefix of the candidate.  An emoji
    glyph is taken to be a pictograph of U+1F300..U+1F9FF, a symbol of the
    Miscellaneous Symbols and Dingbats blocks (U+2600..U+27BF), or the
    variation selector U+FE0F that follows either. *)
Fixpoint tokens_from (cur : jsstring) (s : jsstring) : list jsstring :=
  match s with
  | [] => match cur with [] => [] | _ => [rev cur] end
  | c :: s' =>
      if isWhiteSpace c then
        match cur with
        | [] => tokens_from [] s'
        | _ => rev cur :: tokens_from [] s'
        end
      else tokens_from (c :: cur) s'
  end.

Definition tokens (s : jsstring) : list jsstring := tokens_from [] s.

Fixpoint prefixb (l1 l2 : list jsstring) : bool :=
  match l1, l2 with
  | [], _ => true
  | _ :: _, [] => false
  | a :: l1', b :: l2' => jsstring_eqb a b && prefixb l1' l2'
  end.

Definition spec_isEmojiGlyph (c : N) : bool :=
  (inEmojiRange c || (9728 <=? c) && (c <=? 10175) || (c =? 65039))%N.

Definition spec_normalize (s : jsstring) : jsstring :=
  List.filter (fun c => negb (spec_isEmojiGlyph c)) (toLowerCase (trim s)).

Definition spec_labelMatches (query candidate : jsstring) : bool :=
  prefixb (tokens (spec_normalize query)) (tokens (spec_normalize candidate)).

(** The emoji of the examples. *)
Definition emoji_desktop : jsstring := [128421; 65039]%N.   (* U+1F5A5 U+FE0F *)
Definition emoji_floppy : jsstring := [128190]%N.            (* U+1F4BE *)

(** ** The types of [src/lib/types.ts]

    Each interface is a record in a module of its name, so that fields keep
    their names: [AnimationStep.node s] is [s.node]. *)

Module GitHubRepo.
Record t : Type := mk {
    owner : string;
    name : string;
    branch : option string
  }.
End GitHubRepo.

Module AnimationStep.
Record t : Type := mk {
    step : Z;
    node : jsstring;
    message : string;
    duration : Z;
    request : option string;
    response : option string
  }.
End AnimationStep.

Module Flow.
Record t : Type := mk {
    name : string;
    description : string;
    steps : list AnimationStep.t;
    nodes : list jsstring
  }.
End Flow.

Module ArchitectureAnalysis.
Record t : Type := mk {
    diagram : string;
    flows : list Flow.t;
    timestamp : Z;
    repoInfo : GitHubRepo.t
  }.
End ArchitectureAnalysis.

Inductive Phase : Type :=
  | downloading | extracting | analyzing | generating | complete | error.

Module AnalysisStatus.
Record t : Type := mk {
    status : Phase;
    progress : Z;
    message : string;
    error : option string
  }.
End AnalysisStatus.

Module CacheMetadata.
Record t : Type := mk {
    repoKey : string;
    timestamp : Z;
    blobUrl : string
  }.
End CacheMetadata.

(** ** The rendered diagram

    What the viewer sees of the SVG that Mermaid renders into
    [diagramRef.current]: the elements of class [node], in document order,
    and the path elements that one of the arrow selectors can reach. *)

(** The shape of a node: the first of its [rect], [circle] or [polygon]
    descendants, with the two attributes and two style properties that the
    viewer writes. *)
Module Shape.
Record t : Type := mk {
    filter : option string;          (* attribute [filter] *)
    transform : option string;       (* attribute [transform] *)
    transformOrigin : string;        (* [style.transformOrigin] *)
    transition : string              (* [style.transition] *)
  }.
End Shape.

Module Node.
Record t : Type := mk {
    nodeLabel : option jsstring;     (* [textContent] of its [.nodeLabel] *)
    shape : option Shape.t
  }.
End Node.

Module Arrow.
Record t : Type := mk {
    flowchartLink : bool;            (* matches [.flowchart-link] *)
    edgePathPath : bool;             (* matches [.edgePath path] *)
    pathPath : bool;                 (* matches [path.path] *)
    attrStroke : option string;      (* attribute [stroke] *)
    attrStrokeWidth : option string; (* attribute [stroke-width] *)
    stroke : string;                 (* [style.stroke] *)
    strokeWidth : string;            (* [style.strokeWidth] *)
    filter : string;                 (* [style.filter] *)
    transition : string;             (* [style.transition] *)
    strokeDasharray : string;        (* [style.strokeDasharray] *)
    strokeDashoffset : string;       (* [style.strokeDashoffset] *)
    dashing : nat                    (* intervals moving the dash offset *)
  }.
End Arrow.

Module Dom.
Record t : Type := mk {
    nodes : list Node.t;
    arrows : list Arrow.t
  }.
End Dom.

Definition GLOW : string := "drop-shadow(0 0 20px rgba(231, 76, 60, 0.9))".
Definition ARROW_GLOW : string := "drop-shadow(0 0 8px rgba(245, 158, 11, 0.8))".

(** [querySelectorAll] on the arrows: the positions, in document order, of
    the elements a selector matches. *)
Fixpoint select_from (i : nat) (sel : Arrow.t -> bool) (l : list Arrow.t) : list nat :=
  match l with
  | [] => []
  | a :: l' => if sel a then i :: select_from (S i) sel l' else select_from (S i) sel l'
  end.

Definition querySelectorAll (sel : Arrow.t -> bool) (l : list Arrow.t) : list nat :=
  select_from 0 sel l.

(** Reading an array at a JavaScript number: [undefined] below zero or past
    the end. *)
Definition at_index {A : Type} (l : list A) (i : Z) : option A :=
  if (i <? 0)%Z then None else l !! Z.to_nat i.

(** *** [clearHighlights] *)

Definition clearShape (s : Shape.t) : Shape.t :=
  Shape.mk (Some "none") (Some "scale(1)") (Shape.transformOrigin s) (Shape.transition s).

Definition clearNode (n : Node.t) : Node.t :=
  Node.mk (Node.nodeLabel n) (clearShape <$> Node.shape n).

Definition clearSelector (a : Arrow.t) : bool :=
  Arrow.flowchartLink a || Arrow.edgePathPath a.   (* '.flowchart-link, .edgePath path' *)

Definition clearArrow (a : Arrow.t) : Arrow.t :=
  if clearSelector a then
    Arrow.mk (Arrow.flowchartLink a) (Arrow.edgePathPath a) (Arrow.pathPath a)
      (Arrow.attrStroke a) (Arrow.attrStrokeWidth a)
      "" "" "none" (Arrow.transition a) "none" "0" (Arrow.dashing a)
  else a.

Definition clearHighlights (d : option Dom.t) : option Dom.t :=
  match d with
  | None => None
  | Some d => Some (Dom.mk (clearNode <$> Dom.nodes d) (clearArrow <$> Dom.arrows d))
  end.

(** Visual emphasis: a shape carries it when it has the glow filter or the
    enlarged scale; an arrow when one of the properties that
    [highlightArrow] sets still has the value it set. *)
Definition shapeEmphasised (s : Shape.t) : bool :=
  bool_decide (Shape.filter s = Some GLOW) || bool_decide (Shape.transform s = Some "scale(1.1)").

Definition nodeEmphasised (n : Node.t) : bool :=
  match Node.shape n with
  | Some s => shapeEmphasised s
  | None => false
  end.

Definition arrowEmphasised (a : Arrow.t) : bool :=
  bool_decide (Arrow.stroke a = "#F59E0B") || bool_decide (Arrow.strokeWidth a = "4px")
  || bool_decide (Arrow.filter a = ARROW_GLOW) || bool_decide (Arrow.strokeDasharray a = "10 5").

(** The path elements that count as rendered edges: those some selector of
    the viewer reaches. *)
Definition isEdge (a : Arrow.t) : bool :=
  Arrow.flowchartLink a || Arrow.edgePathPath a || Arrow.pathPath a.

(** ** Timers and the state of the viewer

    [setTimeout] registers a timer that fires once, [delay] milliseconds
    after the current time; timers that are due at the same time fire in
    the order they were registered.  A callback of the viewer is one of the
    closures it passes to [setTimeout].  The interval that [highlightArrow]
    starts only rewrites [style.strokeDashoffset] every 30 ms; the arrow
    counts its running intervals ([Arrow.dashing]) until the reset callback
    clears them, and their ticks are not events of their own. *)

Inductive Callback : Type :=
  | AnimateStep
      (* [animateStep], rescheduled by the autoplay loop *)
  | RemoveNodeHighlight (i : nat) (p : nat)
      (* [highlightNode]: resets the shape of node [i], resolves promise [p] *)
  | ResolveOnly (p : nat)
      (* [highlightNode], no node found: resolves promise [p] *)
  | ResetArrow (a : nat) (originalStroke originalStrokeWidth : string).
      (* [highlightArrow]: clears the interval and reverts arrow [a] *)

Module Timer.
Record t : Type := mk {
    id : nat;
    due : Z;
    callback : Callback
  }.
End Timer.

(** The closure of one run of the animation effect: the flow and the pause
    flag it captured, its cursor [stepIndex], its [timeoutId], and, while
    [animateStep] is suspended at [await highlightNode(...)], the promise it
    waits for together with its local [step]. *)
Module Closure.
Record t : Type := mk {
    flow : Flow.t;
    isPaused : bool;
    stepIndex : nat;
    timeoutId : option nat;
    awaiting : option (nat * AnimationStep.t)
  }.
End Closure.

Module Viewer.
Record t : Type := mk {
    (* React state *)
    selectedFlow : nat;
    isAnimating : bool;
    isPaused : bool;
    currentStep : Z;
    (* refs *)
    diagramRef : option Dom.t;
    animationTimeoutRef : option nat;
    (* the event loop *)
    clock : Z;
    timers : list Timer.t;
    nextTimerId : nat;
    nextPromise : nat;
    (* the running animation effect *)
    effect : option Closure.t
  }.
End Viewer.

Section ViewerUpdates.
Import Viewer.

Definition setSelectedFlow (x : nat) (v : t) : t :=
    mk x (isAnimating v) (isPaused v) (currentStep v) (diagramRef v)
      (animationTimeoutRef v) (clock v) (timers v) (nextTimerId v) (nextPromise v) (effect v).
Definition setIsAnimating (x : bool) (v : t) : t :=
    mk (selectedFlow v) x (isPaused v) (currentStep v) (diagramRef v)
      (animationTimeoutRef v) (clock v) (timers v) (nextTimerId v) (nextPromise v) (effect v).
Definition setIsPaused (x : bool) (v : t) : t :=
    mk (selectedFlow v) (isAnimating v) x (currentStep v) (diagramRef v)
      (animationTimeoutRef v) (clock v) (timers v) (nextTimerId v) (nextPromise v) (effect v).
Definition setCurrentStep (x : Z) (v : t) : t :=
    mk (selectedFlow v) (isAnimating v) (isPaused v) x (diagramRef v)
      (animationTimeoutRef v) (clock v) (timers v) (nextTimerId v) (nextPromise v) (effect v).
Definition setDiagram (x : option Dom.t) (v : t) : t :=
    mk (selectedFlow v) (isAnimating v) (isPaused v) (currentStep v) x
      (animationTimeoutRef v) (clock v) (timers v) (nextTimerId v) (nextPromise v) (effect v).
Definition setAnimationTimeoutRef (x : option nat) (v : t) : t :=
    mk (selectedFlow v) (isAnimating v) (isPaused v) (currentStep v) (diagramRef v)
      x (clock v) (timers v) (nextTimerId v) (nextPromise v) (effect v).
Definition setClock (x : Z) (v : t) : t :=
    mk (selectedFlow v) (isAnimating v) (isPaused v) (currentStep v) (diagramRef v)
      (animationTimeoutRef v) x (timers v) (nextTimerId v) (nextPromise v) (effect v).
Definition setTimers (x : list Timer.t) (v : t) : t :=
    mk (selectedFlow v) (isAnimating v) (isPaused v) (currentStep v) (diagramRef v)
      (animationTimeoutRef v) (clock v) x (nextTimerId v) (nextPromise v) (effect v).
Definition setEffect (x : option Closure.t) (v : t) : t :=
    mk (selectedFlow v) (isAnimating v) (isPaused v) (currentStep v) (diagramRef v)
      (animationTimeoutRef v) (clock v) (timers v) (nextTimerId v) (nextPromise v) x.

  (** [setTimeout(cb, delay)]: a negative delay counts as zero.  Returns the
      new state and the timer's id. *)
Definition setTimeout (cb : Callback) (delay : Z) (v : t) : t * nat :=
    let timer := Timer.mk (nextTimerId v) (clock v + Z.max 0 delay) cb in
    (mk (selectedFlow v) (isAnimating v) (isPaused v) (currentStep v) (diagramRef v)
       (animationTimeoutRef v) (clock v) (timers v ++ [timer]) (S (nextTimerId v))
       (nextPromise v) (effect v),
     nextTimerId v).

  (** [clearTimeout(id)] *)
Definition clearTimeout (i : option nat) (v : t) : t :=
    match i with
    | None => v
    | Some i =>
        setTimers (List.filter (fun timer => negb (Timer.id timer =? i)) (timers v)) v
    end.

  (** [new Promise(...)]: a fresh promise. *)
Definition newPromise (v : t) : t * nat :=
    (mk (selectedFlow v) (isAnimating v) (isPaused v) (currentStep v) (diagramRef v)
       (animationTimeoutRef v) (clock v) (timers v) (nextTimerId v)
       (S (nextPromise v)) (effect v),
     nextPromise v).
End ViewerUpdates.

(** *** [highlightArrow] *)

Definition orElse (a : string) (b : string) : string :=
  if bool_decide (a = "") then b else a.       (* [a || b] on strings *)

Definition attrOrElse (a : option string) (b : string) : string :=
  match a with
  | Some s => orElse s b
  | None => b
  end.                                          (* [getAttribute(..) || b] *)

Definition emphasiseArrow (a : Arrow.t) : Arrow.t :=
  Arrow.mk (Arrow.flowchartLink a) (Arrow.edgePathPath a) (Arrow.pathPath a)
    (Arrow.attrStroke a) (Arrow.attrStrokeWidth a)
    "#F59E0B" "4px" ARROW_GLOW "all 0.2s ease" "10 5" (Arrow.strokeDashoffset a)
    (S (Arrow.dashing a)).

Definition revertArrow (originalStroke originalStrokeWidth : string) (a : Arrow.t) : Arrow.t :=
  Arrow.mk (Arrow.flowchartLink a) (Arrow.edgePathPath a) (Arrow.pathPath a)
    (Arrow.attrStroke a) (Arrow.attrStrokeWidth a)
    originalStroke originalStrokeWidth "none" (Arrow.transition a) "none" "0"
    (pred (Arrow.dashing a)).

Definition fallbackSelector (a : Arrow.t) : bool :=
  Arrow.edgePathPath a || Arrow.pathPath a.      (* '.edgePath path, path.path' *)

(** The position of the arrow for a step number, if any. *)
Definition targetPath (stepNumber : Z) (arrows : list Arrow.t) : option nat :=
  let arrowIndex := (stepNumber - 1)%Z in
  match at_index (querySelectorAll Arrow.flowchartLink arrows) arrowIndex with
  | Some pos => Some pos
  | None => at_index (querySelectorAll fallbackSelector arrows) arrowIndex
  end.

Definition highlightArrow (stepNumber : Z) (duration : Z) (v : Viewer.t) : Viewer.t :=
  match Viewer.diagramRef v with
  | None => v
  | Some d =>
      match targetPath stepNumber (Dom.arrows d) with
      | None => v
      | Some pos =>
          match Dom.arrows d !! pos with
          | None => v
          | Some arrow =>
              let originalStroke :=
                orElse (Arrow.stroke arrow) (attrOrElse (Arrow.attrStroke arrow) "#333") in
              let originalStrokeWidth :=
                orElse (Arrow.strokeWidth arrow) (attrOrElse (Arrow.attrStrokeWidth arrow) "2") in
              let d' := Dom.mk (Dom.nodes d) (<[pos := emphasiseArrow arrow]> (Dom.arrows d)) in
              fst (setTimeout (ResetArrow pos originalStroke originalStrokeWidth) duration
                     (setDiagram (Some d') v))
          end
      end
  end.

(** *** [highlightNode] *)

Definition emphasiseShape (s : Shape.t) : Shape.t :=
  Shape.mk (Some GLOW) (Some "scale(1.1)") "center" "all 0.3s ease".

Definition setShape (i : nat) (f : Shape.t -> Shape.t) (d : Dom.t) : Dom.t :=
  Dom.mk (alter (fun n => Node.mk (Node.nodeLabel n) (f <$> Node.shape n)) i (Dom.nodes d))
         (Dom.arrows d).

Definition onShape (i : nat) (f : Shape.t -> Shape.t) (v : Viewer.t) : Viewer.t :=
  setDiagram (setShape i f <$> Viewer.diagramRef v) v.

(** Does the loop body of [highlightNode] highlight this node? *)
Definition nodeMatches (nodeName : jsstring) (n : Node.t) : bool :=
  match Node.nodeLabel n, Node.shape n with
  | Some textContent, Some _ => labelMatches nodeName textContent
  | _, _ => false
  end.

(** The [forEach] over the nodes from position [i] on; [found] is the
    variable of that name. *)
Fixpoint highlightNodes (nodeName : jsstring) (duration : Z) (p : nat)
    (i : nat) (ns : list Node.t) (found : bool) (v : Viewer.t) : Viewer.t * bool :=
  match ns with
  | [] => (v, found)
  | n :: ns' =>
      if nodeMatches nodeName n then
        let v1 := onShape i emphasiseShape v in
        let v2 := fst (setTimeout (RemoveNodeHighlight i p) duration v1) in
        highlightNodes nodeName duration p (S i) ns' true v2
      else highlightNodes nodeName duration p (S i) ns' found v
  end.

(** [highlightNode(nodeName, duration, stepNumber)] returns the new state,
    the promise and whether the promise is already resolved. *)
Definition highlightNode (nodeName : jsstring) (duration : Z) (stepNumber : option Z)
    (v : Viewer.t) : Viewer.t * nat * bool :=
  let '(v, p) := newPromise v in
  match Viewer.diagramRef v with
  | None => (v, p, true)
  | Some _ =>
      let v :=
        match stepNumber with
        | Some n => highlightArrow n duration v
        | None => v
        end in
      let nodes := match Viewer.diagramRef v with Some d => Dom.nodes d | None => [] end in
      let '(v, found) := highlightNodes nodeName duration p 0 nodes false v in
      if found then (v, p, false)
      else (fst (setTimeout (ResolveOnly p) duration v), p, false)
  end.

(** *** The handlers of the playback controls *)

Definition handleStartAnimation (v : Viewer.t) : Viewer.t :=
  setIsAnimating true (setIsPaused false (setCurrentStep 0 v)).

Definition handleStopAnimation (v : Viewer.t) : Viewer.t :=
  let v := setCurrentStep 0 (setIsPaused false (setIsAnimating false v)) in
  setDiagram (clearHighlights (Viewer.diagramRef v)) v.

Definition handlePauseToggle (v : Viewer.t) : Viewer.t :=
  setIsPaused (negb (Viewer.isPaused v)) v.

(** Choosing a flow in the list of flows. *)
Definition handleSelectFlow (index : nat) (v : Viewer.t) : Viewer.t :=
  setCurrentStep 0 (setIsAnimating false (setSelectedFlow index v)).

(** A handler either returns or throws a [TypeError] when it reads a field
    of [undefined]; the state it leaves is given in both cases. *)
Inductive Completion : Type :=
  | Returned (v : Viewer.t)
  | Threw (v : Viewer.t).

Definition stepTo (flow : Flow.t) (newStep : Z) (v : Viewer.t) : Completion :=
  let v := setCurrentStep newStep v in
  let v := setDiagram (clearHighlights (Viewer.diagramRef v)) v in
  match at_index (Flow.steps flow) (newStep - 1) with
  | None => Threw v
  | Some step =>
      Returned (fst (fst (highlightNode (AnimationStep.node step) 5000
                            (Some (AnimationStep.step step)) v)))
  end.

Definition handlePreviousStep (flows : list Flow.t) (v : Viewer.t) : Completion :=
  match flows !! Viewer.selectedFlow v with
  | None => Returned v
  | Some flow =>
      let newStep := Z.max 1 (Viewer.currentStep v - 1) in
      stepTo flow newStep v
  end.

Definition handleNextStep (flows : list Flow.t) (v : Viewer.t) : Completion :=
  match flows !! Viewer.selectedFlow v with
  | None => Returned v
  | Some flow =>
      let newStep := Z.min (Z.of_nat (length (Flow.steps flow))) (Viewer.currentStep v + 1) in
      stepTo flow newStep v
  end.

(** *** The animation effect and its loop

    [runEffect] is one run of the body of the effect: [Closure.t] holds what
    that run captures ([flow], [isPaused]) and its local variables
    ([stepIndex], [timeoutId]), and the chain of [animateStep] calls that it
    starts is followed through the timers.  The further runs of the effect
    that React starts when one of its dependencies changes, and the function
    the effect returns for the time between two runs, are not modelled.

    [animateStep] runs up to its [await]; [resume] is the rest of it, run
    when the promise it waits for resolves. *)

Definition withClosure (f : Closure.t -> Closure.t) (v : Viewer.t) : Viewer.t :=
  setEffect (f <$> Viewer.effect v) v.

Definition resume (step : AnimationStep.t) (v : Viewer.t) : Viewer.t :=
  let v := withClosure (fun c =>
             Closure.mk (Closure.flow c) (Closure.isPaused c) (S (Closure.stepIndex c))
               (Closure.timeoutId c) None) v in
  let '(v, timeoutId) := setTimeout AnimateStep (AnimationStep.duration step) v in
  let v := withClosure (fun c =>
             Closure.mk (Closure.flow c) (Closure.isPaused c) (Closure.stepIndex c)
               (Some timeoutId) (Closure.awaiting c)) v in
  setAnimationTimeoutRef (Some timeoutId) v.

Definition animateStep (v : Viewer.t) : Viewer.t :=
  match Viewer.effect v with
  | None => v
  | Some c =>
      if Closure.isPaused c then
        let '(v, i) := setTimeout AnimateStep 100 v in
        setAnimationTimeoutRef (Some i) v
      else
        match Flow.steps (Closure.flow c) !! Closure.stepIndex c with
        | None =>
            (* stepIndex >= flow.steps.length *)
            setCurrentStep 0 (setIsAnimating false v)
        | Some step =>
            let v := setCurrentStep (Z.of_nat (Closure.stepIndex c) + 1) v in
            let v := setDiagram (clearHighlights (Viewer.diagramRef v)) v in
            let '(v, p, resolved) :=
              highlightNode (AnimationStep.node step) (AnimationStep.duration step)
                (Some (AnimationStep.step step)) v in
            if resolved then resume step v
            else withClosure (fun c =>
                   Closure.mk (Closure.flow c) (Closure.isPaused c) (Closure.stepIndex c)
                     (Closure.timeoutId c) (Some (p, step))) v
        end
  end.

(** [resolve()] of promise [p]: the suspended [animateStep] continues if
    this is the promise it waits for. *)
Definition resolve (p : nat) (v : Viewer.t) : Viewer.t :=
  match Viewer.effect v with
  | Some c =>
      match Closure.awaiting c with
      | Some (q, step) => if (p =? q) then resume step v else v
      | None => v
      end
  | None => v
  end.

(** The body of the animation effect, run when [isAnimating] turns true:
    it captures the flow, the pause flag and the cursor, and calls
    [animateStep]. *)
Definition runEffect (flows : list Flow.t) (v : Viewer.t) : Viewer.t :=
  if negb (Viewer.isAnimating v) then v
  else
    match flows !! Viewer.selectedFlow v with
    | None => v
    | Some flow =>
        let stepIndex :=
          if (0 <? Viewer.currentStep v)%Z then Z.to_nat (Viewer.currentStep v - 1) else 0 in
        animateStep
          (setEffect (Some (Closure.mk flow (Viewer.isPaused v) stepIndex None None)) v)
    end.

(** Pressing Play. *)
Definition startAutoplay (flows : list Flow.t) (v : Viewer.t) : Viewer.t :=
  runEffect flows (handleStartAnimation v).

(** One callback. *)
Definition fire (cb : Callback) (v : Viewer.t) : Viewer.t :=
  match cb with
  | AnimateStep => animateStep v
  | RemoveNodeHighlight i p => resolve p (onShape i clearShape v)
  | ResolveOnly p => resolve p v
  | ResetArrow a originalStroke originalStrokeWidth =>
      setDiagram
        ((fun d => Dom.mk (Dom.nodes d)
                     (alter (revertArrow originalStroke originalStrokeWidth) a (Dom.arrows d)))
           <$> Viewer.diagramRef v) v
  end.

(** The timer that fires next: the first, in registration order, of those
    with the least due time. *)
Fixpoint nextTimer (l : list Timer.t) : option Timer.t :=
  match l with
  | [] => None
  | timer :: l' =>
      match nextTimer l' with
      | None => Some timer
      | Some timer' =>
          if (Timer.due timer <=? Timer.due timer')%Z then Some timer else Some timer'
      end
  end.

(** One turn of the event loop: the next timer is removed, the clock moves
    to its due time and its callback runs.  [None] when no timer is left. *)
Definition turn (v : Viewer.t) : option Viewer.t :=
  match nextTimer (Viewer.timers v) with
  | None => None
  | Some timer =>
      let v := clearTimeout (Some (Timer.id timer)) v in
      let v := setClock (Z.max (Viewer.clock v) (Timer.due timer)) v in
      Some (fire (Timer.callback timer) v)
  end.

(** The event loop, for at most [n] turns. *)
Fixpoint run (n : nat) (v : Viewer.t) : Viewer.t :=
  match n with
  | O => v
  | S n' =>
      match turn v with
      | None => v
      | Some v' => run n' v'
      end
  end.

(** A freshly mounted viewer showing diagram [d]. *)
Definition mounted (d : option Dom.t) : Viewer.t :=
  Viewer.mk 0 false false 0 d None 0 [] 0 0 None.

(** ** The server side

    [JSON.stringify] and [JSON.parse] at a type: [JSON_parse] gives [None]
    where [JSON.parse] throws or the value is not of the shape the caller
    reads. *)

Class JSON (A : Type) : Type := {
  JSON_stringify : A -> string;
  JSON_parse : string -> option A
}.

(** A value survives the round trip through its text, and its text is not
    the empty string (as no JSON text is). *)
Definition JSONSerializable {A : Type} `{JSON A} (a : A) : Prop :=
  JSON_parse (JSON_stringify a) = Some a /\ JSON_stringify a <> "".

(** [AnalysisJob] of [src/lib/analysis.ts] *)
Module AnalysisJob.
Record t : Type := mk {
    id : string;
    repo : GitHubRepo.t;
    status : AnalysisStatus.t;
    createdAt : Z;
    result : option ArchitectureAnalysis.t
  }.
End AnalysisJob.

(** An entry of [memoryStore] in [src/lib/kv-client.ts]. *)
Module Item.
Record t : Type := mk {
    value : string;
    expiresAt : option Z
  }.
End Item.

(** The process-wide state of the server in development mode, where
    [kvClient] and [blobClient] keep their data in the maps [memoryStore]
    and [memoryBlobs] (in production the same calls go to Vercel KV and
    Vercel Blob).  [now] is what [Date.now()] returns; [statusLog] records,
    in order, every status written to a job. *)
Module World.
Record t : Type := mk {
    memoryStore : gmap string Item.t;
    memoryBlobs : gmap string string;
    now : Z;
    statusLog : list (string * AnalysisStatus.t)
  }.
End World.

Definition setMemoryStore (m : gmap string Item.t) (w : World.t) : World.t :=
  World.mk m (World.memoryBlobs w) (World.now w) (World.statusLog w).
Definition setMemoryBlobs (m : gmap string string) (w : World.t) : World.t :=
  World.mk (World.memoryStore w) m (World.now w) (World.statusLog w).
Definition elapse (ms : Z) (w : World.t) : World.t :=
  World.mk (World.memoryStore w) (World.memoryBlobs w) (World.now w + Z.max 0 ms) (World.statusLog w).
Definition logStatus (id : string) (s : AnalysisStatus.t) (w : World.t) : World.t :=
  World.mk (World.memoryStore w) (World.memoryBlobs w) (World.now w) (World.statusLog w ++ [(id, s)]).

(** *** [src/lib/kv-client.ts] *)

Definition expired (now : Z) (item : Item.t) : bool :=
  match Item.expiresAt item with
  | Some e => negb (e =? 0)%Z && (e <? now)%Z      (* item.expiresAt && Date.now() > item.expiresAt *)
  | None => false
  end.

Definition kv_get (key : string) (w : World.t) : World.t * option string :=
  match World.memoryStore w !! key with
  | None => (w, None)
  | Some item =>
      if expired (World.now w) item
      then (setMemoryStore (delete key (World.memoryStore w)) w, None)
      else (w, Some (Item.value item))
  end.

Definition kv_set (key : string) (value : string) (ex : Z) (w : World.t) : World.t :=
  let item :=
    Item.mk value (if (ex =? 0)%Z then None else Some (World.now w + ex * 1000)%Z) in
  setMemoryStore (<[key := item]> (World.memoryStore w)) w.

Definition kv_del (key : string) (w : World.t) : World.t :=
  setMemoryStore (delete key (World.memoryStore w)) w.

(** *** [src/lib/blob-client.ts] *)

Definition blob_put (key data : string) (w : World.t) : World.t * string :=
  (setMemoryBlobs (<[key := data]> (World.memoryBlobs w)) w,
   "http://localhost:3000/mock-blob/" +:+ key).

(** [memoryBlobs.get(key) || null] *)
Definition blob_get (key : string) (w : World.t) : option string :=
  match World.memoryBlobs w !! key with
  | Some data => if bool_decide (data = "") then None else Some data
  | None => None
  end.

(** [head] throws when the key is missing: [false] stands for the throw. *)
Definition blob_head (key : string) (w : World.t) : bool :=
  bool_decide (is_Some (World.memoryBlobs w !! key)).

(** *** [src/lib/github.ts] *)

Definition getRepoKey (repo : GitHubRepo.t) : string :=
  GitHubRepo.owner repo +:+ "/" +:+ GitHubRepo.name repo.

Section Server.
Context `{JSON AnalysisJob.t} `{JSON ArchitectureAnalysis.t} `{JSON CacheMetadata.t}.

  (** *** [src/lib/storage.ts] *)

Definition analysisKey (repo : GitHubRepo.t) : string :=
    getRepoKey repo +:+ "/analysis.json".

Definition saveAnalysis (repo : GitHubRepo.t) (analysis : ArchitectureAnalysis.t)
      (w : World.t) : World.t * string :=
    blob_put (analysisKey repo) (JSON_stringify analysis) w.

Definition getAnalysis (repo : GitHubRepo.t) (w : World.t) : option ArchitectureAnalysis.t :=
    match blob_get (analysisKey repo) w with
    | None => None
    | Some data => JSON_parse data
    end.

Definition hasAnalysis (repo : GitHubRepo.t) (w : World.t) : bool :=
    blob_head (analysisKey repo) w.

  (** *** [src/lib/cache.ts] *)

Definition CACHE_PREFIX : string := "arch-flow:".
Definition CACHE_TTL : Z := 60 * 60 * 24 * 7.

Definition setCacheMetadata (repo : GitHubRepo.t) (timestamp : Z) (blobUrl : string)
      (w : World.t) : World.t :=
    let data := CacheMetadata.mk (getRepoKey repo) timestamp blobUrl in
    kv_set (CACHE_PREFIX +:+ getRepoKey repo) (JSON_stringify data) CACHE_TTL w.

  (** *** [src/lib/analysis.ts] *)

Definition ANALYSIS_PREFIX : string := "analysis:".
Definition ANALYSIS_TTL : Z := 60 * 60.

Definition jobKey (id : string) : string := ANALYSIS_PREFIX +:+ id.

  (** [id] is the identifier that [randomUUID()] draws. *)
Definition createAnalysisJob (id : string) (repo : GitHubRepo.t) (w : World.t) : World.t :=
    let status := AnalysisStatus.mk downloading 0 "Starting analysis..." None in
    let job := AnalysisJob.mk id repo status (World.now w) None in
    logStatus id status (kv_set (jobKey id) (JSON_stringify job) ANALYSIS_TTL w).

Definition getAnalysisJob (id : string) (w : World.t) : World.t * option AnalysisJob.t :=
    match kv_get (jobKey id) w with
    | (w, None) => (w, None)
    | (w, Some data) =>
        if bool_decide (data = "") then (w, None)       (* if (!data) *)
        else (w, JSON_parse data)
    end.

Definition writeJob (job : AnalysisJob.t) (id : string) (w : World.t) : World.t :=
    logStatus id (AnalysisJob.status job)
      (kv_set (jobKey id) (JSON_stringify job) ANALYSIS_TTL w).

Definition updateAnalysisStatus (id : string) (status : AnalysisStatus.t)
      (w : World.t) : World.t :=
    match getAnalysisJob id w with
    | (w, None) => w
    | (w, Some job) =>
        let job := AnalysisJob.mk (AnalysisJob.id job) (AnalysisJob.repo job) status
                     (AnalysisJob.createdAt job) (AnalysisJob.result job) in
        writeJob job id w
    end.

Definition completeAnalysisJob (id : string) (result : ArchitectureAnalysis.t)
      (w : World.t) : World.t :=
    match getAnalysisJob id w with
    | (w, None) => w
    | (w, Some job) =>
        let status := AnalysisStatus.mk complete 100 "Analysis complete!" None in
        let job := AnalysisJob.mk (AnalysisJob.id job) (AnalysisJob.repo job) status
                     (AnalysisJob.createdAt job) (Some result) in
        writeJob job id w
    end.

Definition failAnalysisJob (id : string) (error_ : string) (w : World.t) : World.t :=
    match getAnalysisJob id w with
    | (w, None) => w
    | (w, Some job) =>
        let status := AnalysisStatus.mk error 0 "Analysis failed" (Some error_) in
        let job := AnalysisJob.mk (AnalysisJob.id job) (AnalysisJob.repo job) status
                     (AnalysisJob.createdAt job) (AnalysisJob.result job) in
        writeJob job id w
    end.
End Server.

(** *** [src/lib/analyzer.ts] *)

(** What the analysis yields before [timestamp] and [repoInfo] are added. *)
Module Analysis.
Record t : Type := mk {
    diagram : string;
    flows : list Flow.t
  }.
End Analysis.

Definition DQ : string := String (ascii_of_nat 34) EmptyString.
Definition NL : string := String (ascii_of_nat 10) EmptyString.

Definition lines (l : list string) : string := String.concat NL l.

Definition mockStep (n : Z) (node message : string) (duration : Z) : AnimationStep.t :=
  AnimationStep.mk n (str node) message duration None None.

Definition getMockAnalysis (repo : GitHubRepo.t) : Analysis.t :=
  Analysis.mk
    (lines [
       "flowchart TD";
       "    Client[" +:+ DQ +:+ "🖥️ Client<br/>Browser" +:+ DQ +:+ "]";
       "    Server[" +:+ DQ +:+ "⚙️ Server<br/>" +:+ GitHubRepo.name repo +:+ DQ +:+ "]";
       "    DB[(" +:+ DQ +:+ "🗄️ Database" +:+ DQ +:+ ")]";
       "    Cache[(" +:+ DQ +:+ "💾 Cache" +:+ DQ +:+ ")]";
       EmptyString;
       "    Client -->|Request| Server";
       "    Server -->|Query| DB";
       "    Server -->|Read/Write| Cache";
       "    DB -->|Data| Server";
       "    Cache -->|Data| Server";
       "    Server -->|Response| Client";
       EmptyString;
       "    style Client fill:#3498db,stroke:#2980b9,stroke-width:3px,color:#fff";
       "    style Server fill:#2ecc71,stroke:#27ae60,stroke-width:3px,color:#fff";
       "    style DB fill:#e74c3c,stroke:#c0392b,stroke-width:3px,color:#fff";
       "    style Cache fill:#f39c12,stroke:#e67e22,stroke-width:3px,color:#fff" ])
    [ Flow.mk "User Request Flow" "A typical user request through the system"
        [ mockStep 1 "Client" "User initiates request" 800;
          mockStep 2 "Server" "Server receives request" 800;
          mockStep 3 "Cache" "Check cache for data" 600;
          mockStep 4 "DB" "Query database if cache miss" 1000;
          mockStep 5 "Server" "Process and format response" 800;
          mockStep 6 "Client" "Return response to client" 800 ]
        [ str "Client"; str "Server"; str "Cache"; str "DB" ] ].

(** The environment variables the analyzer reads. *)
Module ProcessEnv.
Record t : Type := mk {
    GITHUB_TOKEN : option string;
    ANTHROPIC_API_KEY : option string
  }.
End ProcessEnv.

(** [!x] for an environment variable. *)
Definition unset (x : option string) : bool :=
  match x with
  | None => true
  | Some s => bool_decide (s = "")
  end.

(** A value thrown: an [Error] with its message, or anything else. *)
Inductive Thrown : Type :=
  | ErrorObject (message : string)
  | OtherValue.

(** How an awaited call to an outside service ends, and after how long. *)
Inductive Settled (A : Type) : Type :=
  | Fulfilled (elapsed : Z) (a : A)
  | Rejected (elapsed : Z) (e : Thrown).
Arguments Fulfilled {A} elapsed a.
Arguments Rejected {A} elapsed e.

(** The services outside the repository: the GitHub download and the part
    of [analyzeWithClaude] after its mock branch (extraction, the call to
    the model, parsing and validation of its answer). *)
Module Services.
Record t : Type := mk {
    downloadRepoTarball : GitHubRepo.t -> Settled (list N);
    claude : GitHubRepo.t -> list N -> Settled Analysis.t
  }.
End Services.

Definition analyzeWithClaude (env : ProcessEnv.t) (ext : Services.t)
    (repo : GitHubRepo.t) (codeBuffer : list N) : Settled Analysis.t :=
  if unset (ProcessEnv.ANTHROPIC_API_KEY env) || (length codeBuffer =? 0)
  then Fulfilled 0 (getMockAnalysis repo)
  else Services.claude ext repo codeBuffer.

(** [error instanceof Error ? error.message : 'Unknown error'] *)
Definition errorMessage (e : Thrown) : string :=
  match e with
  | ErrorObject message => message
  | OtherValue => "Unknown error"
  end.

Section Orchestrator.
Context `{JSON AnalysisJob.t} `{JSON ArchitectureAnalysis.t} `{JSON CacheMetadata.t}.

Definition runAnalysis (env : ProcessEnv.t) (ext : Services.t)
      (analysisId : string) (repo : GitHubRepo.t) (w : World.t) : World.t :=
    let w := updateAnalysisStatus analysisId
               (AnalysisStatus.mk downloading 10
                  ("Downloading " +:+ GitHubRepo.owner repo +:+ "/" +:+ GitHubRepo.name repo +:+ "...")
                  None) w in
    let download :=
      if unset (ProcessEnv.GITHUB_TOKEN env) && unset (ProcessEnv.ANTHROPIC_API_KEY env)
      then Fulfilled 0 []
      else Services.downloadRepoTarball ext repo in
    match download with
    | Rejected elapsed e => failAnalysisJob analysisId (errorMessage e) (elapse elapsed w)
    | Fulfilled elapsed buffer =>
        let w := elapse elapsed w in
        let w := updateAnalysisStatus analysisId
                   (AnalysisStatus.mk extracting 30 "Extracting repository files..." None) w in
        let w := updateAnalysisStatus analysisId
                   (AnalysisStatus.mk analyzing 50
                      "Analyzing code architecture with Claude..." None) w in
        match analyzeWithClaude env ext repo buffer with
        | Rejected elapsed e => failAnalysisJob analysisId (errorMessage e) (elapse elapsed w)
        | Fulfilled elapsed analysis =>
            let w := elapse elapsed w in
            let w := updateAnalysisStatus analysisId
                       (AnalysisStatus.mk generating 80
                          "Generating architecture diagram..." None) w in
            let fullAnalysis :=
              ArchitectureAnalysis.mk (Analysis.diagram analysis) (Analysis.flows analysis)
                (World.now w) repo in
            let '(w, blobUrl) := saveAnalysis repo fullAnalysis w in
            let w := setCacheMetadata repo (World.now w) blobUrl w in
            completeAnalysisJob analysisId fullAnalysis w
        end
    end.

  (** The progress percentages written to job [id] after the first [n]
      entries of the status log. *)
Definition progressWritten (id : string) (n : nat) (w : World.t) : list Z :=
    map (fun e => AnalysisStatus.progress (snd e))
        (List.filter (fun e => bool_decide (fst e = id)) (drop n (World.statusLog w))).

  (** *** [src/app/api/stream/[analysisId]/route.ts] *)

Inductive SSEvent : Type :=
    | StatusEvent (data : AnalysisStatus.t)
    | CompleteEvent (data : ArchitectureAnalysis.t)
    | ErrorEvent (message : string).

  (** One run of the polling callback on the job it reads: the events it
      sends and whether it closes the stream. *)
Definition poll (job : option AnalysisJob.t) : list SSEvent * bool :=
    match job with
    | None => ([ErrorEvent "Analysis job not found"], true)
    | Some job =>
        let status := AnalysisJob.status job in
        match AnalysisStatus.status status, AnalysisJob.result job with
        | complete, Some result => ([StatusEvent status; CompleteEvent result], true)
        | error, _ =>
            let message :=
              match AnalysisStatus.error status with
              | Some e => orElse e "Analysis failed"
              | None => "Analysis failed"
              end in
            ([StatusEvent status; ErrorEvent message], true)
        | _, _ => ([StatusEvent status], false)
        end
    end.

  (** The stream for job [analysisId]: the callback runs once a second, on
      the state of the server at that moment, until it closes the stream.
      [worlds] are those states, one per second. *)
Fixpoint stream (analysisId : string) (worlds : list World.t) : list SSEvent * bool :=
    match worlds with
    | [] => ([], false)
    | w :: rest =>
        let '(events, closed) := poll (snd (getAnalysisJob analysisId w)) in
        if closed then (events, true)
        else let '(later, closed) := stream analysisId rest in (events ++ later, closed)
    end.
End Orchestrator.

(** ** A reference text format

    An implementation of the [JSON] interface with which concrete runs of
    the server can be computed: the text of a value is an opening brace
    followed by the binary digits of its code. *)

Fixpoint digits (p : positive) : string :=
  match p with
  | xH => ""
  | xO p => String "0" (digits p)
  | xI p => String "1" (digits p)
  end.

Fixpoint undigits (s : string) : option positive :=
  match s with
  | EmptyString => Some xH
  | String c s =>
      if bool_decide (c = "0"%char) then xO <$> undigits s
      else if bool_decide (c = "1"%char) then xI <$> undigits s
      else None
  end.

Definition refStringify {A : Type} `{Countable A} (a : A) : string :=
  String "{" (digits (encode a)).

Definition refParse {A : Type} `{Countable A} (s : string) : option A :=
  match s with
  | String c s => if bool_decide (c = "{"%char) then undigits s ≫= decode else None
  | EmptyString => None
  end.

#[global] Instance GitHubRepo_eq_dec : EqDecision GitHubRepo.t.
Proof. solve_decision. Defined.
#[global] Instance GitHubRepo_countable : Countable GitHubRepo.t.
Proof.
  refine (inj_countable'
            (fun r => (GitHubRepo.owner r, GitHubRepo.name r, GitHubRepo.branch r))
            (fun '(o, n, b) => GitHubRepo.mk o n b) _).
  by intros [].
Defined.

#[global] Instance AnimationStep_eq_dec : EqDecision AnimationStep.t.
Proof. solve_decision. Defined.
#[global] Instance AnimationStep_countable : Countable AnimationStep.t.
Proof.
  refine (inj_countable'
            (fun s => (AnimationStep.step s, AnimationStep.node s, AnimationStep.message s,
                       AnimationStep.duration s, AnimationStep.request s,
                       AnimationStep.response s))
            (fun '(a, b, c, d, e, f) => AnimationStep.mk a b c d e f) _).
  by intros [].
Defined.

#[global] Instance Flow_eq_dec : EqDecision Flow.t.
Proof. solve_decision. Defined.
#[global] Instance Flow_countable : Countable Flow.t.
Proof.
  refine (inj_countable'
            (fun f => (Flow.name f, Flow.description f, Flow.steps f, Flow.nodes f))
            (fun '(a, b, c, d) => Flow.mk a b c d) _).
  by intros [].
Defined.

#[global] Instance ArchitectureAnalysis_eq_dec : EqDecision ArchitectureAnalysis.t.
Proof. solve_decision. Defined.
#[global] Instance ArchitectureAnalysis_countable : Countable ArchitectureAnalysis.t.
Proof.
  refine (inj_countable'
            (fun a => (ArchitectureAnalysis.diagram a, ArchitectureAnalysis.flows a,
                       ArchitectureAnalysis.timestamp a, ArchitectureAnalysis.repoInfo a))
            (fun '(a, b, c, d) => ArchitectureAnalysis.mk a b c d) _).
  by intros [].
Defined.

#[global] Instance Phase_eq_dec : EqDecision Phase.
Proof. solve_decision. Defined.
#[global] Instance Phase_countable : Countable Phase.
Proof.
  refine (inj_countable'
            (fun p => match p with
                      | downloading => 0 | extracting => 1 | analyzing => 2
                      | generating => 3 | complete => 4 | error => 5
                      end)
            (fun n => match n with
                      | 0 => downloading | 1 => extracting | 2 => analyzing
                      | 3 => generating | 4 => complete | _ => error
                      end) _).
  by intros [].
Defined.

#[global] Instance AnalysisStatus_eq_dec : EqDecision AnalysisStatus.t.
Proof. solve_decision. Defined.
#[global] Instance AnalysisStatus_countable : Countable AnalysisStatus.t.
Proof.
  refine (inj_countable'
            (fun s => (AnalysisStatus.status s, AnalysisStatus.progress s,
                       AnalysisStatus.message s, AnalysisStatus.error s))
            (fun '(a, b, c, d) => AnalysisStatus.mk a b c d) _).
  by intros [].
Defined.

#[global] Instance AnalysisJob_eq_dec : EqDecision AnalysisJob.t.
Proof. solve_decision. Defined.
#[global] Instance AnalysisJob_countable : Countable AnalysisJob.t.
Proof.
  refine (inj_countable'
            (fun j => (AnalysisJob.id j, AnalysisJob.repo j, AnalysisJob.status j,
                       AnalysisJob.createdAt j, AnalysisJob.result j))
            (fun '(a, b, c, d, e) => AnalysisJob.mk a b c d e) _).
  by intros [].
Defined.

#[global] Instance CacheMetadata_eq_dec : EqDecision CacheMetadata.t.
Proof. solve_decision. Defined.
#[global] Instance CacheMetadata_countable : Countable CacheMetadata.t.
Proof.
  refine (inj_countable'
            (fun m => (CacheMetadata.repoKey m, CacheMetadata.timestamp m,
                       CacheMetadata.blobUrl m))
            (fun '(a, b, c) => CacheMetadata.mk a b c) _).
  by intros [].
Defined.

Definition refJSON (A : Type) `{Countable A} : JSON A :=
  {| JSON_stringify := refStringify; JSON_parse := refParse |}.

(** ** Predicates of the statements *)

(** A string without white space at its ends. *)
Definition noLeadingWs (s : jsstring) : Prop :=
  match s with
  | [] => True
  | c :: _ => isWhiteSpace c = false
  end.

Definition noTrailingWs (s : jsstring) : Prop :=
  match last s with
  | None => True
  | Some c => isWhiteSpace c = false
  end.

(** What [highlightNode] does to a node, and the timers its loop registers
    from node [i] and timer id [id] on. *)
Definition emphasiseNode (n : Node.t) : Node.t :=
  Node.mk (Node.nodeLabel n) (emphasiseShape <$> Node.shape n).

Definition highlighted (nodeName : jsstring) (n : Node.t) : Node.t :=
  if nodeMatches nodeName n then emphasiseNode n else n.

Fixpoint removalTimers (nodeName : jsstring) (due : Z) (p : nat) (i id : nat)
    (ns : list Node.t) : list Timer.t :=
  match ns with
  | [] => []
  | n :: ns' =>
      if nodeMatches nodeName n
      then Timer.mk id due (RemoveNodeHighlight i p)
             :: removalTimers nodeName due p (S i) (S id) ns'
      else removalTimers nodeName due p (S i) id ns'
  end.

(** What [highlightArrow] does to the arrows, and the timer it registers
    with id [id]. *)
Definition arrowEffect (stepNumber : Z) (due : Z) (id : nat) (arrows : list Arrow.t)
    : list Arrow.t * list Timer.t :=
  match targetPath stepNumber arrows with
  | None => (arrows, [])
  | Some pos =>
      match arrows !! pos with
      | None => (arrows, [])
      | Some arrow =>
          (<[pos := emphasiseArrow arrow]> arrows,
           [Timer.mk id due
              (ResetArrow pos
                 (orElse (Arrow.stroke arrow) (attrOrElse (Arrow.attrStroke arrow) "#333"))
                 (orElse (Arrow.strokeWidth arrow) (attrOrElse (Arrow.attrStrokeWidth arrow) "2")))])
      end
  end.

(** The diagram after [highlightNode(nodeName, duration, stepNumber)], and
    the timers the call registers at time [clock] from timer id [id] on for
    promise [p]. *)
Definition highlightDom (nodeName : jsstring) (stepNumber : Z) (d : Dom.t) : Dom.t :=
  Dom.mk (map (highlighted nodeName) (Dom.nodes d))
         (fst (arrowEffect stepNumber 0 0 (Dom.arrows d))).

Definition highlightTimers (nodeName : jsstring) (duration : Z) (stepNumber : Z)
    (clock : Z) (id p : nat) (d : Dom.t) : list Timer.t :=
  let due := (clock + Z.max 0 duration)%Z in
  let newA := snd (arrowEffect stepNumber due id (Dom.arrows d)) in
  let newN := removalTimers nodeName due p 0 (id + length newA) (Dom.nodes d) in
  let newR :=
    if existsb (nodeMatches nodeName) (Dom.nodes d) then []
    else [Timer.mk (id + length newA + length newN) due (ResolveOnly p)] in
  newA ++ newN ++ newR.

(** A label whose emoji glyphs consist only of pictographs of
    U+1F300..U+1F9FF. *)
Definition emojiWithinRange (s : jsstring) : Prop :=
  forall c, c ∈ s -> spec_isEmojiGlyph c = true -> inEmojiRange c = true.

(** In the SVG that Mermaid renders, a path of class [path] lies in a
    group of class [edgePath], so that every rendered edge is reached by
    the selector of [clearHighlights]. *)
Definition mermaidEdges (d : Dom.t) : Prop :=
  forall a, a ∈ Dom.arrows d -> Arrow.pathPath a = true -> Arrow.edgePathPath a = true.

(** No node and no edge of the diagram carries emphasis. *)
Definition noEmphasis (d : Dom.t) : Prop :=
  (forall n, n ∈ Dom.nodes d -> nodeEmphasised n = false)
  /\ (forall a, a ∈ Dom.arrows d -> isEdge a = true -> arrowEmphasised a = false).

(** A job id is absent from the status store: never created, expired, or
    stored as text that does not parse as a job. *)
Inductive Absent `{JSON AnalysisJob.t} (id : string) (w : World.t) : Prop :=
  | NeverCreated :
      World.memoryStore w !! jobKey id = None -> Absent id w
  | Expired (item : Item.t) :
      World.memoryStore w !! jobKey id = Some item ->
      expired (World.now w) item = true -> Absent id w
  | Unparsable (item : Item.t) :
      World.memoryStore w !! jobKey id = Some item ->
      expired (World.now w) item = false ->
      Item.value item = "" \/ JSON_parse (Item.value item) = @None AnalysisJob.t ->
      Absent id w.

(** The store after an operation that found the job absent: nothing but,
    at most, the removal of the job's expired entry. *)
Definition storeUntouched (id : string) (w w' : World.t) : Prop :=
  World.now w' = World.now w
  /\ World.memoryBlobs w' = World.memoryBlobs w
  /\ World.statusLog w' = World.statusLog w
  /\ (World.memoryStore w' = World.memoryStore w
      \/ exists item,
           World.memoryStore w !! jobKey id = Some item
           /\ expired (World.now w) item = true
           /\ World.memoryStore w' = delete (jobKey id) (World.memoryStore w))
  /\ (forall key item,
        World.memoryStore w' !! key = Some item -> World.memoryStore w !! key = Some item)
  /\ (forall key, snd (kv_get key w') = snd (kv_get key w)).

(** The job that a lookup of [id] finds. *)
Definition readJob `{JSON AnalysisJob.t} (id : string) (w : World.t) : option AnalysisJob.t :=
  snd (getAnalysisJob id w).

(** The progress values of a run, after the 0 of the creation. *)
Definition designValues : list Z := [10; 30; 50; 80; 100]%Z.

(** A service call of the run is rejected, so that the run ends in
    [failAnalysisJob]. *)
Definition runFails (env : ProcessEnv.t) (ext : Services.t) (repo : GitHubRepo.t) : bool :=
  let download :=
    if unset (ProcessEnv.GITHUB_TOKEN env) && unset (ProcessEnv.ANTHROPIC_API_KEY env)
    then Fulfilled 0 []
    else Services.downloadRepoTarball ext repo in
  match download with
  | Rejected _ _ => true
  | Fulfilled _ buffer =>
      match analyzeWithClaude env ext repo buffer with
      | Rejected _ _ => true
      | Fulfilled _ _ => false
      end
  end.

(** The concrete server of the examples: an empty store at time 1000, a
    GitHub token but a download that fails. *)
Definition exampleRepo : GitHubRepo.t := GitHubRepo.mk "acme" "widgets" None.
Definition exampleWorld : World.t := World.mk ∅ ∅ 1000 [].
Definition failingEnv : ProcessEnv.t := ProcessEnv.mk (Some "ghp_token") None.
Definition failingServices : Services.t :=
  Services.mk
    (fun _ => Rejected 1500 (ErrorObject "Failed to download repository: Not Found"))
    (fun _ _ => Rejected 0 OtherValue).

(** The bookkeeping of a run: [p] is what has been written to job [id]
    since entry [n] of the log, and [dead] says the job is known to be
    absent. *)
Definition Written `{JSON AnalysisJob.t} (id : string) (n : nat)
    (w : World.t) (p : list Z) (dead : bool) : Prop :=
  progressWritten id n w = p
  /\ n <= length (World.statusLog w)
  /\ (dead = true -> readJob id w = None).

(** The reference text format at the types the server stores. *)
Definition refJob : JSON AnalysisJob.t := refJSON AnalysisJob.t.
Definition refAnalysis : JSON ArchitectureAnalysis.t := refJSON ArchitectureAnalysis.t.
Definition refMetadata : JSON CacheMetadata.t := refJSON CacheMetadata.t.

(** A job is created on the example server and the orchestrator runs while
    the download fails. *)
Definition failedRun : World.t :=
  @runAnalysis refJob refAnalysis refMetadata failingEnv failingServices "job-1" exampleRepo
    (@createAnalysisJob refJob "job-1" exampleRepo exampleWorld).

(** A string without a slash. *)
Definition noSlash (s : string) : Prop :=
  forall c, c ∈ list_ascii_of_string s -> c <> "/"%char.

(** The identity of a repository: its owner and its name. *)
Definition identity (repo : GitHubRepo.t) : string * string :=
  (GitHubRepo.owner repo, GitHubRepo.name repo).

(** The server after a series of calls to [saveAnalysis]. *)
Definition saveAll `{JSON ArchitectureAnalysis.t}
    (saves : list (GitHubRepo.t * ArchitectureAnalysis.t)) (w : World.t) : World.t :=
  foldl (fun w save => fst (saveAnalysis (fst save) (snd save) w)) w saves.

(** Two identities with the same key. *)
Definition slashOwner : GitHubRepo.t := GitHubRepo.mk "a/b" "c" None.
Definition slashName : GitHubRepo.t := GitHubRepo.mk "a" "b/c" None.
Definition someAnalysis : ArchitectureAnalysis.t :=
  ArchitectureAnalysis.mk "flowchart TD" [] 1000 slashOwner.

(** *** Autoplay

    The time a timer set for a step's duration takes, the time at which
    step [k] (from 0) of a flow starts when autoplay starts at [t0], and
    the shape of the states that autoplay runs through. *)
Definition delayOf (step : AnimationStep.t) : Z := Z.max 0 (AnimationStep.duration step).

Definition startOf (flow : Flow.t) (t0 : Z) (k : nat) : Z :=
  (t0 + 2 * foldr Z.add 0 (delayOf <$> take k (Flow.steps flow)))%Z.

(** The callbacks that a call of [highlightNode] for promise [p] registers. *)
Definition stepCallback (p : nat) (cb : Callback) : Prop :=
  match cb with
  | AnimateStep => False
  | RemoveNodeHighlight _ q => q = p
  | ResolveOnly q => q = p
  | ResetArrow _ _ _ => True
  end.

Definition resolver (cb : Callback) : bool :=
  match cb with
  | RemoveNodeHighlight _ _ | ResolveOnly _ => true
  | _ => false
  end.

(** Step [k] is being shown: [rest] are the timers of its highlight that
    have not fired, [tail] the timer for the next [animateStep] once the
    promise [p] of the highlight is resolved. *)
Record Showing (flow : Flow.t) (t0 : Z) (v : Viewer.t)
    (k : nat) (step : AnimationStep.t) (p : nat) (rest tail : list Timer.t) : Prop := {
  showing_step : Flow.steps flow !! k = Some step;
  showing_animating : Viewer.isAnimating v = true;
  showing_current : Viewer.currentStep v = (Z.of_nat k + 1)%Z;
  showing_timers : Viewer.timers v = rest ++ tail;
  showing_due :
    Forall (fun timer => Timer.due timer = (startOf flow t0 k + delayOf step)%Z) rest;
  showing_callbacks : Forall (fun timer => stepCallback p (Timer.callback timer)) rest;
  showing_clock : (startOf flow t0 k <= Viewer.clock v <= startOf flow t0 k + delayOf step)%Z;
  showing_ids : NoDup (Timer.id <$> Viewer.timers v);
  showing_fresh : Forall (fun timer => Timer.id timer < Viewer.nextTimerId v) (Viewer.timers v);
  showing_dom :
    exists d, Viewer.diagramRef v = Some d
      /\ forall i n, Dom.nodes d !! i = Some n -> nodeEmphasised n = true ->
           nodeMatches (AnimationStep.node step) n = true
           /\ exists timer, timer ∈ rest /\ Timer.callback timer = RemoveNodeHighlight i p;
  showing_phase :
    (tail = []
     /\ (exists tid, Viewer.effect v = Some (Closure.mk flow false k tid (Some (p, step))))
     /\ exists timer, timer ∈ rest /\ resolver (Timer.callback timer) = true)
    \/ (exists id tid,
          tail = [Timer.mk id (startOf flow t0 (S k)) AnimateStep]
          /\ Viewer.effect v = Some (Closure.mk flow false (S k) tid None)
          /\ Viewer.clock v = (startOf flow t0 k + delayOf step)%Z)
}.

(** Autoplay is over. *)
Record Finished (flow : Flow.t) (t0 : Z) (v : Viewer.t) : Prop := {
  finished_animating : Viewer.isAnimating v = false;
  finished_current : Viewer.currentStep v = 0%Z;
  finished_timers : Viewer.timers v = [];
  finished_clock : Viewer.clock v = startOf flow t0 (length (Flow.steps flow));
  finished_dom :
    exists d, Viewer.diagramRef v = Some d
      /\ forall n, n ∈ Dom.nodes d -> nodeEmphasised n = false
}.

Definition Autoplaying (flow : Flow.t) (t0 : Z) (v : Viewer.t) : Prop :=
  (exists k step p rest tail, Showing flow t0 v k step p rest tail)
  \/ Finished flow t0 v.

(** How far a showing state is from the next step. *)
Definition stepsLeft (rest tail : list Timer.t) : nat :=
  2 * length rest + match tail with [] => 1 | _ => 0 end.

(** A viewer at rest: nothing scheduled, a diagram rendered and no node
    emphasised. *)
Record AtRest (v : Viewer.t) : Prop := {
  rest_timers : Viewer.timers v = [];
  rest_dom :
    exists d, Viewer.diagramRef v = Some d
      /\ forall n, n ∈ Dom.nodes d -> nodeEmphasised n = false
}.

(** The sum of the delays of a flow. *)
Definition totalDelay (flow : Flow.t) : Z :=
  foldr Z.add 0%Z (delayOf <$> Flow.steps flow).

(** A step label that matches at most one node of the diagram. *)
Definition unambiguous (flow : Flow.t) (d : Dom.t) : Prop :=
  forall step i j n n',
    step ∈ Flow.steps flow ->
    Dom.nodes d !! i = Some n -> Dom.nodes d !! j = Some n' ->
    nodeMatches (AnimationStep.node step) n = true ->
    nodeMatches (AnimationStep.node step) n' = true ->
    i = j.

(** The concrete viewer of the examples: a flow of three steps with the
    durations 800, 800 and 1000, on a diagram with two nodes whose labels
    begin with "Client". *)
Definition exampleFlow : Flow.t :=
  Flow.mk "Request" "A request through the system"
    [ AnimationStep.mk 1 (str "Client") "User initiates request" 800 None None;
      AnimationStep.mk 2 (str "Server") "Server receives request" 800 None None;
      AnimationStep.mk 3 (str "DB") "Query database" 1000 None None ]
    [ str "Client"; str "Server"; str "DB" ].

Definition plainShape : Shape.t := Shape.mk None None "" "".
Definition plainArrow : Arrow.t :=
  Arrow.mk true false false None None "" "" "" "" "" "" 0.

Definition exampleDom : Dom.t :=
  Dom.mk
    [ Node.mk (Some (str "Client Browser")) (Some plainShape);
      Node.mk (Some (str "Client Mobile")) (Some plainShape);
      Node.mk (Some (str "Server")) (Some plainShape);
      Node.mk (Some (str "DB")) (Some plainShape) ]
    [ plainArrow; plainArrow; plainArrow ].

Definition exampleAutoplay : Viewer.t :=
  startAutoplay [exampleFlow] (mounted (Some exampleDom)).

(** The number of emphasised nodes of a viewer. *)
Definition emphasisedNodes (v : Viewer.t) : nat :=
  match Viewer.diagramRef v with
  | Some d => length (List.filter nodeEmphasised (Dom.nodes d))
  | None => 0
  end.

(** ** Further functions

    The functions around those above: the parsing of repository URLs, the
    rest of the stores, the route that starts an analysis, the form, and
    the file helpers of the analyzer. *)

(** *** [src/lib/github.ts]: [parseGitHubUrl] and [validateRepoUrl]

    A URL is the text of its UTF-8 bytes.  Every character that the
    patterns of this file name is an ASCII character, so that matching on
    bytes and matching on UTF-16 code units give the same groups. *)

(** [[^\/]+], greedy: the longest run of characters other than the slash at
    the head of [s], and what follows it. *)
Fixpoint spanNoSlash (s : string) : string * string :=
  match s with
  | EmptyString => (EmptyString, EmptyString)
  | String c s' =>
      if bool_decide (c = "/"%char) then (EmptyString, s)
      else let '(run, rest) := spanNoSlash s' in (String c run, rest)
  end.

(** [([^\/]+)\/([^\/]+)] at the head of [s]: the two groups and what
    follows the match.  A greedy run that ends before the end of [s] ends at
    a slash, and any shorter run is followed by a character of the run: the
    greedy runs are the only way to match. *)
Definition matchOwnerName (s : string) : option (string * string * string) :=
  let '(owner, rest) := spanNoSlash s in
  match owner, rest with
  | String _ _, String _ rest =>
      let '(name, rest) := spanNoSlash rest in
      match name with
      | String _ _ => Some (owner, name, rest)
      | EmptyString => None
      end
  | _, _ => None
  end.

(** [s] without its prefix [p], if it has that prefix. *)
Fixpoint stripPrefix (p s : string) : option string :=
  match p, s with
  | EmptyString, _ => Some s
  | String a p', String b s' => if bool_decide (a = b) then stripPrefix p' s' else None
  | String _ _, EmptyString => None
  end.

(** [url.match(/github\.com\/([^\/]+)\/([^\/]+)/)]: the groups of the
    leftmost match. *)
Fixpoint matchGitHubCom (url : string) : option (string * string) :=
  let here :=
    match stripPrefix "github.com/" url with
    | Some rest => matchOwnerName rest
    | None => None
    end in
  match here with
  | Some (owner, name, _) => Some (owner, name)
  | None =>
      match url with
      | EmptyString => None
      | String _ url' => matchGitHubCom url'
      end
  end.

(** [url.match(/^([^\/]+)\/([^\/]+)$/)] *)
Definition matchShorthand (url : string) : option (string * string) :=
  match matchOwnerName url with
  | Some (owner, name, EmptyString) => Some (owner, name)
  | _ => None
  end.

(** [name.replace(/\.git$/, '')] *)
Fixpoint dropDotGit (name : string) : string :=
  match name with
  | EmptyString => EmptyString
  | String c name' =>
      if bool_decide (name = ".git") then EmptyString else String c (dropDotGit name')
  end.

Definition parseGitHubUrl (url : string) : option GitHubRepo.t :=
  let matched :=
    match matchGitHubCom url with
    | Some groups => Some groups
    | None => matchShorthand url
    end in
  match matched with
  | Some (owner, name) => Some (GitHubRepo.mk owner (dropDotGit name) None)
  | None => None
  end.

(** A character of the class [[a-zA-Z0-9._-]]. *)
Definition validChar (c : ascii) : bool :=
  let n := nat_of_ascii c in
  (97 <=? n) && (n <=? 122) || (65 <=? n) && (n <=? 90) || (48 <=? n) && (n <=? 57)
  || (n =? 46) || (n =? 95) || (n =? 45).

(** [/^[a-zA-Z0-9._-]+$/.test(s)] *)
Definition validPattern (s : string) : bool :=
  negb (bool_decide (s = "")) && forallb validChar (list_ascii_of_string s).

(** The result of [validateRepoUrl]. *)
Module Validation.
Record t : Type := mk {
    valid : bool;
    error : option string
  }.
End Validation.

Definition validateRepoUrl (url : string) : Validation.t :=
  match parseGitHubUrl url with
  | None => Validation.mk false (Some "Invalid GitHub repository URL")
  | Some repo =>
      if bool_decide (GitHubRepo.owner repo = "") || bool_decide (GitHubRepo.name repo = "")
      then Validation.mk false (Some "Invalid repository format")
      else if negb (validPattern (GitHubRepo.owner repo))
              || negb (validPattern (GitHubRepo.name repo))
      then Validation.mk false (Some "Invalid characters in repository name")
      else Validation.mk true None
  end.

(** A string that is not empty and has no slash: what a group [[^\/]+]
    holds. *)
Definition segment (s : string) : Prop := s <> "" /\ noSlash s.

(** A string without the letter g. *)
Definition noG (s : string) : Prop :=
  forall c, c ∈ list_ascii_of_string s -> c <> "g"%char.

(** The number of slashes of a string. *)
Fixpoint slashes (s : string) : nat :=
  match s with
  | EmptyString => 0
  | String c s' => if bool_decide (c = "/"%char) then S (slashes s') else slashes s'
  end.

(** [rest] is empty or begins with a slash. *)
Definition endsSegment (rest : string) : Prop :=
  rest = "" \/ exists r, rest = String "/" r.

(** *** [src/lib/blob-client.ts]: [getUrl] in development mode *)

Definition blob_getUrl (key : string) : string :=
  "http://localhost:3000/mock-blob/" +:+ key.

(** *** [src/lib/cache.ts]: [getCacheMetadata] and [invalidateCache] *)

Section Cache.
Context `{JSON CacheMetadata.t}.

Definition getCacheMetadata (repo : GitHubRepo.t) (w : World.t)
    : World.t * option CacheMetadata.t :=
  match kv_get (CACHE_PREFIX +:+ getRepoKey repo) w with
  | (w, None) => (w, None)
  | (w, Some data) =>
      if bool_decide (data = "") then (w, None)      (* if (!data) *)
      else (w, JSON_parse data)
  end.

Definition invalidateCache (repo : GitHubRepo.t) (w : World.t) : World.t :=
  kv_del (CACHE_PREFIX +:+ getRepoKey repo) w.
End Cache.

(** *** [src/app/api/analyze/route.ts]

    The body of the request, once [request.json()] has read it: [owner] and
    [name] are the strings its two fields hold, [None] for a field that is
    not there.  The response is one of the four the handler builds. *)
Module Body.
Record t : Type := mk {
    owner : option string;
    name : option string
  }.
End Body.

Inductive Response : Type :=
  | BadRequest (error : option string)
      (* [{ error }], status 400 *)
  | CachedAnalysis (analysis : ArchitectureAnalysis.t)
      (* [{ cached: true, analysis, message: 'Returning cached analysis' }] *)
  | AnalysisStarted (analysisId : string)
      (* [{ analysisId, message: 'Analysis started' }] *)
  | InternalServerError.
      (* [{ error: 'Internal server error' }], status 500 *)

Section Routes.
Context `{JSON AnalysisJob.t} `{JSON ArchitectureAnalysis.t} `{JSON CacheMetadata.t}.

(** [POST]: [body] is [None] when [request.json()] rejects or gives [null],
    and [id] is the identifier that [createAnalysisJob] draws.  The third
    component is the call of [triggerAnalysis] that the handler starts and
    does not wait for. *)
Definition POST (body : option Body.t) (id : string) (w : World.t)
    : World.t * Response * option (string * GitHubRepo.t) :=
  match body with
  | None => (w, InternalServerError, None)
  | Some body =>
      match Body.owner body, Body.name body with
      | Some owner, Some name =>
          if bool_decide (owner = "") || bool_decide (name = "")
          then (w, BadRequest (Some "Missing owner or name"), None)
          else
            let repoUrl := owner +:+ "/" +:+ name in
            let validation := validateRepoUrl repoUrl in
            if negb (Validation.valid validation)
            then (w, BadRequest (Validation.error validation), None)
            else
              match parseGitHubUrl repoUrl with
              | None => (w, BadRequest (Some "Invalid repository format"), None)
              | Some repo =>
                  let cached :=
                    if hasAnalysis repo w then getAnalysis repo w else None in
                  match cached with
                  | Some analysis => (w, CachedAnalysis analysis, None)
                  | None =>
                      (createAnalysisJob id repo w, AnalysisStarted id, Some (id, repo))
                  end
              end
      | _, _ => (w, BadRequest (Some "Missing owner or name"), None)
      end
  end.

(** [triggerAnalysis] imports the analyzer and awaits its run. *)
Definition triggerAnalysis (env : ProcessEnv.t) (ext : Services.t)
    (analysisId : string) (repo : GitHubRepo.t) (w : World.t) : World.t :=
  runAnalysis env ext analysisId repo w.
End Routes.

(** *** Predicates of the statements on the server *)

(** The job that [createAnalysisJob] writes. *)
Definition newJob (id : string) (repo : GitHubRepo.t) (createdAt : Z) : AnalysisJob.t :=
  AnalysisJob.mk id repo (AnalysisStatus.mk downloading 0 "Starting analysis..." None)
    createdAt None.

(** A job with another status and, possibly, another result. *)
Definition withStatus (status : AnalysisStatus.t) (result : option ArchitectureAnalysis.t)
    (job : AnalysisJob.t) : AnalysisJob.t :=
  AnalysisJob.mk (AnalysisJob.id job) (AnalysisJob.repo job) status
    (AnalysisJob.createdAt job) result.

Definition completeStatus : AnalysisStatus.t :=
  AnalysisStatus.mk complete 100 "Analysis complete!" None.

Definition errorStatus (error_ : string) : AnalysisStatus.t :=
  AnalysisStatus.mk error 0 "Analysis failed" (Some error_).

(** Every value of the three stored types survives the round trip through
    its text. *)
Definition Faithful `{JSON AnalysisJob.t} `{JSON ArchitectureAnalysis.t}
    `{JSON CacheMetadata.t} : Prop :=
  (forall job : AnalysisJob.t, JSONSerializable job)
  /\ (forall analysis : ArchitectureAnalysis.t, JSONSerializable analysis)
  /\ (forall data : CacheMetadata.t, JSONSerializable data).

(** The download of a run, as [runAnalysis] decides it. *)
Definition downloadOf (env : ProcessEnv.t) (ext : Services.t) (repo : GitHubRepo.t)
    : Settled (list N) :=
  if unset (ProcessEnv.GITHUB_TOKEN env) && unset (ProcessEnv.ANTHROPIC_API_KEY env)
  then Fulfilled 0 []
  else Services.downloadRepoTarball ext repo.

(** The analysis that a run stores. *)
Definition fullAnalysis (analysis : Analysis.t) (timestamp : Z) (repo : GitHubRepo.t)
    : ArchitectureAnalysis.t :=
  ArchitectureAnalysis.mk (Analysis.diagram analysis) (Analysis.flows analysis)
    timestamp repo.

(** One hour and seven days, in milliseconds. *)
Definition HOUR : Z := 3600000.
Definition WEEK : Z := 604800000.

(** [w'] differs from [w] at most in the entry of job [id]: the clock and
    the blobs are the same, every other key of the store reads the same,
    and so does every other job. *)
Definition onlyJob `{JSON AnalysisJob.t} (id : string) (w w' : World.t) : Prop :=
  World.now w' = World.now w
  /\ World.memoryBlobs w' = World.memoryBlobs w
  /\ (forall key, key <> jobKey id -> snd (kv_get key w') = snd (kv_get key w))
  /\ (forall id', id' <> id -> readJob id' w' = readJob id' w).

(** How the two service calls of a run end: with an analysis, or with what
    one of them throws; [t1] and [t2] are the times they take. *)
Inductive Outcome : Type :=
  | Analysed (t1 t2 : Z) (analysis : Analysis.t)
  | Failed (t1 t2 : Z) (e : Thrown).

Definition outcome (env : ProcessEnv.t) (ext : Services.t) (repo : GitHubRepo.t) : Outcome :=
  match downloadOf env ext repo with
  | Rejected t1 e => Failed t1 0 e
  | Fulfilled t1 buffer =>
      match analyzeWithClaude env ext repo buffer with
      | Rejected t2 e => Failed t1 t2 e
      | Fulfilled t2 analysis => Analysed t1 t2 analysis
      end
  end.

(** The metadata that a run records for a repository. *)
Definition metadataOf `{JSON ArchitectureAnalysis.t} (repo : GitHubRepo.t) (timestamp : Z)
    : CacheMetadata.t :=
  CacheMetadata.mk (getRepoKey repo) timestamp (blob_getUrl (analysisKey repo)).

(** The development set-up: no token and no API key. *)
Definition mockEnv : ProcessEnv.t := ProcessEnv.mk None None.

(** The example server with the job of the examples on it. *)
Definition exampleCreated : World.t :=
  @createAnalysisJob refJob "job-1" exampleRepo exampleWorld.

(** *** [src/components/RepoInput.tsx]: [handleSubmit]

    The state of the form and the route that [router.push] is called with,
    if it is called.  The handler first clears the error and sets the
    loading flag; the state it returns is the one it leaves. *)
Module RepoInput.
Record t : Type := mk {
    url : string;
    error : string;
    isLoading : bool
  }.
End RepoInput.

Definition handleSubmit (s : RepoInput.t) : RepoInput.t * option string :=
  let url := RepoInput.url s in
  let validation := validateRepoUrl url in
  if negb (Validation.valid validation)
  then (RepoInput.mk url (attrOrElse (Validation.error validation) "Invalid URL") false, None)
  else
    match parseGitHubUrl url with
    | None => (RepoInput.mk url "Could not parse repository URL" false, None)
    | Some repo =>
        (RepoInput.mk url "" true,
         Some ("/repo/" +:+ GitHubRepo.owner repo +:+ "/" +:+ GitHubRepo.name repo))
    end.

(** *** [src/lib/analyzer.ts]: [findSourceFiles] and [readKeyFiles]

    Names, paths and contents of files are lists of UTF-16 code units: the
    patterns of these functions have no [u] flag and [content.length]
    counts code units.  Paths are POSIX paths. *)

#[local] Unset Elimination Schemes.

(** What [readdirSync(dir, { withFileTypes: true })] gives, with the
    entries of each directory in it. *)
Inductive Dirent : Type :=
  | IsFile (name : jsstring)
  | IsDirectory (name : jsstring) (entries : list Dirent)
  | IsOther (name : jsstring).
      (* neither [isFile()] nor [isDirectory()]: a link, a socket, ... *)

#[local] Set Elimination Schemes.

(** [entry.name === 'node_modules' || entry.name === '.git' ||
    entry.name.startsWith('.')] *)
Definition skipped (name : jsstring) : bool :=
  bool_decide (name = str "node_modules") || bool_decide (name = str ".git")
  || match name with
     | c :: _ => (c =? 46)%N
     | [] => false
     end.

(** [path.relative(baseDir, path.join(currentDir, name))], where
    [relativeDir] is the path of [currentDir] relative to [baseDir]: empty
    for [baseDir] itself. *)
Definition relativePath (relativeDir name : jsstring) : jsstring :=
  match relativeDir with
  | [] => name
  | _ => relativeDir ++ str "/" ++ name
  end.

(** The body of the loop of [walk] for one entry. *)
Fixpoint walkEntry (relativeDir : jsstring) (entry : Dirent) : list jsstring :=
  match entry with
  | IsFile name =>
      if skipped name then [] else [relativePath relativeDir name]
  | IsDirectory name entries =>
      if skipped name then []
      else flat_map (walkEntry (relativePath relativeDir name)) entries
  | IsOther name => []
  end.

Definition walk (relativeDir : jsstring) (entries : list Dirent) : list jsstring :=
  flat_map (walkEntry relativeDir) entries.

(** [findSourceFiles(dir)], on the entries of [dir]. *)
Definition findSourceFiles (entries : list Dirent) : list jsstring :=
  walk [] entries.

(** [s.endsWith(suffix)] *)
Definition endsWith (suffix s : jsstring) : bool :=
  bool_decide (drop (length s - length suffix) s = suffix).

(** [s.startsWith(prefix)] *)
Definition startsWith (prefix s : jsstring) : bool :=
  bool_decide (take (length prefix) s = prefix).

(** A line terminator, which [.] does not match. *)
Definition isLineTerminator (c : N) : bool :=
  ((c =? 10) || (c =? 13) || (c =? 8232) || (c =? 8233))%N.

(** A code unit with its ASCII letters in upper case: the canonical form
    under which the [i] flag compares with an ASCII pattern. *)
Definition upperAscii (c : N) : N :=
  (if (97 <=? c) && (c <=? 122) then c - 32 else c)%N.

(** [/\.(ts|js|tsx|jsx)$/] *)
Definition scriptSuffix (f : jsstring) : option jsstring :=
  if endsWith (str ".tsx") f then Some (str ".tsx")
  else if endsWith (str ".jsx") f then Some (str ".jsx")
  else if endsWith (str ".ts") f then Some (str ".ts")
  else if endsWith (str ".js") f then Some (str ".js")
  else None.

(** [/^dir\/.*\.(ts|js|tsx|jsx)$/] for a directory [dir]: [f] begins with
    [dir/] and ends with one of the suffixes, and what lies between has no
    line terminator. *)
Definition underDir (dir : string) (f : jsstring) : bool :=
  let prefix := str dir ++ str "/" in
  match scriptSuffix f with
  | None => false
  | Some suffix =>
      startsWith prefix f
      && (length prefix + length suffix <=? length f)
      && forallb (fun c => negb (isLineTerminator c))
           (take (length f - length prefix - length suffix) (drop (length prefix) f))
  end.

(** [keyPatterns.some(pattern => pattern.test(f))] *)
Definition isKeyFile (f : jsstring) : bool :=
  endsWith (str "package.json") f                               (* /package\.json$/ *)
  || endsWith (str "README.MD") (map upperAscii f)              (* /README\.md$/i *)
  || underDir "src" f                                           (* /^src\/.*\.(ts|js|tsx|jsx)$/ *)
  || underDir "lib" f                                           (* /^lib\/.*\.(ts|js|tsx|jsx)$/ *)
  || underDir "app" f                                           (* /^app\/.*\.(ts|js|tsx|jsx)$/ *)
  || endsWith (str "server.ts") f || endsWith (str "server.js") f   (* /server\.(ts|js)$/ *)
  || match scriptSuffix f with                                  (* /index\.(ts|js|tsx|jsx)$/ *)
     | Some suffix =>
         endsWith (str "index" ++ suffix) f
         || endsWith (str "main" ++ suffix) f                   (* /main\.(ts|js|tsx|jsx)$/ *)
     | None => false
     end.

(** [content.length > 2000 ? content.slice(0, 2000) + '\n... (truncated)'
    : content] *)
Definition truncated (content : jsstring) : jsstring :=
  if 2000 <? length content
  then take 2000 content ++ [10%N] ++ str "... (truncated)"
  else content.

(** The array [samples] of [readKeyFiles]: [readFileSync] gives the
    content of a file, or [None] where it throws. *)
Definition samples (readFileSync : jsstring -> option jsstring) (allFiles : list jsstring)
    : list jsstring :=
  let keyFiles := take 10 (List.filter isKeyFile allFiles) in
  flat_map
    (fun file =>
       match readFileSync file with
       | Some content =>
           [[10%N] ++ str "=== " ++ file ++ str " ===" ++ [10%N] ++ truncated content]
       | None => []
       end)
    keyFiles.

(** [a.join('\n')] *)
Fixpoint joinLines (a : list jsstring) : jsstring :=
  match a with
  | [] => []
  | [s] => s
  | s :: rest => s ++ [10%N] ++ joinLines rest
  end.

Definition readKeyFiles (readFileSync : jsstring -> option jsstring)
    (allFiles : list jsstring) : jsstring :=
  joinLines (samples readFileSync allFiles).

(** *** Predicates of the statements on the files *)

(** A regular file that is reached from [entries] along the names [names]:
    through the directories named by all but the last of them, to the file
    named by the last. *)
Inductive fileAt : list jsstring -> list Dirent -> Prop :=
  | fileAt_here (name : jsstring) (entries : list Dirent) :
      IsFile name ∈ entries -> fileAt [name] entries
  | fileAt_below (name : jsstring) (sub entries : list Dirent) (names : list jsstring) :
      IsDirectory name sub ∈ entries -> fileAt names sub -> fileAt (name :: names) entries.

(** The path with the components [names]. *)
Fixpoint pathOf (names : list jsstring) : jsstring :=
  match names with
  | [] => []
  | [name] => name
  | name :: rest => name ++ str "/" ++ pathOf rest
  end.

(** No entry of the tree has the empty name. *)
Fixpoint named (entry : Dirent) : bool :=
  match entry with
  | IsFile name | IsOther name => negb (bool_decide (name = []))
  | IsDirectory name entries => negb (bool_decide (name = [])) && forallb named entries
  end.

(** The example tree: a hidden directory, [node_modules], a source
    directory and two files. *)
Definition exampleTree : list Dirent :=
  [ IsDirectory (str ".github") [IsFile (str "ci.yml")];
    IsDirectory (str "node_modules") [IsFile (str "index.js")];
    IsDirectory (str "src") [IsFile (str "index.ts"); IsFile (str ".env")];
    IsFile (str "package.json");
    IsOther (str "link") ].

(** The sum of the delays of the first [m] steps of a flow. *)
Definition delaysBefore (flow : Flow.t) (m : nat) : Z :=
  foldr Z.add 0%Z (delayOf <$> take m (Flow.steps flow)).

(** * Theorems *)

(** ** Label matching *)

Lemma jsstring_eqb_true (a b : jsstring) : jsstring_eqb a b = true <-> a = b.
Proof. unfold jsstring_eqb. apply bool_decide_eq_true. Qed.

Lemma every_word_prefix (words labelWords : list jsstring) (idx : nat) :
  every_word idx words labelWords = true <-> words `prefix_of` drop idx labelWords.
Proof.
  revert idx. induction words as [|word rest IH]; intros idx; simpl.
  - split; [intros _; apply prefix_nil | reflexivity].
  - destruct (labelWords !! idx) as [lw|] eqn:E.
    + rewrite (drop_S _ _ _ E), andb_true_iff, jsstring_eqb_true, IH. split.
      * intros [-> Hp]. by apply prefix_cons.
      * intros [k Hk]. injection Hk as -> ->. split; [done | by exists k].
    + split; [discriminate |]. intros [k Hk].
      apply lookup_ge_None_1 in E. rewrite drop_ge in Hk by lia. discriminate.
Qed.

Lemma prefixb_prefix (l1 l2 : list jsstring) :
  prefixb l1 l2 = true <-> l1 `prefix_of` l2.
Proof.
  revert l2. induction l1 as [|a l1 IH]; intros [|b l2]; simpl.
  - split; [intros _; apply prefix_nil | done].
  - split; [intros _; apply prefix_nil | done].
  - split; [discriminate | intros [k Hk]; discriminate].
  - rewrite andb_true_iff, jsstring_eqb_true, IH. split.
    + intros [-> Hp]. by apply prefix_cons.
    + intros [k Hk]. injection Hk as -> ->. split; [done | by exists k].
Qed.


Lemma split_ws_nonempty (s : jsstring) : split_ws s <> [].
Proof.
  induction s as [|c s IH]; simpl; [done|].
  destruct (isWhiteSpace c).
  - destruct s as [|c' s']; [done|]. destruct (isWhiteSpace c'); [exact IH | done].
  - destruct (split_ws s); done.
Qed.

Lemma noTrailingWs_tail (c : N) (s : jsstring) :
  noTrailingWs (c :: s) -> noTrailingWs s.
Proof.
  unfold noTrailingWs. destruct s as [|c' s']; [done|].
  by rewrite last_cons_cons.
Qed.

(** On such a string the pieces of [split] are its tokens; [cur] is the
    beginning of the token being read. *)
Lemma tokens_from_split_ws (s cur : jsstring) :
  noTrailingWs s ->
  (cur <> [] \/ (s <> [] /\ noLeadingWs s)) ->
  tokens_from cur s =
    match split_ws s with
    | [] => []
    | w :: ws => (rev cur ++ w) :: ws
    end.
Proof.
  revert cur. induction s as [|c s IH]; intros cur Hend Hcur.
  - destruct Hcur as [Hcur | [? _]]; [|done].
    simpl. destruct cur; [done|]. by rewrite app_nil_r.
  - pose proof (noTrailingWs_tail _ _ Hend) as Hend'.
    simpl. destruct (isWhiteSpace c) eqn:Hc.
    + destruct Hcur as [Hcur | [_ Hlead]]; [| simpl in Hlead; congruence].
      destruct s as [|c' s'].
      { unfold noTrailingWs in Hend. simpl in Hend. congruence. }
      destruct cur as [|x cur']; [done|].
      destruct (isWhiteSpace c') eqn:Hc'.
      * rewrite <- (IH (x :: cur') Hend' (or_introl Hcur)).
        simpl. by rewrite Hc'.
      * rewrite app_nil_r. f_equal.
        rewrite (IH [] Hend'); [| right; split; [done | exact Hc']].
        destruct (split_ws (c' :: s')) eqn:E; [by apply split_ws_nonempty in E | done].
    + rewrite (IH (c :: cur) Hend'); [| by left].
      destruct (split_ws s) eqn:E; [by apply split_ws_nonempty in E |].
      simpl. by rewrite <- app_assoc.
Qed.

Lemma trimStart_noLeadingWs (s : jsstring) : noLeadingWs (trimStart s).
Proof.
  induction s as [|c s IH]; simpl; [done|].
  destruct (isWhiteSpace c) eqn:Hc; [exact IH | exact Hc].
Qed.

Lemma trimStart_keeps_last (s : jsstring) (c : N) :
  isWhiteSpace c = false -> trimStart (s ++ [c]) = trimStart s ++ [c].
Proof.
  intros Hc. induction s as [|x s IH]; simpl.
  - by rewrite Hc.
  - destruct (isWhiteSpace x); [exact IH | done].
Qed.

Lemma trimEnd_noTrailingWs (s : jsstring) : noTrailingWs (trimEnd s).
Proof.
  unfold trimEnd, noTrailingWs.
  pose proof (trimStart_noLeadingWs (rev s)) as Hl.
  destruct (trimStart (rev s)) as [|c t]; [done|].
  simpl. rewrite last_snoc. exact Hl.
Qed.

Lemma trimEnd_noLeadingWs (s : jsstring) : noLeadingWs s -> noLeadingWs (trimEnd s).
Proof.
  unfold trimEnd. destruct s as [|c s]; [done|]. simpl. intros Hc.
  rewrite (trimStart_keeps_last _ _ Hc), rev_app_distr. simpl. exact Hc.
Qed.

Lemma trim_noLeadingWs (s : jsstring) : noLeadingWs (trim s).
Proof. apply trimEnd_noLeadingWs, trimStart_noLeadingWs. Qed.

Lemma trim_noTrailingWs (s : jsstring) : noTrailingWs (trim s).
Proof. apply trimEnd_noTrailingWs. Qed.

Lemma split_ws_trim (s : jsstring) :
  split_ws (trim s) = if bool_decide (trim s = []) then [[]] else tokens (trim s).
Proof.
  case_bool_decide as E.
  - by rewrite E.
  - unfold tokens. rewrite tokens_from_split_ws.
    + destruct (split_ws (trim s)) eqn:Es; [by apply split_ws_nonempty in Es | done].
    + apply trim_noTrailingWs.
    + right. split; [done | apply trim_noLeadingWs].
Qed.

Lemma tokens_from_no_empty (s cur : jsstring) : [] ∉ tokens_from cur s.
Proof.
  revert cur. induction s as [|c s IH]; intros cur; simpl.
  - destruct cur as [|x cur]; [apply not_elem_of_nil|].
    intros Hin. apply list_elem_of_singleton in Hin.
    symmetry in Hin. by apply app_eq_nil in Hin as [_ ?].
  - destruct (isWhiteSpace c); [|apply IH].
    destruct cur as [|x cur]; [apply IH|].
    intros Hin. apply elem_of_cons in Hin as [Hin|Hin]; [|by apply IH in Hin].
    symmetry in Hin. by apply app_eq_nil in Hin as [_ ?].
Qed.

Lemma tokens_from_started (s cur : jsstring) : cur <> [] -> tokens_from cur s <> [].
Proof.
  revert cur. induction s as [|x s IH]; intros cur Hcur; cbn [tokens_from].
  - by destruct cur.
  - destruct (isWhiteSpace x); [by destruct cur | by apply IH].
Qed.

Lemma tokens_nil (s : jsstring) :
  noLeadingWs s -> tokens s = [] -> s = [].
Proof.
  unfold tokens. destruct s as [|c s]; [done|]. intros Hc.
  cbn [tokens_from]. cbn [noLeadingWs] in Hc. rewrite Hc.
  intros E. by apply tokens_from_started in E.
Qed.

(** ** The highlight procedures *)

Lemma highlightNodes_spec (nodeName : jsstring) (duration : Z) (p : nat)
    (ns : list Node.t) :
  forall (i : nat) (found : bool) (v : Viewer.t) (pre : list Node.t) (arrows : list Arrow.t),
    Viewer.diagramRef v = Some (Dom.mk (pre ++ ns) arrows) ->
    length pre = i ->
    let new := removalTimers nodeName (Viewer.clock v + Z.max 0 duration) p i
                 (Viewer.nextTimerId v) ns in
    highlightNodes nodeName duration p i ns found v =
      (Viewer.mk (Viewer.selectedFlow v) (Viewer.isAnimating v) (Viewer.isPaused v)
         (Viewer.currentStep v)
         (Some (Dom.mk (pre ++ map (highlighted nodeName) ns) arrows))
         (Viewer.animationTimeoutRef v) (Viewer.clock v)
         (Viewer.timers v ++ new) (Viewer.nextTimerId v + length new)
         (Viewer.nextPromise v) (Viewer.effect v),
       found || existsb (nodeMatches nodeName) ns).
Proof.
  induction ns as [|n ns IH]; intros i found v pre arrows Hd Hi; cbn zeta.
  - destruct v; simpl in *. subst. rewrite !app_nil_r, Nat.add_0_r, orb_false_r. done.
  - cbn [highlightNodes removalTimers map existsb].
    unfold highlighted at 1.
    destruct (nodeMatches nodeName n) eqn:Hm.
    + rewrite (IH (S i) true _ (pre ++ [emphasiseNode n]) arrows).
      * destruct v; simpl in *. rewrite <- !app_assoc. simpl.
        rewrite orb_true_r. do 2 f_equal. lia.
      * destruct v; simpl in *. subst. simpl. unfold setShape. simpl.
        rewrite <- (Nat.add_0_r (length pre)), alter_app_r. simpl.
        by rewrite <- app_assoc.
      * rewrite length_app. simpl. lia.
    + rewrite (IH (S i) found v (pre ++ [n]) arrows).
      * rewrite <- !app_assoc. done.
      * rewrite Hd, <- app_assoc. done.
      * rewrite length_app. simpl. lia.
Qed.

Lemma arrowEffect_arrows (stepNumber due due' : Z) (id id' : nat) (arrows : list Arrow.t) :
  fst (arrowEffect stepNumber due id arrows) = fst (arrowEffect stepNumber due' id' arrows).
Proof.
  unfold arrowEffect. destruct (targetPath stepNumber arrows) as [pos|]; [|done].
  by destruct (arrows !! pos).
Qed.

Lemma highlightArrow_spec (stepNumber duration : Z) (v : Viewer.t) (d : Dom.t) :
  Viewer.diagramRef v = Some d ->
  let eff := arrowEffect stepNumber (Viewer.clock v + Z.max 0 duration)
               (Viewer.nextTimerId v) (Dom.arrows d) in
  highlightArrow stepNumber duration v =
    Viewer.mk (Viewer.selectedFlow v) (Viewer.isAnimating v) (Viewer.isPaused v)
      (Viewer.currentStep v) (Some (Dom.mk (Dom.nodes d) (fst eff)))
      (Viewer.animationTimeoutRef v) (Viewer.clock v)
      (Viewer.timers v ++ snd eff) (Viewer.nextTimerId v + length (snd eff))
      (Viewer.nextPromise v) (Viewer.effect v).
Proof.
  intros Hd. cbn zeta. unfold highlightArrow, arrowEffect. rewrite Hd.
  destruct (targetPath stepNumber (Dom.arrows d)) as [pos|].
  - destruct (Dom.arrows d !! pos) as [arrow|].
    + destruct v; simpl in *. f_equal. lia.
    + destruct v, d; simpl in *. subst. rewrite app_nil_r, Nat.add_0_r. done.
  - destruct v, d; simpl in *. subst. rewrite app_nil_r, Nat.add_0_r. done.
Qed.

Lemma highlightNode_spec (nodeName : jsstring) (duration stepNumber : Z)
    (v : Viewer.t) (d : Dom.t) :
  Viewer.diagramRef v = Some d ->
  let new := highlightTimers nodeName duration stepNumber (Viewer.clock v)
               (Viewer.nextTimerId v) (Viewer.nextPromise v) d in
  highlightNode nodeName duration (Some stepNumber) v =
    (Viewer.mk (Viewer.selectedFlow v) (Viewer.isAnimating v) (Viewer.isPaused v)
       (Viewer.currentStep v) (Some (highlightDom nodeName stepNumber d))
       (Viewer.animationTimeoutRef v) (Viewer.clock v)
       (Viewer.timers v ++ new) (Viewer.nextTimerId v + length new)
       (S (Viewer.nextPromise v)) (Viewer.effect v),
     Viewer.nextPromise v, false).
Proof.
  intros Hd. cbn zeta. destruct v as [sf an pa cs dr ar ck ts ni np ef].
  cbn in Hd. subst dr. unfold highlightNode, newPromise.
  cbn [Viewer.diagramRef Viewer.clock Viewer.nextTimerId Viewer.timers
       Viewer.selectedFlow Viewer.isAnimating Viewer.isPaused Viewer.currentStep
       Viewer.animationTimeoutRef Viewer.nextPromise Viewer.effect].
  rewrite (highlightArrow_spec stepNumber duration _ d) by reflexivity.
  cbn [Viewer.diagramRef Viewer.clock Viewer.nextTimerId Viewer.timers
       Viewer.selectedFlow Viewer.isAnimating Viewer.isPaused Viewer.currentStep
       Viewer.animationTimeoutRef Viewer.nextPromise Viewer.effect Dom.nodes].
  match goal with
  | |- context [highlightNodes ?q ?du ?p 0 ?ns false ?w] =>
      rewrite (highlightNodes_spec q du p ns 0 false w []
                 (fst (arrowEffect stepNumber (ck + Z.max 0 duration) ni (Dom.arrows d))))
        by reflexivity
  end.
  cbn [Viewer.diagramRef Viewer.clock Viewer.nextTimerId Viewer.timers
       Viewer.selectedFlow Viewer.isAnimating Viewer.isPaused Viewer.currentStep
       Viewer.animationTimeoutRef Viewer.nextPromise Viewer.effect Dom.nodes orb app].
  unfold highlightTimers, highlightDom.
  rewrite (arrowEffect_arrows stepNumber 0 (ck + Z.max 0 duration) 0 ni).
  destruct (existsb (nodeMatches nodeName) (Dom.nodes d)).
  - rewrite app_nil_r, <- app_assoc, length_app. do 2 f_equal. f_equal. lia.
  - unfold setTimeout. simpl. rewrite <- !app_assoc, !length_app. simpl.
    do 2 f_equal. f_equal. lia.
Qed.

(** ** Normalisation of labels *)

Lemma lower_cp_ws (c : N) : isWhiteSpace (lower_cp c) = isWhiteSpace c.
Proof.
  unfold lower_cp.
  destruct ((65 <=? c) && (c <=? 90))%N eqn:E1.
  - apply andb_true_iff in E1 as [?%N.leb_le ?%N.leb_le].
    unfold isWhiteSpace.
    repeat match goal with
    | |- context [(?a <=? ?b)%N] => destruct (N.leb_spec a b); try lia
    | |- context [(?a =? ?b)%N] => destruct (N.eqb_spec a b); try lia
    end; reflexivity.
  - destruct ((192 <=? c) && (c <=? 222) && negb (c =? 215))%N eqn:E2; [|done].
    apply andb_true_iff in E2 as [E2 _].
    apply andb_true_iff in E2 as [?%N.leb_le ?%N.leb_le].
    unfold isWhiteSpace.
    repeat match goal with
    | |- context [(?a <=? ?b)%N] => destruct (N.leb_spec a b); try lia
    | |- context [(?a =? ?b)%N] => destruct (N.eqb_spec a b); try lia
    end; reflexivity.
Qed.

Lemma trimStart_toLowerCase (s : jsstring) :
  trimStart (toLowerCase s) = toLowerCase (trimStart s).
Proof.
  induction s as [|c s IH]; simpl; [done|].
  rewrite lower_cp_ws. by destruct (isWhiteSpace c).
Qed.

Lemma trim_toLowerCase (s : jsstring) : trim (toLowerCase s) = toLowerCase (trim s).
Proof.
  unfold trim, trimEnd.
  rewrite (trimStart_toLowerCase s).
  replace (rev (toLowerCase (trimStart s))) with (toLowerCase (rev (trimStart s)))
    by (unfold toLowerCase; apply map_rev).
  rewrite (trimStart_toLowerCase (rev (trimStart s))).
  unfold toLowerCase. by rewrite map_rev.
Qed.

Lemma tokens_from_trimStart (s : jsstring) :
  tokens_from [] (trimStart s) = tokens_from [] s.
Proof.
  induction s as [|c s IH]; simpl; [done|].
  destruct (isWhiteSpace c) eqn:Hc; [exact IH|]. simpl. by rewrite Hc.
Qed.

Lemma tokens_from_snoc_ws (s cur : jsstring) (c : N) :
  isWhiteSpace c = true -> tokens_from cur (s ++ [c]) = tokens_from cur s.
Proof.
  intros Hc. revert cur. induction s as [|x s IH]; intros cur; simpl.
  - rewrite Hc. by destruct cur.
  - rewrite !IH. done.
Qed.

Lemma trimStart_split (s : jsstring) :
  exists pre, s = pre ++ trimStart s /\ Forall (fun c => isWhiteSpace c = true) pre.
Proof.
  induction s as [|c s (pre & E & Hpre)]; simpl.
  - by exists [].
  - destruct (isWhiteSpace c) eqn:Hc.
    + exists (c :: pre). split; [simpl; congruence | by constructor].
    + by exists [].
Qed.

Lemma tokens_from_app_ws (s suf cur : jsstring) :
  Forall (fun c => isWhiteSpace c = true) suf ->
  tokens_from cur (s ++ suf) = tokens_from cur s.
Proof.
  induction suf as [|c suf IH] using rev_ind; intros Hs.
  - by rewrite app_nil_r.
  - apply Forall_app in Hs as [Hsuf Hc]. apply Forall_inv in Hc.
    rewrite app_assoc, (tokens_from_snoc_ws _ _ _ Hc). by apply IH.
Qed.

Lemma tokens_trimEnd (s : jsstring) : tokens (trimEnd s) = tokens s.
Proof.
  unfold tokens, trimEnd.
  destruct (trimStart_split (rev s)) as (pre & E & Hpre).
  apply (f_equal (@rev N)) in E. rewrite rev_involutive, rev_app_distr in E.
  rewrite E at 2. symmetry. apply tokens_from_app_ws.
  by apply Forall_rev.
Qed.

Lemma tokens_trim (s : jsstring) : tokens (trim s) = tokens s.
Proof.
  unfold trim. rewrite tokens_trimEnd. apply tokens_from_trimStart.
Qed.

Lemma lower_cp_emoji (c : N) :
  (spec_isEmojiGlyph c = true -> inEmojiRange c = true) ->
  spec_isEmojiGlyph (lower_cp c) = inEmojiRange (lower_cp c).
Proof.
  unfold lower_cp.
  destruct ((65 <=? c) && (c <=? 90))%N eqn:E1.
  - intros _. apply andb_true_iff in E1 as [?%N.leb_le ?%N.leb_le].
    unfold spec_isEmojiGlyph, inEmojiRange.
    repeat match goal with
    | |- context [(?a <=? ?b)%N] => destruct (N.leb_spec a b); try lia
    | |- context [(?a =? ?b)%N] => destruct (N.eqb_spec a b); try lia
    end; reflexivity.
  - destruct ((192 <=? c) && (c <=? 222) && negb (c =? 215))%N eqn:E2.
    + intros _. apply andb_true_iff in E2 as [E2 _].
      apply andb_true_iff in E2 as [?%N.leb_le ?%N.leb_le].
      unfold spec_isEmojiGlyph, inEmojiRange.
      repeat match goal with
      | |- context [(?a <=? ?b)%N] => destruct (N.leb_spec a b); try lia
      | |- context [(?a =? ?b)%N] => destruct (N.eqb_spec a b); try lia
      end; reflexivity.
    + intros Hc. destruct (spec_isEmojiGlyph c) eqn:Es.
      * symmetry. by apply Hc.
      * unfold spec_isEmojiGlyph in Es.
        apply orb_false_iff in Es as [Es _]. apply orb_false_iff in Es as [Es _].
        by rewrite Es.
Qed.

Lemma in_trimStart (s : jsstring) (c : N) : c ∈ trimStart s -> c ∈ s.
Proof.
  destruct (trimStart_split s) as (pre & E & _). intros Hin.
  rewrite E. apply elem_of_app. by right.
Qed.

Lemma in_trim (s : jsstring) (c : N) : c ∈ trim s -> c ∈ s.
Proof.
  unfold trim, trimEnd. intros Hin.
  apply list_elem_of_In, in_rev, list_elem_of_In, in_trimStart in Hin.
  apply list_elem_of_In, in_rev, list_elem_of_In in Hin. by apply in_trimStart.
Qed.

(** On a label whose emoji lie within the range, the cleaning of the
    viewer leaves the tokens of the normalised label. *)
Lemma tokens_cleanLabel (s : jsstring) :
  emojiWithinRange s -> tokens (cleanLabel s) = tokens (spec_normalize s).
Proof.
  intros Hs. unfold cleanLabel, spec_normalize, removeEmojiRange.
  rewrite tokens_trim, trim_toLowerCase. f_equal.
  unfold toLowerCase.
  assert (Hin : forall c, c ∈ trim s ->
            spec_isEmojiGlyph c = true -> inEmojiRange c = true).
  { intros c Hc. apply Hs. by apply in_trim. }
  induction (trim s) as [|c t IH]; simpl; [done|].
  rewrite (lower_cp_emoji c) by (apply Hin; left).
  rewrite IH; [done|]. intros x Hx. apply Hin. by right.
Qed.

(** The test of the viewer, for all labels: the pieces of the query are a
    prefix of the pieces of the cleaned label. *)
Lemma labelMatches_split (nodeName textContent : jsstring) :
  labelMatches nodeName textContent = true <->
  split_ws (normalizedName nodeName) `prefix_of` split_ws (cleanLabel textContent).
Proof. unfold labelMatches. by rewrite every_word_prefix. Qed.

Lemma labelMatches_tokens (nodeName textContent : jsstring) :
  normalizedName nodeName <> [] ->
  labelMatches nodeName textContent = true <->
  tokens (normalizedName nodeName) `prefix_of` tokens (cleanLabel textContent).
Proof.
  intros Hq. rewrite labelMatches_split.
  unfold normalizedName, cleanLabel in *. rewrite !split_ws_trim.
  rewrite bool_decide_eq_false_2 by done.
  case_bool_decide as Hc; [|done].
  rewrite Hc. split.
  - intros [k Hk]. pose proof (tokens_from_no_empty (trim (toLowerCase nodeName)) []) as Hne.
    fold (tokens (trim (toLowerCase nodeName))) in Hne.
    destruct (tokens (trim (toLowerCase nodeName))) as [|t ts] eqn:Et.
    + apply tokens_nil in Et; [done | apply trim_noLeadingWs].
    + injection Hk as <- _. exfalso. apply Hne. left.
  - intros [k Hk]. cbn in Hk. symmetry in Hk. apply app_eq_nil in Hk as [Hk _].
    apply tokens_nil in Hk; [done | apply trim_noLeadingWs].
Qed.

(** For every rendering: what a call of [highlightNode] leaves at node [i]. *)
Lemma highlightNode_node (nodeName : jsstring) (duration stepNumber : Z)
    (v : Viewer.t) (d : Dom.t) (i : nat) (n : Node.t) :
  Viewer.diagramRef v = Some d ->
  Dom.nodes d !! i = Some n ->
  exists d',
    Viewer.diagramRef (fst (fst (highlightNode nodeName duration (Some stepNumber) v)))
      = Some d'
    /\ Dom.nodes d' !! i = Some (highlighted nodeName n).
Proof.
  intros Hd Hn. rewrite (highlightNode_spec _ _ _ _ d Hd). cbn.
  eexists. split; [reflexivity|]. cbn.
  change (map (highlighted nodeName) (Dom.nodes d)) with (highlighted nodeName <$> Dom.nodes d).
  by rewrite list_lookup_fmap, Hn.
Qed.




(** ** The placeholder analysis *)

(** C6, counterexample.  The placeholder flow does not have four steps. *)
Lemma getMockAnalysis_not_four_steps :
  ~ exists flow,
      Analysis.flows (getMockAnalysis (GitHubRepo.mk "acme" "widgets" None)) = [flow]
      /\ length (Flow.steps flow) = 4.
Proof. intros (flow & Hf & Hl). cbn in Hf. injection Hf as <-. cbn in Hl. lia. Qed.

(** C6 (as amended).  Without an API key, or on an empty source buffer,
    the analysis is the placeholder, which depends on the repository only;
    it has exactly one flow, with exactly six steps, and step [j] (from 0)
    carries the number [j + 1]. *)
Theorem analyzeWithClaude_placeholder (env : ProcessEnv.t) (ext : Services.t)
    (repo : GitHubRepo.t) (codeBuffer : list N) :
  unset (ProcessEnv.ANTHROPIC_API_KEY env) = true \/ codeBuffer = [] ->
  analyzeWithClaude env ext repo codeBuffer = Fulfilled 0 (getMockAnalysis repo)
  /\ exists flow,
       Analysis.flows (getMockAnalysis repo) = [flow]
       /\ length (Flow.steps flow) = 6
       /\ forall (j : nat) (step : AnimationStep.t),
            Flow.steps flow !! j = Some step -> AnimationStep.step step = (Z.of_nat j + 1)%Z.
Proof.
  intros Hmock. split.
  - unfold analyzeWithClaude. destruct Hmock as [-> | ->]; [done|].
    by rewrite orb_true_r.
  - eexists. split; [reflexivity|]. split; [reflexivity|].
    intros j step Hj. cbn in Hj.
    do 6 (destruct j as [|j]; [injection Hj as <-; reflexivity|]).
    discriminate.
Qed.

Lemma analyzeWithClaude_placeholder_witness :
  let env := ProcessEnv.mk (Some "ghp_token") None in
  let ext := Services.mk (fun _ => Rejected 0 OtherValue) (fun _ _ => Rejected 0 OtherValue) in
  let repo := GitHubRepo.mk "acme" "widgets" None in
  (unset (ProcessEnv.ANTHROPIC_API_KEY env) = true \/ [1%N; 2%N] = [])
  /\ analyzeWithClaude env ext repo [1%N; 2%N] = Fulfilled 0 (getMockAnalysis repo).
Proof.
  intros env ext repo.
  split; [left; reflexivity|].
  exact (proj1 (analyzeWithClaude_placeholder env ext repo [1%N; 2%N] (or_introl eq_refl))).
Defined.

(** ** The playback handlers *)

Lemma removalTimers_due (nodeName : jsstring) (due : Z) (p : nat) (ns : list Node.t) :
  forall i id, Forall (fun timer => Timer.due timer = due) (removalTimers nodeName due p i id ns).
Proof.
  induction ns as [|n ns IH]; intros i id; simpl; [constructor|].
  destruct (nodeMatches nodeName n); [constructor; [done|] |]; apply IH.
Qed.

Lemma highlightTimers_due (nodeName : jsstring) (duration stepNumber clock : Z)
    (id p : nat) (d : Dom.t) :
  Forall (fun timer => Timer.due timer = (clock + Z.max 0 duration)%Z)
    (highlightTimers nodeName duration stepNumber clock id p d).
Proof.
  unfold highlightTimers. cbn zeta. apply Forall_app. split; [|apply Forall_app; split].
  - unfold arrowEffect. destruct (targetPath _ _); [|constructor].
    destruct (_ !! _); [|constructor]. by repeat constructor.
  - apply removalTimers_due.
  - destruct (existsb _ _); by repeat constructor.
Qed.

Lemma removalTimers_nonempty (nodeName : jsstring) (due : Z) (p : nat) (ns : list Node.t) :
  forall i id, existsb (nodeMatches nodeName) ns = true ->
               removalTimers nodeName due p i id ns <> [].
Proof.
  induction ns as [|n ns IH]; intros i id; simpl; [discriminate|].
  destruct (nodeMatches nodeName n); [done | apply IH].
Qed.

Lemma highlightTimers_nonempty (nodeName : jsstring) (duration stepNumber clock : Z)
    (id p : nat) (d : Dom.t) :
  highlightTimers nodeName duration stepNumber clock id p d <> [].
Proof.
  unfold highlightTimers. cbn zeta.
  destruct (existsb (nodeMatches nodeName) (Dom.nodes d)) eqn:E.
  - intros Hnil. apply app_eq_nil in Hnil as [_ Hnil].
    apply app_eq_nil in Hnil as [Hnil _].
    by apply removalTimers_nonempty in Hnil.
  - intros Hnil. apply app_eq_nil in Hnil as [_ Hnil].
    by apply app_eq_nil in Hnil as [_ Hnil].
Qed.

(** A manual step to [newStep], within the flow: the handler returns, the
    step shown is [newStep], and every timer it registers is due 5000 ms
    from now. *)
Lemma stepTo_spec (flow : Flow.t) (newStep : Z) (v : Viewer.t) :
  (1 <= newStep <= Z.of_nat (length (Flow.steps flow)))%Z ->
  exists v' new,
    stepTo flow newStep v = Returned v'
    /\ Viewer.currentStep v' = newStep
    /\ Viewer.timers v' = Viewer.timers v ++ new
    /\ Forall (fun timer => Timer.due timer = (Viewer.clock v + 5000)%Z) new
    /\ (Viewer.diagramRef v <> None -> new <> []).
Proof.
  intros Hrange. unfold stepTo, at_index.
  destruct (Z.ltb_spec (newStep - 1) 0) as [|_]; [lia|].
  destruct (Flow.steps flow !! Z.to_nat (newStep - 1)) as [step|] eqn:Es.
  2:{ apply lookup_ge_None_1 in Es. lia. }
  destruct (Viewer.diagramRef v) as [d|] eqn:Hd.
  - set (v1 := setDiagram _ _).
    assert (Hd1 : Viewer.diagramRef v1 = clearHighlights (Some d))
      by (subst v1; cbn; by rewrite Hd).
    cbn [clearHighlights] in Hd1.
    rewrite (highlightNode_spec _ _ _ v1 _ Hd1). cbn [fst].
    eexists _, _. split; [reflexivity|]. cbn.
    split; [done|]. split; [reflexivity|]. split.
    + apply (highlightTimers_due _ 5000).
    + intros _. apply highlightTimers_nonempty.
  - unfold highlightNode, newPromise. cbn. rewrite Hd. cbn.
    eexists _, []. split; [reflexivity|]. cbn.
    split; [done|]. split; [by rewrite app_nil_r|]. split; [constructor | done].
Qed.



Lemma clearNode_not_emphasised (n : Node.t) : nodeEmphasised (clearNode n) = false.
Proof. unfold nodeEmphasised, clearNode. cbn. by destruct (Node.shape n). Qed.

Lemma clearArrow_not_emphasised (a : Arrow.t) :
  clearSelector a = true -> arrowEmphasised (clearArrow a) = false.
Proof. unfold clearArrow. by intros ->. Qed.

Lemma clearArrow_flags (a : Arrow.t) :
  Arrow.flowchartLink (clearArrow a) = Arrow.flowchartLink a
  /\ Arrow.edgePathPath (clearArrow a) = Arrow.edgePathPath a
  /\ Arrow.pathPath (clearArrow a) = Arrow.pathPath a.
Proof. unfold clearArrow. by destruct (clearSelector a). Qed.

Lemma clearNode_idem (n : Node.t) : clearNode (clearNode n) = clearNode n.
Proof. unfold clearNode. cbn. by destruct (Node.shape n). Qed.

Lemma clearArrow_idem (a : Arrow.t) : clearArrow (clearArrow a) = clearArrow a.
Proof.
  unfold clearArrow at 1. destruct (clearArrow_flags a) as (Hf & He & _).
  unfold clearSelector at 1. rewrite Hf, He. fold (clearSelector a).
  destruct (clearSelector a) eqn:E; [|done].
  unfold clearArrow. rewrite E. done.
Qed.

Lemma clearHighlights_idem (d : option Dom.t) :
  clearHighlights (clearHighlights d) = clearHighlights d.
Proof.
  destruct d as [d|]; [|done]. cbn. do 2 f_equal.
  - rewrite <- list_fmap_compose. apply list_fmap_ext. intros _ n _. apply clearNode_idem.
  - rewrite <- list_fmap_compose. apply list_fmap_ext. intros _ a _. apply clearArrow_idem.
Qed.

(** After [clearHighlights] no node is emphasised, and no arrow that its
    selector reaches. *)
Lemma clearHighlights_clears (d d' : Dom.t) :
  clearHighlights (Some d) = Some d' ->
  (forall n, n ∈ Dom.nodes d' -> nodeEmphasised n = false)
  /\ (forall a, a ∈ Dom.arrows d' -> clearSelector a = true -> arrowEmphasised a = false).
Proof.
  cbn. intros [= <-]. cbn. split.
  - intros n (n0 & -> & _)%list_elem_of_fmap. apply clearNode_not_emphasised.
  - intros a (a0 & -> & _)%list_elem_of_fmap Hsel.
    apply clearArrow_not_emphasised.
    destruct (clearArrow_flags a0) as (Hf & He & _).
    unfold clearSelector in *. by rewrite <- Hf, <- He.
Qed.



(** ** Jobs that are absent *)

Section AbsentJobs.
Context `{JSON AnalysisJob.t}.

Lemma getAnalysisJob_absent (id : string) (w : World.t) :
  Absent id w ->
  snd (getAnalysisJob id w) = None /\ storeUntouched id w (fst (getAnalysisJob id w)).
Proof.
  intros Ha. unfold getAnalysisJob, kv_get.
  destruct Ha as [Hnone | item Hsome Hexp | item Hsome Hexp Hbad]; rewrite ?Hnone, ?Hsome, ?Hexp.
  - cbn. split; [done|]. unfold storeUntouched. repeat split; auto.
  - cbn. split; [done|]. unfold storeUntouched. cbn.
    split; [done|]. split; [done|]. split; [done|]. split; [|split].
    + right. by exists item.
    + intros key item' Hk. apply lookup_delete_Some in Hk as [_ Hk]. exact Hk.
    + intros key. unfold kv_get. cbn.
      destruct (decide (key = jobKey id)) as [->|Hne].
      * by rewrite lookup_delete_eq, Hsome, Hexp.
      * rewrite lookup_delete_ne by done.
        destruct (World.memoryStore w !! key) as [it|]; [|done].
        by destruct (expired (World.now w) it).
  - assert (Hu : storeUntouched id w w) by (unfold storeUntouched; repeat split; auto).
    destruct Hbad as [-> | Hparse].
    + cbn. done.
    + case_bool_decide; cbn; done.
Qed.

Lemma absent_noop (id : string) (w : World.t)
    (op : AnalysisJob.t -> AnalysisJob.t) :
  Absent id w ->
  storeUntouched id w
    (match getAnalysisJob id w with
     | (w', None) => w'
     | (w', Some job) => writeJob (op job) id w'
     end).
Proof.
  intros Ha. destruct (getAnalysisJob_absent id w Ha) as [Hn Hu].
  destruct (getAnalysisJob id w) as [w' [job|]]; cbn in *; [discriminate | exact Hu].
Qed.

(** C9.  On a job id that is absent from the status store -- never created,
    expired, or stored as text that does not parse -- each of
    [updateAnalysisStatus], [completeAnalysisJob] and [failAnalysisJob]
    returns a state of the server in which no entry of the store is created
    or modified, every key reads as before, and no status is written; the
    one thing that can go is the expired entry of the job itself, which the
    lookup removes. *)
Theorem absent_job_untouched (id : string) (w : World.t)
    (status : AnalysisStatus.t) (result : ArchitectureAnalysis.t) (error_ : string) :
  Absent id w ->
  storeUntouched id w (updateAnalysisStatus id status w)
  /\ storeUntouched id w (completeAnalysisJob id result w)
  /\ storeUntouched id w (failAnalysisJob id error_ w).
Proof.
  intros Ha. split; [|split].
  - exact (absent_noop id w _ Ha).
  - exact (absent_noop id w _ Ha).
  - exact (absent_noop id w _ Ha).
Qed.

End AbsentJobs.

(** ** The progress of a run *)

Section Progress.
Context `{JSON AnalysisJob.t} `{JSON ArchitectureAnalysis.t} `{JSON CacheMetadata.t}.

Lemma readJob_lookup (id : string) (w : World.t) :
  readJob id w =
    match World.memoryStore w !! jobKey id with
    | None => None
    | Some item =>
        if expired (World.now w) item then None
        else if bool_decide (Item.value item = "") then None
        else JSON_parse (Item.value item)
    end.
Proof.
  unfold readJob, getAnalysisJob, kv_get.
  destruct (World.memoryStore w !! jobKey id) as [item|]; [|done].
  destruct (expired (World.now w) item); [done|]. cbn.
  by case_bool_decide.
Qed.

Lemma expired_later (now now' : Z) (item : Item.t) :
  (now <= now')%Z -> expired now item = true -> expired now' item = true.
Proof.
  unfold expired. destruct (Item.expiresAt item) as [e|]; [|done].
  rewrite !andb_true_iff. intros Hle [He Hlt]. split; [done|].
  apply Z.ltb_lt in Hlt. apply Z.ltb_lt. lia.
Qed.

(** Once absent, a job stays absent while its entry is not rewritten. *)
Lemma readJob_stable (id : string) (w w' : World.t) :
  readJob id w = None ->
  (World.now w <= World.now w')%Z ->
  (World.memoryStore w' !! jobKey id = World.memoryStore w !! jobKey id
   \/ World.memoryStore w' !! jobKey id = None) ->
  readJob id w' = None.
Proof.
  rewrite !readJob_lookup. intros Hn Hle [-> | ->]; [|done].
  destruct (World.memoryStore w !! jobKey id) as [item|]; [|done].
  destruct (expired (World.now w) item) eqn:E.
  - by rewrite (expired_later _ _ _ Hle E).
  - destruct (expired (World.now w') item); [done | exact Hn].
Qed.

Lemma getAnalysisJob_frame (id : string) (w : World.t) :
  let w' := fst (getAnalysisJob id w) in
  World.now w' = World.now w
  /\ World.memoryBlobs w' = World.memoryBlobs w
  /\ World.statusLog w' = World.statusLog w
  /\ (World.memoryStore w' !! jobKey id = World.memoryStore w !! jobKey id
      \/ World.memoryStore w' !! jobKey id = None).
Proof.
  unfold getAnalysisJob, kv_get.
  destruct (World.memoryStore w !! jobKey id) as [item|] eqn:E.
  - destruct (expired (World.now w) item).
    + cbn. repeat split; try done. right. apply lookup_delete_eq.
    + cbn. case_bool_decide; cbn; repeat split; by auto.
  - cbn. repeat split; try done. by left.
Qed.

Lemma progressWritten_app (id : string) (n : nat) (w w' : World.t) (s : AnalysisStatus.t) :
  n <= length (World.statusLog w) ->
  World.statusLog w' = World.statusLog w ++ [(id, s)] ->
  progressWritten id n w' = progressWritten id n w ++ [AnalysisStatus.progress s].
Proof.
  intros Hn Hlog. unfold progressWritten. rewrite Hlog, drop_app_le by done.
  rewrite List.filter_app, map_app. cbn. by rewrite bool_decide_eq_true_2.
Qed.

(** One job operation: it writes its status, or it finds the job absent and
    leaves it absent. *)
Lemma jobOp_step (id : string) (n : nat) (w : World.t)
    (op : AnalysisJob.t -> AnalysisJob.t) (s : AnalysisStatus.t)
    (p : list Z) (dead : bool) :
  (forall job, AnalysisJob.status (op job) = s) ->
  Written id n w p dead ->
  let w' := match getAnalysisJob id w with
            | (w', None) => w'
            | (w', Some job) => writeJob (op job) id w'
            end in
  World.now w' = World.now w
  /\ (Written id n w' p true
      \/ (dead = false /\ Written id n w' (p ++ [AnalysisStatus.progress s]) false)).
Proof.
  intros Hs (Hp & Hn & Hdead). cbn zeta.
  destruct (getAnalysisJob_frame id w) as (Hnow & _ & Hlog & Hstore).
  fold (readJob id w) in *.
  destruct (getAnalysisJob id w) as [w1 [job|]] eqn:E; cbn in Hnow, Hlog, Hstore.
  - split; [exact Hnow|]. right.
    assert (Hr : readJob id w = Some job) by (unfold readJob; by rewrite E).
    split.
    { destruct dead; [|done]. rewrite Hdead in Hr; done. }
    unfold Written. split; [|split; [|done]].
    + rewrite <- Hp. rewrite <- (Hs job).
      assert (Hpw : progressWritten id n w1 = progressWritten id n w)
        by (unfold progressWritten; by rewrite Hlog).
      rewrite <- Hpw. apply progressWritten_app.
      * by rewrite Hlog.
      * done.
    + cbn. rewrite length_app, Hlog. lia.
  - split; [exact Hnow|]. left.
    assert (Hr : readJob id w = None) by (unfold readJob; by rewrite E).
    unfold Written. split; [|split].
    + unfold progressWritten. by rewrite Hlog.
    + by rewrite Hlog.
    + intros _. apply (readJob_stable id w w1 Hr); [lia | exact Hstore].
Qed.

Lemma jobKey_not_cache (id key : string) : CACHE_PREFIX +:+ key <> jobKey id.
Proof. unfold CACHE_PREFIX, jobKey, ANALYSIS_PREFIX. cbn. discriminate. Qed.

(** What happens between the job operations of a run leaves the log and the
    entry of the job alone. *)
Lemma Written_elapse (id : string) (n : nat) (w : World.t) (p : list Z) (dead : bool)
    (ms : Z) :
  Written id n w p dead -> Written id n (elapse ms w) p dead.
Proof.
  intros (Hp & Hn & Hdead). split; [exact Hp|]. split; [exact Hn|].
  intros Hd. apply (readJob_stable id w); [by apply Hdead | cbn; lia | by left].
Qed.

Lemma Written_saveAnalysis (id : string) (n : nat) (w : World.t) (p : list Z) (dead : bool)
    (repo : GitHubRepo.t) (analysis : ArchitectureAnalysis.t) :
  Written id n w p dead -> Written id n (fst (saveAnalysis repo analysis w)) p dead.
Proof.
  intros (Hp & Hn & Hdead). split; [exact Hp|]. split; [exact Hn|].
  intros Hd. apply (readJob_stable id w); [by apply Hdead | cbn; lia | by left].
Qed.

Lemma Written_setCacheMetadata (id : string) (n : nat) (w : World.t) (p : list Z)
    (dead : bool) (repo : GitHubRepo.t) (timestamp : Z) (blobUrl : string) :
  Written id n w p dead -> Written id n (setCacheMetadata repo timestamp blobUrl w) p dead.
Proof.
  intros (Hp & Hn & Hdead). split; [exact Hp|]. split; [exact Hn|].
  intros Hd. apply (readJob_stable id w); [by apply Hdead | cbn; lia |].
  left. cbn. apply lookup_insert_ne, jobKey_not_cache.
Qed.

End Progress.

Section ProgressOfRun.
Context `{JSON AnalysisJob.t} `{JSON ArchitectureAnalysis.t} `{JSON CacheMetadata.t}.

Lemma update_step (id : string) (n : nat) (w : World.t) (s : AnalysisStatus.t)
    (p : list Z) (dead : bool) :
  Written id n w p dead ->
  Written id n (updateAnalysisStatus id s w) p true
  \/ (dead = false
      /\ Written id n (updateAnalysisStatus id s w) (p ++ [AnalysisStatus.progress s]) false).
Proof.
  intros HW.
  exact (proj2 (jobOp_step id n w
                  (fun job => AnalysisJob.mk (AnalysisJob.id job) (AnalysisJob.repo job) s
                                (AnalysisJob.createdAt job) (AnalysisJob.result job))
                  s p dead (fun _ => eq_refl) HW)).
Qed.

Lemma complete_step (id : string) (n : nat) (w : World.t) (r : ArchitectureAnalysis.t)
    (p : list Z) (dead : bool) :
  Written id n w p dead ->
  Written id n (completeAnalysisJob id r w) p true
  \/ (dead = false /\ Written id n (completeAnalysisJob id r w) (p ++ [100%Z]) false).
Proof.
  intros HW.
  exact (proj2 (jobOp_step id n w
                  (fun job => AnalysisJob.mk (AnalysisJob.id job) (AnalysisJob.repo job)
                                (AnalysisStatus.mk complete 100 "Analysis complete!" None)
                                (AnalysisJob.createdAt job) (Some r))
                  _ p dead (fun _ => eq_refl) HW)).
Qed.

Lemma fail_step (id : string) (n : nat) (w : World.t) (e : string)
    (p : list Z) (dead : bool) :
  Written id n w p dead ->
  Written id n (failAnalysisJob id e w) p true
  \/ (dead = false /\ Written id n (failAnalysisJob id e w) (p ++ [0%Z]) false).
Proof.
  intros HW.
  exact (proj2 (jobOp_step id n w
                  (fun job => AnalysisJob.mk (AnalysisJob.id job) (AnalysisJob.repo job)
                                (AnalysisStatus.mk error 0 "Analysis failed" (Some e))
                                (AnalysisJob.createdAt job) (AnalysisJob.result job))
                  _ p dead (fun _ => eq_refl) HW)).
Qed.

Lemma createAnalysisJob_written (id : string) (repo : GitHubRepo.t) (w : World.t) :
  Written id (length (World.statusLog w)) (createAnalysisJob id repo w) [0%Z] false.
Proof.
  unfold Written, progressWritten. cbn.
  rewrite drop_app_length, length_app. cbn.
  rewrite bool_decide_eq_true_2 by done. split; [done|]. split; [lia | done].
Qed.

Ltac step_with lemma HW :=
  let HW' := fresh "HW" in
  let Hd := fresh "Hd" in
  destruct (lemma HW) as [HW' | [Hd HW']];
  [ | try discriminate Hd; clear Hd ];
  clear HW; cbn [AnalysisStatus.progress app] in HW'.

Ltac frame_with lemma HW :=
  let HW' := fresh "HW" in
  pose proof (lemma HW) as HW'; clear HW.

Ltac close_with p :=
  exists p; split;
  [ by eexists
  | split;
    [ repeat constructor; lia
    | first [ left; eassumption | right; split; [reflexivity | eassumption] ] ] ].

Ltac close_written :=
  match goal with
  | HW : Written _ _ _ _ _ |- _ => destruct HW as (HW & _ & _)
  end;
  first [ close_with (@nil Z) | close_with [10%Z] | close_with [10%Z; 30%Z]
        | close_with [10%Z; 30%Z; 50%Z] | close_with [10%Z; 30%Z; 50%Z; 80%Z]
        | close_with [10%Z; 30%Z; 50%Z; 80%Z; 100%Z] ].


End ProgressOfRun.


(** ** The status stream *)

Section Stream.
Context `{JSON AnalysisJob.t}.

Lemma stream_app (analysisId : string) (before rest : list World.t) :
  Forall (fun w' => snd (poll (readJob analysisId w')) = false) before ->
  stream analysisId (before ++ rest) =
    (flat_map (fun w' => fst (poll (readJob analysisId w'))) before
       ++ fst (stream analysisId rest),
     snd (stream analysisId rest)).
Proof.
  induction 1 as [|w' before Hw' _ IH]; cbn [app flat_map stream].
  - by destruct (stream analysisId rest).
  - unfold readJob in *. destruct (poll (snd (getAnalysisJob analysisId w'))) as [events closed].
    cbn in Hw'. subst closed. rewrite IH. cbn. by rewrite app_assoc.
Qed.

Lemma poll_open_status (job : option AnalysisJob.t) :
  snd (poll job) = false -> forall ev, ev ∈ fst (poll job) -> exists s, ev = StatusEvent s.
Proof.
  destruct job as [job|]; [|discriminate]. cbn.
  destruct (AnalysisStatus.status (AnalysisJob.status job)), (AnalysisJob.result job);
    cbn; try discriminate; intros _ ev ->%list_elem_of_singleton; eauto.
Qed.

(** C5.  The stream for a job id, at the poll that follows any number of
    polls that left it open (each of which sent status events only):
    - a job in phase [complete], with its artifact, gets its status, then
      one [complete] event carrying the artifact, and the stream is closed;
    - a job in phase [error] gets its status, then one [error] event
      carrying the failure message (the error text of the job, or
      "Analysis failed" when it has none), and the stream is closed;
    - an absent job id gets one [error] event and the stream is closed; at
      the first poll this is the only event of the stream.
    What the server does afterwards does not matter. *)
Theorem stream_terminates (analysisId : string)
    (before : list World.t) (w : World.t) (after : list World.t) :
  Forall (fun w' => snd (poll (readJob analysisId w')) = false) before ->
  let earlier := flat_map (fun w' => fst (poll (readJob analysisId w'))) before in
  (forall ev, ev ∈ earlier -> exists s, ev = StatusEvent s)
  /\ (forall job result,
        readJob analysisId w = Some job ->
        AnalysisStatus.status (AnalysisJob.status job) = complete ->
        AnalysisJob.result job = Some result ->
        stream analysisId (before ++ w :: after) =
          (earlier ++ [StatusEvent (AnalysisJob.status job); CompleteEvent result], true))
  /\ (forall job,
        readJob analysisId w = Some job ->
        AnalysisStatus.status (AnalysisJob.status job) = error ->
        exists message,
          stream analysisId (before ++ w :: after) =
            (earlier ++ [StatusEvent (AnalysisJob.status job); ErrorEvent message], true)
          /\ (forall text, AnalysisStatus.error (AnalysisJob.status job) = Some text ->
                           text <> "" -> message = text)
          /\ (AnalysisStatus.error (AnalysisJob.status job) = None
              \/ AnalysisStatus.error (AnalysisJob.status job) = Some "" ->
              message = "Analysis failed"))
  /\ (Absent analysisId w ->
      stream analysisId (before ++ w :: after) =
        (earlier ++ [ErrorEvent "Analysis job not found"], true)
      /\ (before = [] ->
          stream analysisId (w :: after) = ([ErrorEvent "Analysis job not found"], true))).
Proof.
  intros Hopen. cbn zeta. split; [|split; [|split]].
  - intros ev Hin. apply list_elem_of_In, in_flat_map in Hin as (w' & Hw' & Hev).
    apply list_elem_of_In in Hw', Hev.
    rewrite Forall_forall in Hopen.
    exact (poll_open_status _ (Hopen w' Hw') ev Hev).
  - intros job result Hjob Hphase Hresult.
    rewrite (stream_app _ _ _ Hopen). cbn [stream].
    fold (readJob analysisId w). rewrite Hjob. cbn.
    by rewrite Hphase, Hresult.
  - intros job Hjob Hphase.
    rewrite (stream_app _ _ _ Hopen). cbn [stream].
    fold (readJob analysisId w). rewrite Hjob. cbn.
    rewrite Hphase. cbn.
    eexists. split; [reflexivity|]. split.
    + intros text -> Hne. unfold orElse. by rewrite bool_decide_eq_false_2.
    + intros [-> | ->]; done.
  - intros Habs. destruct (getAnalysisJob_absent analysisId w Habs) as [Hnone _].
    split.
    + rewrite (stream_app _ _ _ Hopen). cbn [stream]. by rewrite Hnone.
    + intros _. cbn [stream]. by rewrite Hnone.
Qed.

End Stream.

Lemma stream_terminates_witness :
  let J := refJob in
  let created := @createAnalysisJob J "job-1" exampleRepo exampleWorld in
  let done := @completeAnalysisJob J "job-1" someAnalysis (elapse 2000 created) in
  Forall (fun w' => snd (poll (@readJob J "job-1" w')) = false) [created]
  /\ @stream J "job-1" ([created] ++ done :: []) =
       ([StatusEvent (AnalysisStatus.mk downloading 0 "Starting analysis..." None);
         StatusEvent (AnalysisStatus.mk complete 100 "Analysis complete!" None);
         CompleteEvent someAnalysis], true)
  /\ @stream J "never-created" (exampleWorld :: [created]) =
       ([ErrorEvent "Analysis job not found"], true).
Proof.
  intros J created done.
  assert (Hopen : Forall (fun w' => snd (poll (@readJob J "job-1" w')) = false) [created]).
  { constructor; [vm_compute; reflexivity | constructor]. }
  split; [exact Hopen|]. split.
  - destruct (@stream_terminates J "job-1" [created] done [] Hopen) as (_ & Hc & _).
    assert (Hjob : exists job, @readJob J "job-1" done = Some job
                     /\ AnalysisJob.status job
                        = AnalysisStatus.mk complete 100 "Analysis complete!" None
                     /\ AnalysisJob.result job = Some someAnalysis).
    { vm_compute. eexists. split; [reflexivity|]. split; reflexivity. }
    destruct Hjob as (job & Hr & Hs & Hres).
    rewrite (Hc job someAnalysis Hr (f_equal AnalysisStatus.status Hs) Hres).
    rewrite Hs. vm_compute. reflexivity.
  - destruct (@stream_terminates J "never-created" [] exampleWorld [created]
                (List.Forall_nil _)) as (_ & _ & _ & Ha).
    apply Ha; [|reflexivity]. apply NeverCreated. reflexivity.
Defined.

(** ** The stored analyses *)

Lemma string_length_app (s t : string) :
  String.length (s +:+ t) = String.length s + String.length t.
Proof. induction s as [|c s IH]; simpl; [done | by rewrite IH]. Qed.

Lemma string_app_cancel_r (s1 s2 t : string) : s1 +:+ t = s2 +:+ t -> s1 = s2.
Proof.
  revert s2. induction s1 as [|c s1 IH]; intros [|c2 s2] E.
  - done.
  - apply (f_equal String.length) in E. rewrite !string_length_app in E.
    simpl in E. lia.
  - apply (f_equal String.length) in E. rewrite !string_length_app in E.
    simpl in E. lia.
  - simpl in E. injection E as -> E. f_equal. by apply IH.
Qed.


(** Up to the first slash: two owners without a slash, followed by a slash
    and anything, are equal when the whole is. *)
Lemma owner_split (o1 o2 r1 r2 : string) :
  noSlash o1 -> noSlash o2 ->
  o1 +:+ String "/" r1 = o2 +:+ String "/" r2 -> o1 = o2 /\ r1 = r2.
Proof.
  revert o2. induction o1 as [|c o1 IH]; intros [|c2 o2] H1 H2 E; simpl in E.
  - by injection E.
  - injection E as <- _. exfalso. apply (H2 "/"%char); [left | done].
  - injection E as -> _. exfalso. apply (H1 "/"%char); [left | done].
  - injection E as -> E.
    destruct (IH o2) as [-> ->]; [| |exact E|done].
    + intros x Hx. apply H1. by right.
    + intros x Hx. apply H2. by right.
Qed.

Lemma analysisKey_inj (r1 r2 : GitHubRepo.t) :
  noSlash (GitHubRepo.owner r1) -> noSlash (GitHubRepo.owner r2) ->
  analysisKey r1 = analysisKey r2 -> identity r1 = identity r2.
Proof.
  intros H1 H2 E. unfold analysisKey, getRepoKey in E.
  apply string_app_cancel_r in E.
  apply owner_split in E as [Ho Hn]; [|done|done].
  unfold identity. by rewrite Ho, Hn.
Qed.

Section Storage.
Context `{JSON ArchitectureAnalysis.t}.

Lemma saveAll_blobs (saves : list (GitHubRepo.t * ArchitectureAnalysis.t)) (w : World.t)
    (key : string) :
  (forall save, save ∈ saves -> analysisKey (fst save) <> key) ->
  World.memoryBlobs (saveAll saves w) !! key = World.memoryBlobs w !! key.
Proof.
  revert w. induction saves as [|[r a] saves IH]; intros w Hne; cbn; [done|].
  unfold saveAll in IH. rewrite IH.
  - cbn. apply lookup_insert_ne. apply (Hne (r, a)). left.
  - intros save Hs. apply Hne. by right.
Qed.

(** C10 (as amended).  In the in-memory blob store, saving then loading is
    a round trip for every repository and every artifact that JSON can
    carry; and on a server that starts with no blobs, [getAnalysis] gives
    null for an identity (owner and name) that is not among the identities
    saved, provided no owner contains a slash. *)
Theorem saveAnalysis_getAnalysis :
  (forall (repo : GitHubRepo.t) (analysis : ArchitectureAnalysis.t) (w : World.t),
     JSONSerializable analysis ->
     getAnalysis repo (fst (saveAnalysis repo analysis w)) = Some analysis)
  /\ (forall (saves : list (GitHubRepo.t * ArchitectureAnalysis.t))
        (repo : GitHubRepo.t) (w : World.t),
        World.memoryBlobs w = ∅ ->
        noSlash (GitHubRepo.owner repo) ->
        (forall save, save ∈ saves ->
           noSlash (GitHubRepo.owner (fst save)) /\ identity (fst save) <> identity repo) ->
        getAnalysis repo (saveAll saves w) = None).
Proof.
  split.
  - intros repo analysis w [Hparse Hne].
    unfold getAnalysis, saveAnalysis, blob_get, blob_put. cbn.
    rewrite lookup_insert_eq. by rewrite bool_decide_eq_false_2.
  - intros saves repo w Hempty Hrepo Hsaves.
    unfold getAnalysis, blob_get.
    rewrite (saveAll_blobs saves w (analysisKey repo)).
    + by rewrite Hempty, lookup_empty.
    + intros save Hs Hkey. destruct (Hsaves save Hs) as [Ho Hid].
      apply Hid. by apply analysisKey_inj.
Qed.

End Storage.

Lemma refJSON_serializable {A : Type} `{Countable A} (a : A) :
  @JSONSerializable A (refJSON A) a.
Proof.
  unfold JSONSerializable. cbn. unfold refStringify, refParse. cbn. split; [|done].
  assert (Hd : forall p, undigits (digits p) = Some p).
  { induction p as [p IH|p IH|]; cbn; [| |done].
    - rewrite bool_decide_eq_false_2 by done. rewrite bool_decide_eq_true_2 by done.
      by rewrite IH.
    - rewrite bool_decide_eq_true_2 by done. by rewrite IH. }
  rewrite Hd. cbn. apply decode_encode.
Qed.

Lemma noSlash_compute (s : string) :
  forallb (fun c => negb (Ascii.eqb c "/")) (list_ascii_of_string s) = true -> noSlash s.
Proof.
  intros Hall c Hc ->. rewrite forallb_forall in Hall.
  apply list_elem_of_In in Hc. by apply Hall in Hc.
Qed.

Lemma saveAnalysis_getAnalysis_witness :
  @JSONSerializable _ refAnalysis someAnalysis
  /\ @getAnalysis refAnalysis exampleRepo
       (fst (@saveAnalysis refAnalysis exampleRepo someAnalysis exampleWorld))
     = Some someAnalysis
  /\ @getAnalysis refAnalysis (GitHubRepo.mk "acme" "gadgets" None)
       (@saveAll refAnalysis [(exampleRepo, someAnalysis)] exampleWorld)
     = None.
Proof.
  pose proof (@refJSON_serializable ArchitectureAnalysis.t _ _ someAnalysis) as Hser.
  split; [exact Hser|]. split.
  - exact (proj1 (@saveAnalysis_getAnalysis refAnalysis) exampleRepo someAnalysis
             exampleWorld Hser).
  - apply (proj2 (@saveAnalysis_getAnalysis refAnalysis)).
    + reflexivity.
    + by apply noSlash_compute.
    + intros save ->%list_elem_of_singleton. split.
      * by apply noSlash_compute.
      * cbn. discriminate.
Defined.

(** C10, counterexample.  The key of an analysis is the owner, a slash and
    the name: after saving for owner "a/b" and name "c", [getAnalysis] for
    owner "a" and name "b/c", which was never saved, gives that artifact
    and not null. *)
Lemma getAnalysis_of_never_saved :
  identity slashName <> identity slashOwner
  /\ @getAnalysis refAnalysis slashName
       (@saveAll refAnalysis [(slashOwner, someAnalysis)] exampleWorld)
     = Some someAnalysis.
Proof. split; [discriminate|]. vm_compute. reflexivity. Qed.

Lemma absent_job_untouched_witness :
  @Absent refJob "never-created" exampleWorld
  /\ @storeUntouched "never-created" exampleWorld
       (@failAnalysisJob refJob "never-created" "boom" exampleWorld).
Proof.
  assert (Ha : @Absent refJob "never-created" exampleWorld)
    by (apply NeverCreated; reflexivity).
  split; [exact Ha|].
  exact (proj2 (proj2 (@absent_job_untouched refJob "never-created" exampleWorld
                         (AnalysisStatus.mk extracting 30 "m" None) someAnalysis "boom" Ha))).
Defined.

(** ** The event loop *)

Lemma nextTimer_elem (l : list Timer.t) (timer : Timer.t) :
  nextTimer l = Some timer -> timer ∈ l.
Proof.
  revert timer. induction l as [|x l IH]; intros timer; cbn; [discriminate|].
  destruct (nextTimer l) as [y|].
  - destruct (Timer.due x <=? Timer.due y)%Z; intros [= <-]; [left | right; by apply IH].
  - intros [= <-]. left.
Qed.

(** The first timer fires next when none is due earlier. *)
Lemma nextTimer_head (x : Timer.t) (l : list Timer.t) :
  Forall (fun y => (Timer.due x <= Timer.due y)%Z) l -> nextTimer (x :: l) = Some x.
Proof.
  intros Hl. cbn. destruct (nextTimer l) as [y|] eqn:E; [|done].
  apply nextTimer_elem in E. rewrite Forall_forall in Hl.
  apply Hl, Z.leb_le in E. by rewrite E.
Qed.

Lemma filter_other_ids (x : Timer.t) (l : list Timer.t) :
  Timer.id x ∉ Timer.id <$> l ->
  List.filter (fun timer => negb (Timer.id timer =? Timer.id x)) l = l.
Proof.
  induction l as [|y l IH]; cbn; [done|]. intros Hx.
  apply not_elem_of_cons in Hx as [Hne Hx].
  destruct (Nat.eqb_spec (Timer.id y) (Timer.id x)) as [E|_]; [congruence|].
  cbn. by rewrite IH.
Qed.

Lemma turn_head (v : Viewer.t) (x : Timer.t) (l : list Timer.t) :
  Viewer.timers v = x :: l ->
  Forall (fun y => (Timer.due x <= Timer.due y)%Z) l ->
  NoDup (Timer.id <$> Viewer.timers v) ->
  turn v = Some (fire (Timer.callback x)
                   (setClock (Z.max (Viewer.clock v) (Timer.due x)) (setTimers l v))).
Proof.
  intros Ht Hl Hnd. unfold turn. rewrite Ht, (nextTimer_head x l Hl).
  unfold clearTimeout. rewrite Ht. cbn [List.filter].
  rewrite Nat.eqb_refl. cbn [negb].
  rewrite Ht in Hnd. cbn in Hnd. apply NoDup_cons in Hnd as [Hx _].
  by rewrite (filter_other_ids x l Hx).
Qed.

Lemma turn_none (v : Viewer.t) : Viewer.timers v = [] -> turn v = None.
Proof. intros Ht. unfold turn. by rewrite Ht. Qed.

Lemma run_add (n m : nat) (v : Viewer.t) : run (n + m) v = run m (run n v).
Proof.
  revert v. induction n as [|n IH]; intros v; cbn; [done|].
  destruct (turn v) as [v'|] eqn:E; [apply IH|].
  clear IH. induction m as [|m IHm]; cbn; [done|]. rewrite E. done.
Qed.

(** *** The timers of a highlight *)

Lemma removalTimers_ids (nodeName : jsstring) (due : Z) (p : nat) (ns : list Node.t) :
  forall i id,
    Timer.id <$> removalTimers nodeName due p i id ns
    = seq id (length (removalTimers nodeName due p i id ns)).
Proof.
  induction ns as [|n ns IH]; intros i id; cbn; [done|].
  destruct (nodeMatches nodeName n); cbn; [f_equal|]; apply IH.
Qed.

Lemma highlightTimers_ids (nodeName : jsstring) (duration stepNumber clock : Z)
    (id p : nat) (d : Dom.t) :
  Timer.id <$> highlightTimers nodeName duration stepNumber clock id p d
  = seq id (length (highlightTimers nodeName duration stepNumber clock id p d)).
Proof.
  unfold highlightTimers. cbn zeta.
  set (newA := snd (arrowEffect _ _ _ _)).
  set (newN := removalTimers _ _ _ _ _ _).
  rewrite !fmap_app, !length_app, !seq_app.
  f_equal; [|f_equal].
  - subst newA. unfold arrowEffect. destruct (targetPath _ _); [|done].
    by destruct (_ !! _).
  - subst newN. apply removalTimers_ids.
  - destruct (existsb _ _); [done|]. cbn. done.
Qed.

Lemma removalTimers_callbacks (nodeName : jsstring) (due : Z) (p : nat) (ns : list Node.t) :
  forall i id,
    Forall (fun timer => stepCallback p (Timer.callback timer))
      (removalTimers nodeName due p i id ns).
Proof.
  induction ns as [|n ns IH]; intros i id; cbn; [constructor|].
  destruct (nodeMatches nodeName n); [constructor; [done|] |]; apply IH.
Qed.

Lemma highlightTimers_callbacks (nodeName : jsstring) (duration stepNumber clock : Z)
    (id p : nat) (d : Dom.t) :
  Forall (fun timer => stepCallback p (Timer.callback timer))
    (highlightTimers nodeName duration stepNumber clock id p d).
Proof.
  unfold highlightTimers. cbn zeta. apply Forall_app. split; [|apply Forall_app; split].
  - unfold arrowEffect. destruct (targetPath _ _); [|constructor].
    destruct (_ !! _); [|constructor]. by repeat constructor.
  - apply removalTimers_callbacks.
  - destruct (existsb _ _); by repeat constructor.
Qed.

Lemma removalTimers_lookup (nodeName : jsstring) (due : Z) (p : nat) (ns : list Node.t) :
  forall i id j n,
    ns !! j = Some n -> nodeMatches nodeName n = true ->
    exists timer,
      timer ∈ removalTimers nodeName due p i id ns
      /\ Timer.callback timer = RemoveNodeHighlight (i + j) p.
Proof.
  induction ns as [|n0 ns IH]; intros i id j n Hj Hm; [done|].
  destruct j as [|j]; cbn in Hj.
  - injection Hj as ->. cbn. rewrite Hm. eexists. split; [left|].
    cbn. by rewrite Nat.add_0_r.
  - cbn. destruct (nodeMatches nodeName n0).
    + destruct (IH (S i) (S id) j n Hj Hm) as (timer & Hin & Hcb).
      exists timer. split; [by right|]. rewrite Hcb. f_equal. lia.
    + destruct (IH (S i) id j n Hj Hm) as (timer & Hin & Hcb).
      exists timer. split; [done|]. rewrite Hcb. f_equal. lia.
Qed.

Lemma highlightTimers_removal (nodeName : jsstring) (duration stepNumber clock : Z)
    (id p : nat) (d : Dom.t) (j : nat) (n : Node.t) :
  Dom.nodes d !! j = Some n -> nodeMatches nodeName n = true ->
  exists timer,
    timer ∈ highlightTimers nodeName duration stepNumber clock id p d
    /\ Timer.callback timer = RemoveNodeHighlight j p.
Proof.
  intros Hj Hm. unfold highlightTimers. cbn zeta.
  set (newA := snd (arrowEffect _ _ _ _)).
  destruct (removalTimers_lookup nodeName (clock + Z.max 0 duration) p (Dom.nodes d)
              0 (id + length newA) j n Hj Hm) as (timer & Hin & Hcb).
  exists timer. split; [|exact Hcb].
  apply elem_of_app. right. apply elem_of_app. left. exact Hin.
Qed.

Lemma highlightTimers_resolver (nodeName : jsstring) (duration stepNumber clock : Z)
    (id p : nat) (d : Dom.t) :
  exists timer,
    timer ∈ highlightTimers nodeName duration stepNumber clock id p d
    /\ resolver (Timer.callback timer) = true.
Proof.
  destruct (existsb (nodeMatches nodeName) (Dom.nodes d)) eqn:E.
  - apply existsb_exists in E as (n & Hn & Hm).
    apply list_elem_of_In, list_elem_of_lookup in Hn as [j Hj].
    destruct (highlightTimers_removal nodeName duration stepNumber clock id p d j n Hj Hm)
      as (timer & Hin & Hcb).
    exists timer. split; [done|]. by rewrite Hcb.
  - unfold highlightTimers. cbn zeta. rewrite E.
    eexists. split; [|shelve].
    apply elem_of_app. right. apply elem_of_app. right. left.
    Unshelve. reflexivity.
Qed.

(** *** Autoplay, step by step *)

Lemma nodeMatches_clearNode (nodeName : jsstring) (n : Node.t) :
  nodeMatches nodeName (clearNode n) = nodeMatches nodeName n.
Proof. unfold nodeMatches, clearNode. cbn. by destruct (Node.shape n). Qed.

Lemma nodeMatches_emphasiseNode (nodeName : jsstring) (n : Node.t) :
  nodeMatches nodeName (emphasiseNode n) = nodeMatches nodeName n.
Proof. unfold nodeMatches, emphasiseNode. cbn. by destruct (Node.shape n). Qed.

(** After a clear and a highlight, the emphasised nodes are those that
    match. *)
Lemma highlighted_clear_emphasised (nodeName : jsstring) (n : Node.t) :
  nodeEmphasised (highlighted nodeName (clearNode n)) = nodeMatches nodeName n.
Proof.
  unfold highlighted. rewrite nodeMatches_clearNode.
  destruct (nodeMatches nodeName n) eqn:E.
  - unfold nodeMatches in E. unfold nodeEmphasised, emphasiseNode, clearNode. cbn.
    destruct (Node.nodeLabel n); [|done]. by destruct (Node.shape n).
  - apply clearNode_not_emphasised.
Qed.

Lemma startOf_S (flow : Flow.t) (t0 : Z) (k : nat) (step : AnimationStep.t) :
  Flow.steps flow !! k = Some step ->
  startOf flow t0 (S k) = (startOf flow t0 k + 2 * delayOf step)%Z.
Proof.
  intros Hk. unfold startOf. rewrite (take_S_r _ _ _ Hk), fmap_app, foldr_app. cbn.
  generalize (delayOf <$> take k (Flow.steps flow)). intros l.
  induction l as [|x l IH]; cbn; lia.
Qed.

Lemma delayOf_nonneg (step : AnimationStep.t) : (0 <= delayOf step)%Z.
Proof. unfold delayOf. lia. Qed.

(** [animateStep] at the start of step [k], with nothing scheduled: it
    shows step [k], or ends the animation when the flow has no such step. *)
Lemma animateStep_enters (flow : Flow.t) (t0 : Z) (v : Viewer.t) (k : nat)
    (tid : option nat) (d : Dom.t) :
  Viewer.effect v = Some (Closure.mk flow false k tid None) ->
  Viewer.isAnimating v = true ->
  Viewer.timers v = [] ->
  Viewer.clock v = startOf flow t0 k ->
  Viewer.diagramRef v = Some d ->
  (Flow.steps flow !! k = None ->
   k = length (Flow.steps flow) /\ forall n, n ∈ Dom.nodes d -> nodeEmphasised n = false) ->
  (Flow.steps flow !! k = None /\ Finished flow t0 (animateStep v))
  \/ (exists step p rest, Showing flow t0 (animateStep v) k step p rest []).
Proof.
  intros He Ha Ht Hc Hd Hend.
  destruct v as [sf an pa cs dr ar ck ts ni np ef]. cbn in He, Ha, Ht, Hc, Hd.
  subst ef an ts ck dr.
  unfold animateStep. cbn [Viewer.effect Closure.isPaused Closure.flow Closure.stepIndex].
  destruct (Flow.steps flow !! k) as [step|] eqn:Hk.
  - right.
    match goal with
    | |- context [highlightNode ?q ?du ?sn ?w] =>
        rewrite (highlightNode_spec q du (AnimationStep.step step) w
                   (Dom.mk (clearNode <$> Dom.nodes d) (clearArrow <$> Dom.arrows d))
                   eq_refl)
    end.
    cbn [Viewer.selectedFlow Viewer.isAnimating Viewer.isPaused Viewer.currentStep
         Viewer.diagramRef Viewer.animationTimeoutRef Viewer.clock Viewer.timers
         Viewer.nextTimerId Viewer.nextPromise Viewer.effect setCurrentStep setDiagram
         withClosure setEffect fmap option_fmap option_map app
         Closure.flow Closure.isPaused Closure.stepIndex Closure.timeoutId].
    set (new := highlightTimers _ _ _ _ _ _ _).
    exists step, np, new. constructor; cbn.
    + exact Hk.
    + done.
    + done.
    + by rewrite app_nil_r.
    + apply highlightTimers_due.
    + apply highlightTimers_callbacks.
    + pose proof (delayOf_nonneg step). lia.
    + subst new. rewrite highlightTimers_ids. apply NoDup_seq.
    + apply Forall_forall. intros timer Hin.
      assert (Hid : Timer.id timer ∈ Timer.id <$> new) by (by apply list_elem_of_fmap_2).
      subst new. rewrite highlightTimers_ids in Hid.
      apply list_elem_of_In, in_seq in Hid. lia.
    + eexists. split; [reflexivity|]. cbn. intros i n Hi Hn.
      change (map (highlighted (AnimationStep.node step)) (clearNode <$> Dom.nodes d))
        with (highlighted (AnimationStep.node step) <$> (clearNode <$> Dom.nodes d)) in Hi.
      rewrite <- list_fmap_compose, list_lookup_fmap in Hi.
      destruct (Dom.nodes d !! i) as [n0|] eqn:Hi0; cbn in Hi; [|done].
      injection Hi as <-. rewrite highlighted_clear_emphasised in Hn.
      split.
      * unfold highlighted. rewrite nodeMatches_clearNode, Hn.
        by rewrite nodeMatches_emphasiseNode, nodeMatches_clearNode.
      * apply highlightTimers_removal with (n := clearNode n0).
        -- cbn. by rewrite list_lookup_fmap, Hi0.
        -- by rewrite nodeMatches_clearNode.
    + left. split; [done|]. split; [by exists tid|].
      apply highlightTimers_resolver.
  - left. split; [done|]. destruct (Hend eq_refl) as [-> Hclean].
    constructor; cbn; try done.
    by exists d.
Qed.

Lemma tail_due (flow : Flow.t) (t0 : Z) (v : Viewer.t) (k : nat) (step : AnimationStep.t)
    (p : nat) (rest tail : list Timer.t) :
  Showing flow t0 v k step p rest tail ->
  Forall (fun y => (startOf flow t0 k + delayOf step <= Timer.due y)%Z) (rest ++ tail).
Proof.
  intros S. apply Forall_app. split.
  - eapply Forall_impl; [apply (showing_due _ _ _ _ _ _ _ _ S)|]. cbn. intros y ->. lia.
  - destruct (showing_phase _ _ _ _ _ _ _ _ S) as [(-> & _) | (id & tid & -> & _)];
      [constructor|].
    repeat constructor. cbn.
    rewrite (startOf_S _ _ _ _ (showing_step _ _ _ _ _ _ _ _ S)).
    pose proof (delayOf_nonneg step). lia.
Qed.

(** One turn of the loop while timers of the highlight of step [k] are
    left: the step stays, one timer less. *)
Lemma showing_turn (flow : Flow.t) (t0 : Z) (v : Viewer.t) (k : nat)
    (step : AnimationStep.t) (p : nat) (x : Timer.t) (rest tail : list Timer.t) :
  Showing flow t0 v k step p (x :: rest) tail ->
  exists v' tail',
    turn v = Some v'
    /\ Showing flow t0 v' k step p rest tail'
    /\ stepsLeft rest tail' < stepsLeft (x :: rest) tail.
Proof.
  intros S.
  pose proof (tail_due _ _ _ _ _ _ _ _ S) as Hdue.
  destruct S as [Hk Ha Hcur Ht Hd Hcb Hclock Hnd Hfresh (d & Hdom & Hemph) Hphase].
  apply Forall_cons in Hd as [Hdx Hd]. apply Forall_cons in Hcb as [Hcbx Hcb].
  cbn [app] in Ht, Hdue. apply Forall_cons in Hdue as [_ Hdue].
  assert (Hturn : turn v = Some (fire (Timer.callback x)
            (setClock (startOf flow t0 k + delayOf step)
               (setTimers (rest ++ tail) v)))).
  { rewrite (turn_head v x (rest ++ tail) Ht); [|by rewrite Hdx|done].
    do 3 f_equal. rewrite Hdx. lia. }
  rewrite Hturn. clear Hturn.
  rewrite Ht in Hnd, Hfresh. cbn in Hnd. apply NoDup_cons in Hnd as [Hxid Hnd].
  apply Forall_cons in Hfresh as [Hxfresh Hfresh].
  destruct v as [sf an pa cs dr ar ck ts ni np ef].
  cbn in Ha, Hcur, Ht, Hclock, Hdom, Hfresh, Hxfresh, Hphase. subst an cs ts dr.
  (* what the node callbacks leave of the emphasis *)
  assert (Hkeep : forall i, Timer.callback x = RemoveNodeHighlight i p \/
                            (forall j, Timer.callback x <> RemoveNodeHighlight j p) ->
            forall j n,
              Dom.nodes (match Timer.callback x with
                         | RemoveNodeHighlight i _ => setShape i clearShape d
                         | _ => d
                         end) !! j = Some n ->
              nodeEmphasised n = true ->
              nodeMatches (AnimationStep.node step) n = true
              /\ exists timer, timer ∈ rest /\ Timer.callback timer = RemoveNodeHighlight j p).
  { intros i Hx j n Hj Hn.
    destruct (Timer.callback x) as [|i' q|q|a s1 s2] eqn:Ecb.
    - done.
    - cbn in Hcbx. subst q. cbn in Hj.
      rewrite list_lookup_alter in Hj.
      destruct (decide (i' = j)) as [->|Hne].
      + destruct (Dom.nodes d !! j) as [n0|]; cbn in Hj; [|done].
        injection Hj as <-. fold (clearNode n0) in Hn.
        by rewrite clearNode_not_emphasised in Hn.
      + destruct (Hemph j n Hj Hn) as (Hm & timer & Hin & Htcb).
        split; [done|]. exists timer. split; [|done].
        apply elem_of_cons in Hin as [->|Hin]; [|done].
        rewrite Ecb in Htcb. congruence.
    - destruct (Hemph j n Hj Hn) as (Hm & timer & Hin & Htcb).
      split; [done|]. exists timer. split; [|done].
      apply elem_of_cons in Hin as [->|Hin]; [|done]. congruence.
    - destruct (Hemph j n Hj Hn) as (Hm & timer & Hin & Htcb).
      split; [done|]. exists timer. split; [|done].
      apply elem_of_cons in Hin as [->|Hin]; [|done]. congruence. }
  destruct Hphase as [(-> & (tid & He) & (r & Hr & Hres)) | (id & tid & -> & He & Hck)];
    cbn in He; subst ef.
  - (* the promise is pending *)
    rewrite app_nil_r in *.
    destruct (Timer.callback x) as [|i q|q|a s1 s2] eqn:Ecb; cbn in Hcbx; [done| | |].
    + subst q. eexists _, [_]. split; [|split].
      * unfold fire, resolve, onShape, resume, setTimeout. cbn.
        rewrite Nat.eqb_refl. cbn. reflexivity.
      * constructor; cbn; try done; try (pose proof (delayOf_nonneg step); lia).
        -- rewrite fmap_app. cbn. apply NoDup_app. split; [done|]. split.
           ++ intros y Hy Hy'. apply list_elem_of_singleton in Hy'. subst y.
              apply list_elem_of_fmap in Hy as (timer & Hid & Hin).
              rewrite Forall_forall in Hfresh. apply Hfresh in Hin. lia.
           ++ apply NoDup_singleton.
        -- apply Forall_app. split.
           ++ eapply Forall_impl; [exact Hfresh|]. cbn. intros; lia.
           ++ repeat constructor; cbn; lia.
        -- eexists. split; [reflexivity|].
           apply (Hkeep i (or_introl eq_refl)).
        -- right. eexists _, _. split; [|split; [reflexivity|done]].
           rewrite (startOf_S _ _ _ _ Hk). unfold delayOf. do 2 f_equal. lia.
      * unfold stepsLeft. cbn. lia.
    + subst q. eexists _, [_]. split; [|split].
      * unfold fire, resolve, resume, setTimeout. cbn.
        rewrite Nat.eqb_refl. cbn. reflexivity.
      * constructor; cbn; try done; try (pose proof (delayOf_nonneg step); lia).
        -- rewrite fmap_app. cbn. apply NoDup_app. split; [done|]. split.
           ++ intros y Hy Hy'. apply list_elem_of_singleton in Hy'. subst y.
              apply list_elem_of_fmap in Hy as (timer & Hid & Hin).
              rewrite Forall_forall in Hfresh. apply Hfresh in Hin. lia.
           ++ apply NoDup_singleton.
        -- apply Forall_app. split.
           ++ eapply Forall_impl; [exact Hfresh|]. cbn. intros; lia.
           ++ repeat constructor; cbn; lia.
        -- eexists. split; [reflexivity|].
           apply (Hkeep 0). right. intros j. discriminate.
        -- right. eexists _, _. split; [|split; [reflexivity|done]].
           rewrite (startOf_S _ _ _ _ Hk). unfold delayOf. do 2 f_equal. lia.
      * unfold stepsLeft. cbn. lia.
    + eexists _, []. split; [|split].
      * unfold fire. cbn. reflexivity.
      * constructor; cbn; try done.
        -- by rewrite app_nil_r.
        -- pose proof (delayOf_nonneg step). lia.
        -- eexists. split; [reflexivity|]. cbn.
           apply (Hkeep 0). right. intros j. discriminate.
        -- left. split; [done|]. split; [by exists tid|].
           exists r. split; [|done].
           apply elem_of_cons in Hr as [->|Hr]; [|done].
           rewrite Ecb in Hres. discriminate.
      * unfold stepsLeft. cbn. lia.
  - (* the promise is resolved *)
    cbn in Hck. subst ck.
    destruct (Timer.callback x) as [|i q|q|a s1 s2] eqn:Ecb; cbn in Hcbx; [done| | |].
    + subst q. eexists _, [_]. split; [|split].
      * unfold fire, resolve, onShape. cbn. reflexivity.
      * constructor; cbn; try done; try (pose proof (delayOf_nonneg step); lia).
        -- eexists. split; [reflexivity|].
           apply (Hkeep i (or_introl eq_refl)).
        -- right. eexists _, _. split; [reflexivity|]. split; [reflexivity|done].
      * unfold stepsLeft. cbn. lia.
    + subst q. eexists _, [_]. split; [|split].
      * unfold fire, resolve. cbn. reflexivity.
      * constructor; cbn; try done; try (pose proof (delayOf_nonneg step); lia).
        -- eexists. split; [reflexivity|].
           apply (Hkeep 0). right. intros j. discriminate.
        -- right. eexists _, _. split; [reflexivity|]. split; [reflexivity|done].
      * unfold stepsLeft. cbn. lia.
    + eexists _, [_]. split; [|split].
      * unfold fire. cbn. reflexivity.
      * constructor; cbn; try done; try (pose proof (delayOf_nonneg step); lia).
        -- eexists. split; [reflexivity|]. cbn.
           apply (Hkeep 0). right. intros j. discriminate.
        -- right. eexists _, _. split; [reflexivity|]. split; [reflexivity|done].
      * unfold stepsLeft. cbn. lia.
Qed.

(** One turn of the loop when the highlight of step [k] has run out: the
    next [animateStep] shows step [k + 1], or ends the animation. *)
Lemma showing_last_turn (flow : Flow.t) (t0 : Z) (v : Viewer.t) (k : nat)
    (step : AnimationStep.t) (p : nat) (tail : list Timer.t) :
  Showing flow t0 v k step p [] tail ->
  exists v',
    turn v = Some v'
    /\ (Finished flow t0 v'
        \/ exists step' p' rest', Showing flow t0 v' (S k) step' p' rest' []).
Proof.
  intros [Hk Ha Hcur Ht Hd Hcb Hclock Hnd Hfresh (d & Hdom & Hemph) Hphase].
  destruct Hphase as [(_ & _ & (r & Hr & _)) | (id & tid & -> & He & Hck)].
  { by apply elem_of_nil in Hr. }
  cbn [app] in Ht.
  rewrite (turn_head v _ [] Ht); [|constructor|done].
  eexists. split; [reflexivity|]. cbn [Timer.callback Timer.due fire].
  pose proof (delayOf_nonneg step) as Hpos.
  pose proof (startOf_S flow t0 k step Hk) as HS.
  destruct (animateStep_enters flow t0
              (setClock (Z.max (Viewer.clock v) (startOf flow t0 (S k))) (setTimers [] v))
              (S k) tid d) as [[_ Hfin] | Hshow].
  - destruct v; cbn in *. congruence.
  - destruct v; cbn in *. congruence.
  - destruct v; done.
  - destruct v; cbn in *. lia.
  - destruct v; cbn in *. congruence.
  - intros Hnone. split.
    + apply lookup_ge_None_1 in Hnone. apply lookup_lt_Some in Hk. lia.
    + intros n Hn. apply list_elem_of_lookup in Hn as [i Hi].
      destruct (nodeEmphasised n) eqn:En; [|done].
      destruct (Hemph i n Hi En) as (_ & timer & Hin & _).
      by apply elem_of_nil in Hin.
  - by left.
  - by right.
Qed.

Lemma finished_turn (flow : Flow.t) (t0 : Z) (v : Viewer.t) :
  Finished flow t0 v -> turn v = None.
Proof. intros F. apply turn_none, (finished_timers _ _ _ F). Qed.

(** The states of autoplay are closed under the turns of the loop. *)
Lemma autoplaying_turn (flow : Flow.t) (t0 : Z) (v v' : Viewer.t) :
  Autoplaying flow t0 v -> turn v = Some v' -> Autoplaying flow t0 v'.
Proof.
  intros [(k & step & p & rest & tail & S) | F] Hturn.
  - destruct rest as [|x rest].
    + destruct (showing_last_turn _ _ _ _ _ _ _ S) as (v1 & Hv1 & Hnext).
      rewrite Hturn in Hv1. injection Hv1 as <-.
      destruct Hnext as [F | (step' & p' & rest' & S')]; [by right|].
      left. by exists (Datatypes.S k), step', p', rest', [].
    + destruct (showing_turn _ _ _ _ _ _ _ _ _ S) as (v1 & tail' & Hv1 & S' & _).
      rewrite Hturn in Hv1. injection Hv1 as <-.
      left. by exists k, step, p, rest, tail'.
  - by rewrite (finished_turn _ _ _ F) in Hturn.
Qed.

Lemma autoplaying_run (flow : Flow.t) (t0 : Z) (n : nat) (v : Viewer.t) :
  Autoplaying flow t0 v -> Autoplaying flow t0 (run n v).
Proof.
  revert v. induction n as [|n IH]; intros v A; cbn; [done|].
  destruct (turn v) as [v'|] eqn:E; [|done].
  apply IH. by apply (autoplaying_turn flow t0 v).
Qed.

Lemma finished_run (flow : Flow.t) (t0 : Z) (n : nat) (v : Viewer.t) :
  Finished flow t0 v -> run n v = v.
Proof.
  intros F. destruct n as [|n]; cbn; [done|]. by rewrite (finished_turn _ _ _ F).
Qed.

(** From a state that shows step [k] the loop reaches the next step, or
    the end. *)
Lemma showing_next (flow : Flow.t) (t0 : Z) (m : nat) :
  forall (v : Viewer.t) (k : nat) (step : AnimationStep.t) (p : nat)
         (rest tail : list Timer.t),
    stepsLeft rest tail <= m ->
    Showing flow t0 v k step p rest tail ->
    exists n,
      Finished flow t0 (run n v)
      \/ exists step' p' rest', Showing flow t0 (run n v) (S k) step' p' rest' [].
Proof.
  induction m as [|m IH]; intros v k step p rest tail Hm S.
  - destruct rest as [|x rest]; [|cbn in Hm; lia].
    destruct (showing_last_turn _ _ _ _ _ _ _ S) as (v1 & Hv1 & Hnext).
    exists 1. cbn. by rewrite Hv1.
  - destruct rest as [|x rest].
    + destruct (showing_last_turn _ _ _ _ _ _ _ S) as (v1 & Hv1 & Hnext).
      exists 1. cbn. by rewrite Hv1.
    + destruct (showing_turn _ _ _ _ _ _ _ _ _ S) as (v1 & tail' & Hv1 & S' & Hlt).
      destruct (IH v1 k step p rest tail') as (n & Hn); [lia | done |].
      exists (Datatypes.S n). cbn. by rewrite Hv1.
Qed.

(** Autoplay ends. *)
Lemma showing_finishes (flow : Flow.t) (t0 : Z) (j : nat) :
  forall (v : Viewer.t) (k : nat) (step : AnimationStep.t) (p : nat)
         (rest tail : list Timer.t),
    length (Flow.steps flow) - k <= j ->
    Showing flow t0 v k step p rest tail ->
    exists n, Finished flow t0 (run n v).
Proof.
  induction j as [|j IH]; intros v k step p rest tail Hj S.
  - pose proof (lookup_lt_Some _ _ _ (showing_step _ _ _ _ _ _ _ _ S)). lia.
  - destruct (showing_next flow t0 _ v k step p rest tail (le_n _) S)
      as (n & [F | (step' & p' & rest' & S')]).
    + by exists n.
    + destruct (IH (run n v) (Datatypes.S k) step' p' rest' []) as (n' & F); [lia|done|].
      exists (n + n'). by rewrite run_add.
Qed.

Lemma autoplaying_finishes (flow : Flow.t) (t0 : Z) (v : Viewer.t) :
  Autoplaying flow t0 v ->
  exists n, forall m, n <= m -> Finished flow t0 (run m v).
Proof.
  intros [(k & step & p & rest & tail & S) | F].
  - destruct (showing_finishes flow t0 _ v k step p rest tail (le_n _) S) as (n & F).
    exists n. intros m Hm. replace m with (n + (m - n)) by lia.
    rewrite run_add. by rewrite (finished_run _ _ _ _ F).
  - exists 0. intros m _. by rewrite (finished_run _ _ _ _ F).
Qed.

(** Pressing Play on a viewer at rest. *)
Lemma startAutoplay_autoplaying (flows : list Flow.t) (flow : Flow.t) (v : Viewer.t) :
  AtRest v ->
  flows !! Viewer.selectedFlow v = Some flow ->
  Autoplaying flow (Viewer.clock v) (startAutoplay flows v).
Proof.
  intros [Ht (d & Hd & Hclean)] Hflow.
  unfold startAutoplay, runEffect, handleStartAnimation.
  cbn [Viewer.isAnimating setIsAnimating negb Viewer.selectedFlow setIsPaused
       setCurrentStep Viewer.currentStep Viewer.isPaused].
  rewrite Hflow. cbn [Z.ltb Z.compare].
  destruct (animateStep_enters flow (Viewer.clock v)
              (setEffect (Some (Closure.mk flow false 0 None None))
                 (setIsAnimating true (setIsPaused false (setCurrentStep 0 v))))
              0 None d) as [[_ F] | (step & p & rest & S)].
  - done.
  - done.
  - by destruct v.
  - destruct v. cbn. unfold startOf. rewrite take_0. cbn. lia.
  - by destruct v.
  - intros Hnone. split; [|done].
    apply lookup_ge_None_1 in Hnone. lia.
  - by right.
  - left. by exists 0, step, p, rest, [].
Qed.

Lemma startOf_end (flow : Flow.t) (t0 : Z) :
  startOf flow t0 (length (Flow.steps flow)) = (t0 + 2 * totalDelay flow)%Z.
Proof. unfold startOf, totalDelay. by rewrite firstn_all. Qed.



Lemma mounted_atRest (d : Dom.t) :
  (forall n, n ∈ Dom.nodes d -> nodeEmphasised n = false) -> AtRest (mounted (Some d)).
Proof. intros Hd. constructor; [done|]. by exists d. Qed.

Lemma exampleDom_clean (n : Node.t) : n ∈ Dom.nodes exampleDom -> nodeEmphasised n = false.
Proof.
  cbn. intros Hn. repeat (apply elem_of_cons in Hn as [->|Hn]; [reflexivity|]).
  by apply elem_of_nil in Hn.
Qed.


(** [animateStep] on a step of the flow: the diagram it leaves is the
    highlight of the step applied to the cleared diagram. *)
Lemma animateStep_dom (flow : Flow.t) (w : Viewer.t) (d : Dom.t) (k : nat)
    (tid : option nat) (step : AnimationStep.t) :
  Viewer.diagramRef w = Some d ->
  Viewer.effect w = Some (Closure.mk flow false k tid None) ->
  Flow.steps flow !! k = Some step ->
  Viewer.diagramRef (animateStep w)
  = Some (highlightDom (AnimationStep.node step) (AnimationStep.step step)
            (Dom.mk (clearNode <$> Dom.nodes d) (clearArrow <$> Dom.arrows d))).
Proof.
  intros Hd He Hk. destruct w as [sf an pa cs dr ar ck ts ni np ef].
  cbn in Hd, He. subst dr ef. unfold animateStep.
  cbn [Viewer.effect Closure.isPaused Closure.flow Closure.stepIndex]. rewrite Hk.
  match goal with
  | |- context [highlightNode ?q ?du ?sn ?w] =>
      rewrite (highlightNode_spec q du (AnimationStep.step step) w
                 (Dom.mk (clearNode <$> Dom.nodes d) (clearArrow <$> Dom.arrows d))
                 eq_refl)
  end.
  reflexivity.
Qed.

Lemma no_emphasis_count (v : Viewer.t) (d : Dom.t) :
  Viewer.diagramRef v = Some d ->
  (forall n, n ∈ Dom.nodes d -> nodeEmphasised n = false) ->
  emphasisedNodes v = 0.
Proof.
  intros Hd Hclean. unfold emphasisedNodes. rewrite Hd.
  induction (Dom.nodes d) as [|n ns IH]; cbn; [done|].
  rewrite (Hclean n) by left. apply IH. intros n' Hn'. apply Hclean. by right.
Qed.

(** The step shown changes only at a turn before which no node is
    emphasised. *)
Lemma autoplaying_step_change (flow : Flow.t) (t0 : Z) (v : Viewer.t) :
  Autoplaying flow t0 v ->
  Viewer.currentStep (run 1 v) <> Viewer.currentStep v ->
  emphasisedNodes v = 0.
Proof.
  intros [(k & step & p & rest & tail & S) | F] Hchange.
  - destruct rest as [|x rest].
    + destruct (showing_dom _ _ _ _ _ _ _ _ S) as (d & Hd & Hemph).
      apply (no_emphasis_count v d Hd). intros n Hn.
      apply list_elem_of_lookup in Hn as [i Hi].
      destruct (nodeEmphasised n) eqn:En; [|done].
      destruct (Hemph i n Hi En) as (_ & timer & Hin & _).
      by apply elem_of_nil in Hin.
    + destruct (showing_turn _ _ _ _ _ _ _ _ _ S) as (v1 & tail' & Hv1 & S' & _).
      exfalso. apply Hchange. cbn. rewrite Hv1.
      by rewrite (showing_current _ _ _ _ _ _ _ _ S), (showing_current _ _ _ _ _ _ _ _ S').
  - exfalso. apply Hchange. by rewrite (finished_run _ _ _ _ F).
Qed.

(** During autoplay the current step stays between 0 and the number of
    steps of the flow. *)
Lemma autoplaying_currentStep (flow : Flow.t) (t0 : Z) (v : Viewer.t) :
  Autoplaying flow t0 v ->
  (0 <= Viewer.currentStep v <= Z.of_nat (length (Flow.steps flow)))%Z.
Proof.
  intros [(k & step & p & rest & tail & S) | F].
  - rewrite (showing_current _ _ _ _ _ _ _ _ S).
    pose proof (lookup_lt_Some _ _ _ (showing_step _ _ _ _ _ _ _ _ S)). lia.
  - rewrite (finished_current _ _ _ F). lia.
Qed.




(** * Theorems on the further functions *)

(** ** Repository URLs *)

Lemma noSlash_cons (c : ascii) (s : string) :
  noSlash (String c s) <-> c <> "/"%char /\ noSlash s.
Proof.
  unfold noSlash. cbn. split.
  - intros Hn. split; [apply Hn; left|]. intros c' Hc'. apply Hn. by right.
  - intros [Hc Hs] c' Hc'. apply elem_of_cons in Hc' as [->|Hc']; [done | by apply Hs].
Qed.

Lemma string_app_nil_r (s : string) : s +:+ "" = s.
Proof.
  induction s as [|c s IH]; [done|].
  change (String c s +:+ "") with (String c (s +:+ "")). by rewrite IH.
Qed.

Lemma spanNoSlash_app (a rest : string) :
  noSlash a -> endsSegment rest -> spanNoSlash (a +:+ rest) = (a, rest).
Proof.
  intros Ha Hrest. induction a as [|c a IH]; simpl.
  - destruct Hrest as [-> | [r ->]]; [done|]. done.
  - apply noSlash_cons in Ha as [Hc Ha].
    rewrite bool_decide_eq_false_2 by done. by rewrite (IH Ha).
Qed.

Lemma matchOwnerName_app (owner name rest : string) :
  segment owner -> segment name -> endsSegment rest ->
  matchOwnerName (owner +:+ String "/" (name +:+ rest)) = Some (owner, name, rest).
Proof.
  intros [Ho1 Ho2] [Hn1 Hn2] Hrest. unfold matchOwnerName.
  rewrite (spanNoSlash_app owner) by (done || right; eauto).
  destruct owner as [|c owner]; [done|].
  rewrite (spanNoSlash_app name) by done.
  by destruct name.
Qed.

Lemma spanNoSlash_slashes (s : string) :
  slashes s = slashes (snd (spanNoSlash s))
  /\ (snd (spanNoSlash s) = "" \/ exists r, snd (spanNoSlash s) = String "/" r).
Proof.
  induction s as [|c s [IH1 IH2]]; cbn; [by auto|].
  case_bool_decide as Hc.
  - subst c. cbn. split; [done|]. right. by eexists.
  - destruct (spanNoSlash s) as [run rest]. cbn in *. done.
Qed.

Lemma matchOwnerName_slashes (s : string) (m : string * string * string) :
  matchOwnerName s = Some m -> 1 <= slashes s.
Proof.
  unfold matchOwnerName. destruct (spanNoSlash_slashes s) as [Hs Hr].
  destruct (spanNoSlash s) as [owner rest]. cbn in *.
  destruct owner; [done|]. destruct Hr as [-> | [r ->]]; [done|].
  intros _. rewrite Hs. cbn. rewrite bool_decide_eq_true_2 by done. lia.
Qed.

Lemma stripPrefix_Some (p s rest : string) :
  stripPrefix p s = Some rest -> s = p +:+ rest.
Proof.
  revert s. induction p as [|a p IH]; intros s; simpl.
  - by intros [= ->].
  - destruct s as [|b s]; [done|]. case_bool_decide as E; [|done]. subst b.
    intros Hs. by rewrite (IH _ Hs).
Qed.

Lemma slashes_app (s t : string) : slashes (s +:+ t) = slashes s + slashes t.
Proof.
  induction s as [|c s IH]; simpl; [done|]. case_bool_decide; lia.
Qed.

Lemma matchGitHubCom_slashes (url : string) (groups : string * string) :
  matchGitHubCom url = Some groups -> 2 <= slashes url.
Proof.
  induction url as [|c url IH].
  - cbn. done.
  - cbn [matchGitHubCom].
    destruct (stripPrefix "github.com/" (String c url)) as [rest|] eqn:Hp.
    + destruct (matchOwnerName rest) as [[[o n] r]|] eqn:Hm.
      * intros _. apply stripPrefix_Some in Hp. rewrite Hp, slashes_app.
        apply matchOwnerName_slashes in Hm.
        assert (Hg : slashes "github.com/" = 1) by (by vm_compute). lia.
      * intros Hu. apply IH in Hu. cbn. case_bool_decide; lia.
    + intros Hu. apply IH in Hu. cbn. case_bool_decide; lia.
Qed.

Lemma noSlash_slashes (s : string) : noSlash s -> slashes s = 0.
Proof.
  induction s as [|c s IH]; [done|]. intros [Hc Hs]%noSlash_cons. cbn.
  rewrite bool_decide_eq_false_2 by done. by apply IH.
Qed.

Lemma matchGitHubCom_skip (p s : string) :
  noG p -> matchGitHubCom (p +:+ s) = matchGitHubCom s.
Proof.
  intros Hp. induction p as [|c p IH]; [done|].
  assert (Hc : c <> "g"%char) by (apply Hp; left).
  assert (Hp' : noG p) by (intros c' Hc'; apply Hp; by right).
  change (String c p +:+ s) with (String c (p +:+ s)).
  cbn [matchGitHubCom stripPrefix].
  rewrite bool_decide_eq_false_2 by done. by apply IH.
Qed.

Lemma dropDotGit_app (name : string) : dropDotGit (name +:+ ".git") = name.
Proof.
  induction name as [|c name IH]; [by vm_compute|].
  change (String c name +:+ ".git") with (String c (name +:+ ".git")).
  cbn [dropDotGit]. rewrite bool_decide_eq_false_2.
  - by rewrite IH.
  - intros E. apply (f_equal String.length) in E. simpl in E.
    rewrite string_length_app in E. simpl in E. lia.
Qed.

Lemma dropDotGit_id (name : string) :
  (forall n, name <> n +:+ ".git") -> dropDotGit name = name.
Proof.
  induction name as [|c name IH]; [done|]. intros Hn.
  cbn [dropDotGit]. rewrite bool_decide_eq_false_2.
  - rewrite IH; [done|]. intros n ->. by apply (Hn (String c n)).
  - intros E. by apply (Hn "").
Qed.

Lemma parseGitHubUrl_shorthand (owner name : string) :
  segment owner -> segment name ->
  parseGitHubUrl (owner +:+ String "/" name)
  = Some (GitHubRepo.mk owner (dropDotGit name) None).
Proof.
  intros Ho Hn. unfold parseGitHubUrl.
  destruct (matchGitHubCom (owner +:+ String "/" name)) as [groups|] eqn:Hm.
  { apply matchGitHubCom_slashes in Hm. rewrite slashes_app in Hm. cbn in Hm.
    rewrite (noSlash_slashes owner), (noSlash_slashes name) in Hm by apply Ho || apply Hn.
    rewrite bool_decide_eq_true_2 in Hm by done. lia. }
  unfold matchShorthand.
  pose proof (matchOwnerName_app owner name "" Ho Hn (or_introl eq_refl)) as Hs.
  rewrite string_app_nil_r in Hs. by rewrite Hs.
Qed.

Lemma matchGitHubCom_eq (url : string) :
  matchGitHubCom url =
    match (match stripPrefix "github.com/" url with
           | Some rest => matchOwnerName rest
           | None => None
           end) with
    | Some (owner, name, _) => Some (owner, name)
    | None =>
        match url with
        | EmptyString => None
        | String _ url' => matchGitHubCom url'
        end
    end.
Proof. by destruct url. Qed.

Lemma stripPrefix_app (p s : string) : stripPrefix p (p +:+ s) = Some s.
Proof.
  induction p as [|c p IH]; [done|].
  change (String c p +:+ s) with (String c (p +:+ s)). cbn [stripPrefix].
  by rewrite bool_decide_eq_true_2.
Qed.

Lemma segment_noSlash_app (a b : string) : noSlash a -> noSlash b -> noSlash (a +:+ b).
Proof.
  intros Ha Hb. induction a as [|c a IH]; [done|].
  change (String c a +:+ b) with (String c (a +:+ b)).
  apply noSlash_cons in Ha as [Hc Ha]. apply noSlash_cons. split; [done | by apply IH].
Qed.

Lemma validPattern_segment (s : string) : validPattern s = true -> segment s.
Proof.
  unfold validPattern. rewrite andb_true_iff, negb_true_iff, bool_decide_eq_false.
  intros [Hne Hall]. split; [done|].
  intros c Hc ->. rewrite forallb_forall in Hall.
  apply list_elem_of_In in Hc. apply Hall in Hc. by vm_compute in Hc.
Qed.

(** X1.  The shorthand [owner/name]: the two segments are the owner and the
    name, a final [.git] of the name is dropped, once. *)
Theorem parseGitHubUrl_owner_name (owner name : string) :
  segment owner -> segment name ->
  parseGitHubUrl (owner +:+ "/" +:+ name +:+ ".git") = Some (GitHubRepo.mk owner name None)
  /\ ((forall n, name <> n +:+ ".git") ->
      parseGitHubUrl (owner +:+ "/" +:+ name) = Some (GitHubRepo.mk owner name None)).
Proof.
  intros Ho Hn. split.
  - change (owner +:+ "/" +:+ name +:+ ".git")
      with (owner +:+ String "/" (name +:+ ".git")).
    rewrite parseGitHubUrl_shorthand.
    + by rewrite dropDotGit_app.
    + done.
    + split.
      * destruct name; [by destruct Hn | done].
      * apply segment_noSlash_app; [apply Hn|]. by apply noSlash_compute.
  - intros Hgit. change (owner +:+ "/" +:+ name) with (owner +:+ String "/" name).
    rewrite parseGitHubUrl_shorthand by done. by rewrite dropDotGit_id.
Qed.

Lemma parseGitHubUrl_owner_name_witness :
  parseGitHubUrl "vercel/next.js.git" = Some (GitHubRepo.mk "vercel" "next.js" None)
  /\ parseGitHubUrl "vercel/next.js" = Some (GitHubRepo.mk "vercel" "next.js" None).
Proof.
  assert (Ho : segment "vercel") by (split; [done | by apply noSlash_compute]).
  assert (Hn : segment "next.js") by (split; [done | by apply noSlash_compute]).
  destruct (parseGitHubUrl_owner_name "vercel" "next.js" Ho Hn) as [H1 H2].
  split; [exact H1|]. apply H2.
  intros n E. pose proof (f_equal dropDotGit E) as E'.
  rewrite dropDotGit_app in E'. vm_compute in E'. subst n. by vm_compute in E.
Defined.

(** X2.  A URL with [github.com/] in it, after a prefix in which no match can
    begin: owner and name are the two segments that follow, whatever comes
    after them. *)
Theorem parseGitHubUrl_full_url (p owner name rest : string) :
  noG p -> segment owner -> segment name -> endsSegment rest ->
  parseGitHubUrl (p +:+ "github.com/" +:+ owner +:+ "/" +:+ name +:+ rest)
  = Some (GitHubRepo.mk owner (dropDotGit name) None).
Proof.
  intros Hp Ho Hn Hrest. unfold parseGitHubUrl.
  rewrite matchGitHubCom_skip by done.
  rewrite matchGitHubCom_eq, stripPrefix_app.
  change (owner +:+ "/" +:+ name +:+ rest) with (owner +:+ String "/" (name +:+ rest)).
  by rewrite matchOwnerName_app.
Qed.

Lemma parseGitHubUrl_full_url_witness :
  parseGitHubUrl "https://github.com/facebook/react.git/tree/main"
  = Some (GitHubRepo.mk "facebook" "react" None).
Proof.
  apply (parseGitHubUrl_full_url "https://" "facebook" "react.git" "/tree/main").
  - intros c Hc. apply list_elem_of_In in Hc. cbn in Hc.
    intros ->. repeat (destruct Hc as [Hc|Hc]; [discriminate Hc|]). done.
  - split; [done | by apply noSlash_compute].
  - split; [done | by apply noSlash_compute].
  - right. by eexists.
Defined.

Lemma parseGitHubUrl_noSlash (url : string) : noSlash url -> parseGitHubUrl url = None.
Proof.
  intros Hu. unfold parseGitHubUrl.
  destruct (matchGitHubCom url) as [groups|] eqn:Hm.
  { apply matchGitHubCom_slashes in Hm. rewrite noSlash_slashes in Hm by done. lia. }
  unfold matchShorthand, matchOwnerName.
  pose proof (spanNoSlash_app url "" Hu (or_introl eq_refl)) as Hs.
  rewrite string_app_nil_r in Hs. rewrite Hs. by destruct url.
Qed.

Lemma validateRepoUrl_shorthand (owner name : string) :
  segment owner -> segment name -> (forall n, name <> n +:+ ".git") ->
  parseGitHubUrl (owner +:+ "/" +:+ name) = Some (GitHubRepo.mk owner name None)
  /\ validateRepoUrl (owner +:+ "/" +:+ name)
     = if validPattern owner && validPattern name
       then Validation.mk true None
       else Validation.mk false (Some "Invalid characters in repository name").
Proof.
  intros Ho Hn Hgit. unfold validateRepoUrl.
  change (owner +:+ "/" +:+ name) with (owner +:+ String "/" name).
  rewrite (parseGitHubUrl_shorthand owner name Ho Hn), dropDotGit_id by done.
  split; [done|]. cbn.
  rewrite !bool_decide_eq_false_2 by (apply Ho || apply Hn). cbn.
  by destruct (validPattern owner), (validPattern name).
Qed.

(** X3.  What [validateRepoUrl] answers: a text without a slash is no repository
    URL; [owner/.git] has an empty name; for [owner/name] the answer depends
    on the characters of the two segments alone. *)
Theorem validateRepoUrl_answers (url owner name : string) :
  (noSlash url ->
   validateRepoUrl url = Validation.mk false (Some "Invalid GitHub repository URL"))
  /\ (segment owner ->
      validateRepoUrl (owner +:+ "/.git")
      = Validation.mk false (Some "Invalid repository format"))
  /\ (segment owner -> segment name -> (forall n, name <> n +:+ ".git") ->
      validateRepoUrl (owner +:+ "/" +:+ name)
      = if validPattern owner && validPattern name
        then Validation.mk true None
        else Validation.mk false (Some "Invalid characters in repository name")).
Proof.
  split; [|split].
  - intros Hu. unfold validateRepoUrl. by rewrite parseGitHubUrl_noSlash.
  - intros Ho. unfold validateRepoUrl.
    assert (Hg : segment ".git") by (split; [done | by apply noSlash_compute]).
    change (owner +:+ "/.git") with (owner +:+ String "/" ".git").
    rewrite (parseGitHubUrl_shorthand owner ".git" Ho Hg). cbn.
    by rewrite orb_true_r.
  - intros Ho Hn Hgit. by apply validateRepoUrl_shorthand.
Qed.

Lemma validateRepoUrl_answers_witness :
  validateRepoUrl "react" = Validation.mk false (Some "Invalid GitHub repository URL")
  /\ validateRepoUrl "facebook/.git" = Validation.mk false (Some "Invalid repository format")
  /\ validateRepoUrl "facebook/re act"
     = Validation.mk false (Some "Invalid characters in repository name").
Proof.
  assert (Ho : segment "facebook") by (split; [done | by apply noSlash_compute]).
  assert (Hn : segment "re act") by (split; [done | by apply noSlash_compute]).
  destruct (validateRepoUrl_answers "react" "facebook" "re act") as (H1 & H2 & H3).
  split; [apply H1; by apply noSlash_compute|]. split; [by apply H2|].
  apply (H3 Ho Hn). intros n E. pose proof (f_equal dropDotGit E) as E'.
  rewrite dropDotGit_app in E'. vm_compute in E'. subst n. by vm_compute in E.
Defined.

Lemma validateRepoUrl_valid (url : string) :
  Validation.valid (validateRepoUrl url) = true ->
  exists repo,
    parseGitHubUrl url = Some repo
    /\ validPattern (GitHubRepo.owner repo) = true
    /\ validPattern (GitHubRepo.name repo) = true
    /\ GitHubRepo.branch repo = None.
Proof.
  unfold validateRepoUrl.
  destruct (parseGitHubUrl url) as [repo|] eqn:Hp; [|done].
  destruct (bool_decide (GitHubRepo.owner repo = "") || bool_decide (GitHubRepo.name repo = ""));
    [done|].
  destruct (validPattern (GitHubRepo.owner repo)) eqn:Ho; [|done].
  destruct (validPattern (GitHubRepo.name repo)) eqn:Hn; [|done].
  intros _. exists repo. split; [done|]. split; [done|]. split; [done|].
  revert Hp. unfold parseGitHubUrl.
  destruct (match matchGitHubCom url with Some g => Some g | None => matchShorthand url end)
    as [[o n]|]; [|done].
  by intros [= <-].
Qed.

(** X4.  Two URLs that [validateRepoUrl] accepts and whose repositories have the
    same key name the same repository. *)
Theorem validated_repos_same_key (url1 url2 : string) (repo1 repo2 : GitHubRepo.t) :
  Validation.valid (validateRepoUrl url1) = true ->
  Validation.valid (validateRepoUrl url2) = true ->
  parseGitHubUrl url1 = Some repo1 ->
  parseGitHubUrl url2 = Some repo2 ->
  getRepoKey repo1 = getRepoKey repo2 ->
  repo1 = repo2.
Proof.
  intros (r1 & Hp1 & Ho1 & Hn1 & Hb1)%validateRepoUrl_valid
         (r2 & Hp2 & Ho2 & Hn2 & Hb2)%validateRepoUrl_valid E1 E2 Hkey.
  rewrite E1 in Hp1. rewrite E2 in Hp2. injection Hp1 as <-. injection Hp2 as <-.
  apply validPattern_segment in Ho1 as [_ Ho1]. apply validPattern_segment in Ho2 as [_ Ho2].
  unfold getRepoKey in Hkey.
  apply (owner_split _ _ _ _ Ho1 Ho2) in Hkey as [Hown Hname].
  destruct repo1, repo2; cbn in *; by subst.
Qed.

Lemma validated_repos_same_key_witness :
  GitHubRepo.mk "vercel" "next.js" None = GitHubRepo.mk "vercel" "next.js" None.
Proof.
  apply (validated_repos_same_key "github.com/vercel/next.js" "vercel/next.js.git");
    by vm_compute.
Defined.

(** ** The key-value store and the blob store *)

Lemma kv_get_fresh (key value : string) (ex ms : Z) (w : World.t) :
  (ex = 0 \/ (0 < ex /\ ms <= ex * 1000))%Z ->
  kv_get key (elapse ms (kv_set key value ex w))
  = (elapse ms (kv_set key value ex w), Some value).
Proof.
  intros Hms. unfold kv_get. cbn. rewrite lookup_insert_eq. unfold expired. cbn.
  destruct (ex =? 0)%Z eqn:E0; cbn; [done|].
  apply Z.eqb_neq in E0. destruct Hms as [? | [Hex Hms]]; [done|].
  assert ((World.now w + ex * 1000 <? World.now w + Z.max 0 ms)%Z = false) as ->
    by (apply Z.ltb_ge; lia).
  by rewrite andb_false_r.
Qed.

Lemma kv_get_stale (key value : string) (ex ms : Z) (w : World.t) :
  (0 <= World.now w)%Z -> (0 < ex)%Z -> (ex * 1000 < ms)%Z ->
  kv_get key (elapse ms (kv_set key value ex w))
  = (setMemoryStore (delete key (World.memoryStore (kv_set key value ex w)))
       (elapse ms (kv_set key value ex w)), None).
Proof.
  intros Hnow Hex Hms. unfold kv_get. cbn. rewrite lookup_insert_eq. unfold expired. cbn.
  assert ((ex =? 0)%Z = false) as -> by (apply Z.eqb_neq; lia). cbn.
  assert ((World.now w + ex * 1000 =? 0)%Z = false) as -> by (apply Z.eqb_neq; lia).
  by assert ((World.now w + ex * 1000 <? World.now w + Z.max 0 ms)%Z = true) as ->
    by (apply Z.ltb_lt; lia).
Qed.

(** X5.  [kvClient.set] and [kvClient.get]: a value set with a time to live of
    [ex] seconds is read back up to and including [ex * 1000] milliseconds
    later; after that the read gives [null] and removes the entry.  A value
    set without a time to live is read back at any later time. *)
Theorem kv_set_get_ttl (key value : string) (ex ms : Z) (w : World.t) :
  (0 <= World.now w)%Z -> (0 < ex)%Z ->
  let later := elapse ms (kv_set key value ex w) in
  snd (kv_get key later) = (if (ms <=? ex * 1000)%Z then Some value else None)
  /\ ((ex * 1000 < ms)%Z -> World.memoryStore (fst (kv_get key later)) !! key = None)
  /\ snd (kv_get key (elapse ms (kv_set key value 0 w))) = Some value.
Proof.
  intros Hnow Hex later. subst later. split; [|split].
  - destruct (ms <=? ex * 1000)%Z eqn:E.
    + rewrite kv_get_fresh by lia. done.
    + rewrite kv_get_stale by lia. done.
  - intros Hms. rewrite kv_get_stale by lia. cbn. apply lookup_delete_eq.
  - rewrite kv_get_fresh by lia. done.
Qed.

Lemma kv_set_get_ttl_witness :
  snd (kv_get "k" (elapse 5000 (kv_set "k" "v" 5 exampleWorld))) = Some "v"
  /\ snd (kv_get "k" (elapse 5001 (kv_set "k" "v" 5 exampleWorld))) = None.
Proof.
  split.
  - exact (proj1 (kv_set_get_ttl "k" "v" 5 5000 exampleWorld ltac:(cbn; lia) ltac:(lia))).
  - exact (proj1 (kv_set_get_ttl "k" "v" 5 5001 exampleWorld ltac:(cbn; lia) ltac:(lia))).
Defined.

Lemma kv_get_snd (key : string) (w : World.t) :
  snd (kv_get key w) =
    match World.memoryStore w !! key with
    | None => None
    | Some item => if expired (World.now w) item then None else Some (Item.value item)
    end.
Proof.
  unfold kv_get. destruct (World.memoryStore w !! key) as [item|]; [|done].
  by destruct (expired (World.now w) item).
Qed.

Lemma kv_get_fst (key key' : string) (w : World.t) :
  key <> key' ->
  World.memoryStore (fst (kv_get key w)) !! key' = World.memoryStore w !! key'
  /\ World.now (fst (kv_get key w)) = World.now w
  /\ World.memoryBlobs (fst (kv_get key w)) = World.memoryBlobs w
  /\ World.statusLog (fst (kv_get key w)) = World.statusLog w.
Proof.
  intros Hne. unfold kv_get. destruct (World.memoryStore w !! key) as [item|]; [|done].
  destruct (expired (World.now w) item); [|done]. cbn. by rewrite lookup_delete_ne.
Qed.

Lemma kv_get_other (key key' : string) (w : World.t) :
  key <> key' -> snd (kv_get key' (fst (kv_get key w))) = snd (kv_get key' w).
Proof.
  intros Hne. rewrite !kv_get_snd.
  destruct (kv_get_fst key key' w Hne) as (-> & -> & _). done.
Qed.

(** X6.  The three operations of [kvClient] on one key leave what is read under
    every other key as it was, and a deleted key reads as [null]. *)
Theorem kv_keys_independent (key key' value : string) (ex : Z) (w : World.t) :
  key <> key' ->
  snd (kv_get key' (kv_set key value ex w)) = snd (kv_get key' w)
  /\ snd (kv_get key' (kv_del key w)) = snd (kv_get key' w)
  /\ snd (kv_get key' (fst (kv_get key w))) = snd (kv_get key' w)
  /\ snd (kv_get key (kv_del key w)) = None.
Proof.
  intros Hne. split; [|split; [|split]].
  - rewrite !kv_get_snd. cbn. by rewrite lookup_insert_ne.
  - rewrite !kv_get_snd. cbn. by rewrite lookup_delete_ne.
  - by apply kv_get_other.
  - rewrite kv_get_snd. cbn. by rewrite lookup_delete_eq.
Qed.

Lemma kv_keys_independent_witness :
  snd (kv_get "b" (kv_set "a" "1" 60 (kv_set "b" "2" 0 exampleWorld))) = Some "2".
Proof.
  rewrite (proj1 (kv_keys_independent "a" "b" "1" 60 (kv_set "b" "2" 0 exampleWorld)
                    ltac:(done))).
  reflexivity.
Defined.

(** X7.  [blobClient] in development mode: a blob that was put exists and is
    found under the URL that [getUrl] gives; it is read back unless it is
    the empty text, which reads as [null]; other keys are left alone. *)
Theorem blob_put_get_head (key data : string) (w : World.t) :
  let w' := fst (blob_put key data w) in
  blob_head key w' = true
  /\ blob_get key w' = (if bool_decide (data = "") then None else Some data)
  /\ snd (blob_put key data w) = blob_getUrl key
  /\ (forall key', key' <> key ->
        blob_get key' w' = blob_get key' w /\ blob_head key' w' = blob_head key' w)
  /\ (forall key', blob_head key' w = false -> blob_get key' w = None).
Proof.
  cbn. unfold blob_head, blob_get. cbn. rewrite lookup_insert_eq.
  split; [by apply bool_decide_eq_true_2|]. split; [done|]. split; [done|]. split.
  - intros key' Hne. by rewrite lookup_insert_ne.
  - intros key' Hh. apply bool_decide_eq_false in Hh.
    destruct (World.memoryBlobs w !! key'); [|done]. exfalso. apply Hh. by eexists.
Qed.

(** ** The life of a job *)

Section JobLife.
Context `{JSON AnalysisJob.t}.

Lemma jobKey_inj (id id' : string) : jobKey id = jobKey id' -> id = id'.
Proof. unfold jobKey, ANALYSIS_PREFIX. intros [= E]. exact E. Qed.

Lemma readJob_kv (id : string) (w : World.t) :
  readJob id w =
    match snd (kv_get (jobKey id) w) with
    | None => None
    | Some data => if bool_decide (data = "") then None else JSON_parse data
    end.
Proof.
  unfold readJob, getAnalysisJob. destruct (kv_get (jobKey id) w) as [w' [data|]]; [|done].
  cbn. by case_bool_decide.
Qed.

Lemma getAnalysisJob_Some (id : string) (w : World.t) (job : AnalysisJob.t) :
  readJob id w = Some job -> getAnalysisJob id w = (w, Some job).
Proof.
  unfold readJob, getAnalysisJob, kv_get.
  destruct (World.memoryStore w !! jobKey id) as [item|]; [|done].
  destruct (expired (World.now w) item); [done|].
  case_bool_decide; [done|]. cbn. by intros ->.
Qed.

Lemma writeJob_lifetime (id : string) (job : AnalysisJob.t) (ms : Z) (w : World.t) :
  JSONSerializable job -> (0 <= World.now w)%Z ->
  readJob id (elapse ms (writeJob job id w)) = if (ms <=? HOUR)%Z then Some job else None.
Proof.
  intros [Hparse Hne] Hnow. rewrite readJob_kv. unfold writeJob.
  change (elapse ms (logStatus id (AnalysisJob.status job)
            (kv_set (jobKey id) (JSON_stringify job) ANALYSIS_TTL w)))
    with (logStatus id (AnalysisJob.status job)
            (elapse ms (kv_set (jobKey id) (JSON_stringify job) ANALYSIS_TTL w))).
  assert (Hlog : forall key s w0, snd (kv_get key (logStatus id s w0)) = snd (kv_get key w0))
    by (intros; by rewrite !kv_get_snd).
  rewrite Hlog. unfold HOUR.
  destruct (ms <=? 3600000)%Z eqn:E.
  - rewrite kv_get_fresh by (right; unfold ANALYSIS_TTL; lia). cbn.
    by rewrite bool_decide_eq_false_2.
  - rewrite kv_get_stale by (unfold ANALYSIS_TTL; lia). done.
Qed.

Lemma writeJob_onlyJob (id : string) (job : AnalysisJob.t) (w : World.t) :
  onlyJob id w (writeJob job id w).
Proof.
  unfold onlyJob, writeJob. cbn. split; [done|]. split; [done|].
  assert (Hk : forall key, key <> jobKey id ->
            snd (kv_get key (logStatus id (AnalysisJob.status job)
                   (kv_set (jobKey id) (JSON_stringify job) ANALYSIS_TTL w)))
            = snd (kv_get key w)).
  { intros key Hne. rewrite !kv_get_snd. cbn. by rewrite lookup_insert_ne. }
  split; [exact Hk|].
  intros id' Hne. rewrite !readJob_kv, Hk; [done|].
  intros E. by apply jobKey_inj in E.
Qed.

Lemma getAnalysisJob_onlyJob (id : string) (w : World.t) :
  onlyJob id w (fst (getAnalysisJob id w)).
Proof.
  assert (Hf : fst (getAnalysisJob id w) = fst (kv_get (jobKey id) w)).
  { unfold getAnalysisJob. destruct (kv_get (jobKey id) w) as [w' [data|]]; [|done].
    by case_bool_decide. }
  rewrite Hf. unfold onlyJob.
  assert (Hk : forall key, key <> jobKey id ->
            snd (kv_get key (fst (kv_get (jobKey id) w))) = snd (kv_get key w))
    by (intros key Hne; by apply kv_get_other).
  split; [|split; [|split; [exact Hk|]]].
  - unfold kv_get. destruct (World.memoryStore w !! jobKey id) as [item|]; [|done].
    by destruct (expired (World.now w) item).
  - unfold kv_get. destruct (World.memoryStore w !! jobKey id) as [item|]; [|done].
    by destruct (expired (World.now w) item).
  - intros id' Hne. rewrite !readJob_kv, Hk; [done|].
    intros E. by apply jobKey_inj in E.
Qed.

Lemma onlyJob_trans (id : string) (w1 w2 w3 : World.t) :
  onlyJob id w1 w2 -> onlyJob id w2 w3 -> onlyJob id w1 w3.
Proof.
  intros (A1 & A2 & A3 & A4) (B1 & B2 & B3 & B4). unfold onlyJob.
  split; [congruence|]. split; [congruence|]. split.
  - intros key Hne. rewrite B3, A3; done.
  - intros id' Hne. rewrite B4, A4; done.
Qed.

Lemma jobOp_onlyJob (id : string) (w : World.t) (op : AnalysisJob.t -> AnalysisJob.t) :
  onlyJob id w
    (match getAnalysisJob id w with
     | (w', None) => w'
     | (w', Some job) => writeJob (op job) id w'
     end).
Proof.
  pose proof (getAnalysisJob_onlyJob id w) as Hg.
  destruct (getAnalysisJob id w) as [w' [job|]]; cbn in Hg; [|done].
  apply (onlyJob_trans id w w'); [done | apply writeJob_onlyJob].
Qed.

(** X8.  A job that was created is read back, as it was written, for one hour;
    after that it is gone. *)
Theorem createAnalysisJob_lifetime (id : string) (repo : GitHubRepo.t) (ms : Z)
    (w : World.t) :
  JSONSerializable (newJob id repo (World.now w)) -> (0 <= World.now w)%Z ->
  readJob id (elapse ms (createAnalysisJob id repo w))
  = if (ms <=? HOUR)%Z then Some (newJob id repo (World.now w)) else None.
Proof.
  intros Hs Hnow.
  exact (writeJob_lifetime id (newJob id repo (World.now w)) ms w Hs Hnow).
Qed.

(** X9.  Each of the three operations on a job that is there writes the job
    back with its identifier, repository and creation time, and with a new
    hour to live: [updateAnalysisStatus] with the status given,
    [completeAnalysisJob] with the complete status and the result,
    [failAnalysisJob] with the error status and the result it had. *)
Theorem job_update_lifetime (id : string) (status : AnalysisStatus.t)
    (result : ArchitectureAnalysis.t) (error_ : string) (ms : Z)
    (w : World.t) (job : AnalysisJob.t) :
  (forall j : AnalysisJob.t, JSONSerializable j) -> (0 <= World.now w)%Z ->
  readJob id w = Some job ->
  readJob id (elapse ms (updateAnalysisStatus id status w))
  = (if (ms <=? HOUR)%Z then Some (withStatus status (AnalysisJob.result job) job) else None)
  /\ readJob id (elapse ms (completeAnalysisJob id result w))
     = (if (ms <=? HOUR)%Z then Some (withStatus completeStatus (Some result) job) else None)
  /\ readJob id (elapse ms (failAnalysisJob id error_ w))
     = (if (ms <=? HOUR)%Z
        then Some (withStatus (errorStatus error_) (AnalysisJob.result job) job) else None).
Proof.
  intros Hs Hnow Hjob. apply getAnalysisJob_Some in Hjob.
  unfold updateAnalysisStatus, completeAnalysisJob, failAnalysisJob. rewrite Hjob.
  split; [|split]; by apply writeJob_lifetime.
Qed.

(** X10.  The operations on job [id] change nothing but the entry of that job:
    other jobs, other keys of the store and the blobs read as before. *)
Theorem job_operations_local (id : string) (repo : GitHubRepo.t)
    (status : AnalysisStatus.t) (result : ArchitectureAnalysis.t) (error_ : string)
    (w : World.t) :
  onlyJob id w (createAnalysisJob id repo w)
  /\ onlyJob id w (fst (getAnalysisJob id w))
  /\ onlyJob id w (updateAnalysisStatus id status w)
  /\ onlyJob id w (completeAnalysisJob id result w)
  /\ onlyJob id w (failAnalysisJob id error_ w).
Proof.
  split; [apply writeJob_onlyJob|]. split; [apply getAnalysisJob_onlyJob|].
  split; [|split]; apply jobOp_onlyJob.
Qed.

End JobLife.

Lemma createAnalysisJob_lifetime_witness :
  @readJob refJob "job-1" (elapse HOUR (@createAnalysisJob refJob "job-1" exampleRepo exampleWorld))
  = Some (newJob "job-1" exampleRepo 1000)
  /\ @readJob refJob "job-1"
       (elapse (HOUR + 1) (@createAnalysisJob refJob "job-1" exampleRepo exampleWorld))
     = None.
Proof.
  split.
  - exact (@createAnalysisJob_lifetime refJob "job-1" exampleRepo HOUR exampleWorld
             (refJSON_serializable _) ltac:(cbn; lia)).
  - exact (@createAnalysisJob_lifetime refJob "job-1" exampleRepo (HOUR + 1) exampleWorld
             (refJSON_serializable _) ltac:(cbn; lia)).
Defined.



(** ** Cache metadata and stored analyses *)

Section CacheAndStorage.
Context `{JSON AnalysisJob.t} `{JSON ArchitectureAnalysis.t} `{JSON CacheMetadata.t}.

Lemma getCacheMetadata_kv (repo : GitHubRepo.t) (w : World.t) :
  snd (getCacheMetadata repo w) =
    match snd (kv_get (CACHE_PREFIX +:+ getRepoKey repo) w) with
    | None => None
    | Some data => if bool_decide (data = "") then None else JSON_parse data
    end.
Proof.
  unfold getCacheMetadata.
  destruct (kv_get (CACHE_PREFIX +:+ getRepoKey repo) w) as [w' [data|]]; [|done].
  cbn. by case_bool_decide.
Qed.

(** X11.  The metadata set for a repository is read back, with the key of the
    repository in it, for seven days; after that it is gone. *)
Theorem setCacheMetadata_lifetime (repo : GitHubRepo.t) (timestamp : Z) (blobUrl : string)
    (ms : Z) (w : World.t) :
  let data := CacheMetadata.mk (getRepoKey repo) timestamp blobUrl in
  JSONSerializable data -> (0 <= World.now w)%Z ->
  snd (getCacheMetadata repo (elapse ms (setCacheMetadata repo timestamp blobUrl w)))
  = if (ms <=? WEEK)%Z then Some data else None.
Proof.
  intros data [Hparse Hne] Hnow. rewrite getCacheMetadata_kv. unfold setCacheMetadata, WEEK.
  destruct (ms <=? 604800000)%Z eqn:E.
  - rewrite kv_get_fresh by (right; unfold CACHE_TTL; lia). cbn.
    by rewrite bool_decide_eq_false_2.
  - rewrite kv_get_stale by (unfold CACHE_TTL; lia). done.
Qed.

(** X12.  [invalidateCache] removes the metadata of the repository and nothing
    else: the stored analysis is still there and is still served, and the
    jobs are as they were. *)
Theorem invalidateCache_effect (repo : GitHubRepo.t) (w : World.t) :
  let w' := invalidateCache repo w in
  snd (getCacheMetadata repo w') = None
  /\ (forall repo', getAnalysis repo' w' = getAnalysis repo' w)
  /\ (forall repo', hasAnalysis repo' w' = hasAnalysis repo' w)
  /\ (forall id, readJob id w' = readJob id w).
Proof.
  cbn. split; [|split; [|split]].
  - rewrite getCacheMetadata_kv. unfold invalidateCache.
    rewrite kv_get_snd. cbn. by rewrite lookup_delete_eq.
  - done.
  - done.
  - intros id. rewrite !readJob_kv. unfold invalidateCache.
    rewrite !kv_get_snd. cbn. rewrite lookup_delete_ne; [done|]. apply jobKey_not_cache.
Qed.

(** X13.  [hasAnalysis] and [getAnalysis]: an analysis that is read exists; one
    that does not exist is not read; after [saveAnalysis] it exists, whatever
    its text. *)
Theorem hasAnalysis_getAnalysis (repo : GitHubRepo.t) (analysis : ArchitectureAnalysis.t)
    (w : World.t) :
  (getAnalysis repo w <> None -> hasAnalysis repo w = true)
  /\ (hasAnalysis repo w = false -> getAnalysis repo w = None)
  /\ hasAnalysis repo (fst (saveAnalysis repo analysis w)) = true.
Proof.
  unfold hasAnalysis, getAnalysis, blob_head, blob_get, saveAnalysis. cbn.
  rewrite lookup_insert_eq.
  destruct (World.memoryBlobs w !! analysisKey repo) as [data|].
  - split; [intros _; by apply bool_decide_eq_true_2|]. split; [|by apply bool_decide_eq_true_2].
    intros Hh. apply bool_decide_eq_false in Hh. exfalso. apply Hh. by eexists.
  - split; [done|]. split; [done|]. by apply bool_decide_eq_true_2.
Qed.

End CacheAndStorage.

Lemma setCacheMetadata_lifetime_witness :
  snd (@getCacheMetadata refMetadata exampleRepo
         (elapse WEEK (@setCacheMetadata refMetadata exampleRepo 1000 "url" exampleWorld)))
  = Some (CacheMetadata.mk "acme/widgets" 1000 "url").
Proof.
  exact (@setCacheMetadata_lifetime refMetadata exampleRepo 1000 "url" WEEK exampleWorld
           (refJSON_serializable _) ltac:(cbn; lia)).
Defined.

(** ** A run of the orchestrator *)

Lemma elapse_zero (w : World.t) : elapse 0 w = w.
Proof. destruct w as [s b n l]. unfold elapse. cbn. by rewrite Z.add_0_r. Qed.

Lemma kv_set_get_now (key value : string) (ex : Z) (w : World.t) :
  (0 <= ex)%Z -> snd (kv_get key (kv_set key value ex w)) = Some value.
Proof.
  intros Hex. rewrite <- (elapse_zero (kv_set key value ex w)).
  rewrite kv_get_fresh; [done|]. lia.
Qed.

Section Run.
Context `{JSON AnalysisJob.t} `{JSON ArchitectureAnalysis.t} `{JSON CacheMetadata.t}.

Lemma jobOp_fresh (id : string) (w : World.t) (job : AnalysisJob.t)
    (op : AnalysisJob.t -> AnalysisJob.t) (ms : Z) :
  JSONSerializable (op job) -> readJob id w = Some job -> (ms <= HOUR)%Z ->
  readJob id (elapse ms
    (match getAnalysisJob id w with
     | (w', None) => w'
     | (w', Some job) => writeJob (op job) id w'
     end)) = Some (op job).
Proof.
  intros [Hparse Hne] Hjob Hms. rewrite (getAnalysisJob_Some id w job Hjob).
  rewrite readJob_kv. unfold writeJob.
  change (elapse ms (logStatus id (AnalysisJob.status (op job))
            (kv_set (jobKey id) (JSON_stringify (op job)) ANALYSIS_TTL w)))
    with (logStatus id (AnalysisJob.status (op job))
            (elapse ms (kv_set (jobKey id) (JSON_stringify (op job)) ANALYSIS_TTL w))).
  assert (Hlog : forall key s w0, snd (kv_get key (logStatus id s w0)) = snd (kv_get key w0))
    by (intros; by rewrite !kv_get_snd).
  rewrite Hlog, kv_get_fresh by (right; unfold ANALYSIS_TTL, HOUR in *; lia). cbn.
  by rewrite bool_decide_eq_false_2.
Qed.

Lemma update_fresh (id : string) (status : AnalysisStatus.t) (w : World.t)
    (job : AnalysisJob.t) (ms : Z) :
  (forall j : AnalysisJob.t, JSONSerializable j) ->
  readJob id w = Some job -> (ms <= HOUR)%Z ->
  readJob id (elapse ms (updateAnalysisStatus id status w))
  = Some (withStatus status (AnalysisJob.result job) job).
Proof.
  intros Hs Hjob Hms.
  exact (jobOp_fresh id w job (fun j => withStatus status (AnalysisJob.result j) j) ms
           (Hs _) Hjob Hms).
Qed.

Lemma update_now (id : string) (status : AnalysisStatus.t) (w : World.t)
    (job : AnalysisJob.t) :
  (forall j : AnalysisJob.t, JSONSerializable j) ->
  readJob id w = Some job ->
  readJob id (updateAnalysisStatus id status w)
  = Some (withStatus status (AnalysisJob.result job) job).
Proof.
  intros Hs Hjob. rewrite <- (elapse_zero (updateAnalysisStatus id status w)).
  apply update_fresh; [done | done | unfold HOUR; lia].
Qed.

Lemma readJob_saveAnalysis (id : string) (repo : GitHubRepo.t)
    (analysis : ArchitectureAnalysis.t) (w : World.t) :
  readJob id (fst (saveAnalysis repo analysis w)) = readJob id w.
Proof. by rewrite !readJob_kv, !kv_get_snd. Qed.

Lemma readJob_setCacheMetadata (id : string) (repo : GitHubRepo.t) (timestamp : Z)
    (blobUrl : string) (w : World.t) :
  readJob id (setCacheMetadata repo timestamp blobUrl w) = readJob id w.
Proof.
  rewrite !readJob_kv, !kv_get_snd. unfold setCacheMetadata. cbn.
  rewrite lookup_insert_ne; [done|]. apply jobKey_not_cache.
Qed.

(** The state of the server before the last step of a successful run, and
    that last step. *)
Lemma runAnalysis_Analysed (env : ProcessEnv.t) (ext : Services.t) (id : string)
    (repo : GitHubRepo.t) (w : World.t) (t1 t2 : Z) (analysis : Analysis.t) :
  outcome env ext repo = Analysed t1 t2 analysis ->
  exists buffer s10 s30 s50 s80,
    downloadOf env ext repo = Fulfilled t1 buffer
    /\ analyzeWithClaude env ext repo buffer = Fulfilled t2 analysis
    /\ let u4 := updateAnalysisStatus id s80
                   (elapse t2 (updateAnalysisStatus id s50
                      (updateAnalysisStatus id s30
                         (elapse t1 (updateAnalysisStatus id s10 w))))) in
       let full := fullAnalysis analysis (World.now u4) repo in
       runAnalysis env ext id repo w
       = completeAnalysisJob id full
           (setCacheMetadata repo (World.now u4) (blob_getUrl (analysisKey repo))
              (fst (saveAnalysis repo full u4)))
       /\ AnalysisStatus.progress <$> [s10; s30; s50; s80] = [10; 30; 50; 80]%Z.
Proof.
  unfold outcome. intros Ho.
  destruct (downloadOf env ext repo) as [t1' buffer|t1' e] eqn:Hd; [|done].
  destruct (analyzeWithClaude env ext repo buffer) as [t2' analysis'|t2' e] eqn:Ha; [|done].
  injection Ho as -> -> ->.
  exists buffer. do 4 eexists. split; [done|]. split; [done|].
  unfold runAnalysis.
  change (if unset (ProcessEnv.GITHUB_TOKEN env) && unset (ProcessEnv.ANTHROPIC_API_KEY env)
          then Fulfilled 0 [] else Services.downloadRepoTarball ext repo)
    with (downloadOf env ext repo).
  rewrite Hd, Ha. split; reflexivity.
Qed.

Lemma jobOp_now (id : string) (w : World.t) (op : AnalysisJob.t -> AnalysisJob.t) :
  let w' := match getAnalysisJob id w with
            | (w', None) => w'
            | (w', Some job) => writeJob (op job) id w'
            end in
  World.now w' = World.now w /\ World.memoryBlobs w' = World.memoryBlobs w
  /\ forall key, key <> jobKey id -> snd (kv_get key w') = snd (kv_get key w).
Proof.
  destruct (jobOp_onlyJob id w op) as (A & B & C & _). done.
Qed.

(** A run whose two service calls succeed stores the analysis under the key
    of the repository and records its metadata, whether or not the job of
    the run is there. *)
Lemma runAnalysis_storage (env : ProcessEnv.t) (ext : Services.t) (id : string)
    (repo : GitHubRepo.t) (w : World.t) (t1 t2 : Z) (analysis : Analysis.t) :
  Faithful ->
  outcome env ext repo = Analysed t1 t2 analysis ->
  let w' := runAnalysis env ext id repo w in
  let now' := (World.now w + Z.max 0 t1 + Z.max 0 t2)%Z in
  World.now w' = now'
  /\ getAnalysis repo w' = Some (fullAnalysis analysis now' repo)
  /\ snd (getCacheMetadata repo w') = Some (metadataOf repo now').
Proof.
  intros (_ & Hsa & Hsm) Ho w' now'. subst w'.
  destruct (runAnalysis_Analysed env ext id repo w t1 t2 analysis Ho)
    as (buffer & s10 & s30 & s50 & s80 & _ & _ & Hrun & _).
  cbn zeta in Hrun. rewrite Hrun. clear Hrun.
  set (u4 := updateAnalysisStatus id s80 _).
  assert (Hnow : World.now u4 = now').
  { subst u4 now'. unfold updateAnalysisStatus.
    rewrite (proj1 (jobOp_now id _ _)). cbn [elapse World.now].
    rewrite (proj1 (jobOp_now id _ _)), (proj1 (jobOp_now id _ _)). cbn [elapse World.now].
    by rewrite (proj1 (jobOp_now id _ _)). }
  rewrite Hnow.
  set (full := fullAnalysis analysis now' repo).
  set (w8 := setCacheMetadata repo now' _ _).
  assert (World.now (completeAnalysisJob id full w8) = World.now w8
          /\ World.memoryBlobs (completeAnalysisJob id full w8) = World.memoryBlobs w8
          /\ forall key, key <> jobKey id ->
               snd (kv_get key (completeAnalysisJob id full w8)) = snd (kv_get key w8))
    as (Cn & Cb & Ck)
    by exact (jobOp_now id w8 (withStatus completeStatus (Some full))).
  split; [|split].
  - rewrite Cn. subst w8. cbn. exact Hnow.
  - unfold getAnalysis, blob_get. rewrite Cb. subst w8. cbn.
    rewrite lookup_insert_eq. destruct (Hsa full) as [Hparse Hne].
    by rewrite bool_decide_eq_false_2.
  - rewrite getCacheMetadata_kv, Ck by apply jobKey_not_cache.
    subst w8. unfold setCacheMetadata.
    rewrite kv_set_get_now by (unfold CACHE_TTL; lia).
    destruct (Hsm (metadataOf repo now')) as [Hparse Hne].
    unfold metadataOf in *. by rewrite bool_decide_eq_false_2.
Qed.

End Run.

Section RunTheorems.
Context `{JSON AnalysisJob.t} `{JSON ArchitectureAnalysis.t} `{JSON CacheMetadata.t}.

Lemma jobOp_log (id : string) (w : World.t) (job : AnalysisJob.t)
    (op : AnalysisJob.t -> AnalysisJob.t) :
  readJob id w = Some job ->
  World.statusLog
    (match getAnalysisJob id w with
     | (w', None) => w'
     | (w', Some job) => writeJob (op job) id w'
     end) = World.statusLog w ++ [(id, AnalysisJob.status (op job))].
Proof. intros Hjob. by rewrite (getAnalysisJob_Some id w job Hjob). Qed.

Lemma jobOp_store (id : string) (w : World.t) (op : AnalysisJob.t -> AnalysisJob.t)
    (key : string) :
  key <> jobKey id ->
  World.memoryStore
    (match getAnalysisJob id w with
     | (w', None) => w'
     | (w', Some job) => writeJob (op job) id w'
     end) !! key = World.memoryStore w !! key.
Proof.
  intros Hne.
  assert (Hf : fst (getAnalysisJob id w) = fst (kv_get (jobKey id) w)).
  { unfold getAnalysisJob. destruct (kv_get (jobKey id) w) as [w' [data|]]; [|done].
    by case_bool_decide. }
  destruct (kv_get_fst (jobKey id) key w) as (Hk & _); [done|].
  destruct (getAnalysisJob id w) as [w' [job|]]; cbn in Hf; subst w'.
  - cbn. by rewrite lookup_insert_ne.
  - done.
Qed.

Lemma jobOp_none (id : string) (w : World.t) (op : AnalysisJob.t -> AnalysisJob.t) :
  readJob id w = None ->
  let w' := match getAnalysisJob id w with
            | (w', None) => w'
            | (w', Some job) => writeJob (op job) id w'
            end in
  readJob id w' = None /\ World.statusLog w' = World.statusLog w.
Proof.
  intros Hnone. cbn zeta.
  destruct (getAnalysisJob_frame id w) as (Hnow & _ & Hlog & Hstore).
  assert (Hr : snd (getAnalysisJob id w) = None) by exact Hnone.
  destruct (getAnalysisJob id w) as [w' [job|]]; cbn in *; [done|].
  split; [|done]. apply (readJob_stable id w w' Hnone); [lia | done].
Qed.

Lemma readJob_elapse_none (id : string) (ms : Z) (w : World.t) :
  readJob id w = None -> readJob id (elapse ms w) = None.
Proof. intros Hn. apply (readJob_stable id w); [done | cbn; lia | by left]. Qed.

(** X14.  A run whose service calls succeed while its job is not there (it was
    never created, or has expired) writes no status and leaves the job
    absent, and still stores the analysis and its metadata. *)
Theorem runAnalysis_without_job (env : ProcessEnv.t) (ext : Services.t) (id : string)
    (repo : GitHubRepo.t) (w : World.t) (t1 t2 : Z) (analysis : Analysis.t) :
  Faithful ->
  outcome env ext repo = Analysed t1 t2 analysis ->
  readJob id w = None ->
  let w' := runAnalysis env ext id repo w in
  let now' := (World.now w + Z.max 0 t1 + Z.max 0 t2)%Z in
  readJob id w' = None
  /\ World.statusLog w' = World.statusLog w
  /\ getAnalysis repo w' = Some (fullAnalysis analysis now' repo)
  /\ snd (getCacheMetadata repo w') = Some (metadataOf repo now').
Proof.
  intros Hf Ho Hnone w' now'.
  destruct (runAnalysis_storage env ext id repo w t1 t2 analysis Hf Ho) as (_ & Hget & Hmeta).
  split; [|split; [|by split]].
  - subst w'.
    destruct (runAnalysis_Analysed env ext id repo w t1 t2 analysis Ho)
      as (buffer & s10 & s30 & s50 & s80 & _ & _ & -> & _).
    apply jobOp_none. rewrite readJob_setCacheMetadata, readJob_saveAnalysis.
    apply jobOp_none, readJob_elapse_none, jobOp_none, jobOp_none, readJob_elapse_none,
      jobOp_none, Hnone.
  - subst w'.
    destruct (runAnalysis_Analysed env ext id repo w t1 t2 analysis Ho)
      as (buffer & s10 & s30 & s50 & s80 & _ & _ & -> & _).
    assert (N1 := jobOp_none id w (fun j => withStatus s10 (AnalysisJob.result j) j) Hnone).
    cbn zeta in N1. fold (updateAnalysisStatus id s10 w) in N1. destruct N1 as [N1 L1].
    apply (readJob_elapse_none id t1) in N1.
    assert (N2 := jobOp_none id _ (fun j => withStatus s30 (AnalysisJob.result j) j) N1).
    cbn zeta in N2. destruct N2 as [N2 L2].
    assert (N3 := jobOp_none id _ (fun j => withStatus s50 (AnalysisJob.result j) j) N2).
    cbn zeta in N3. destruct N3 as [N3 L3].
    apply (readJob_elapse_none id t2) in N3.
    assert (N4 := jobOp_none id _ (fun j => withStatus s80 (AnalysisJob.result j) j) N3).
    cbn zeta in N4. destruct N4 as [N4 L4].
    cbn zeta.
    set (u4 := updateAnalysisStatus id s80 _) in *.
    set (full := fullAnalysis analysis (World.now u4) repo).
    set (w8 := setCacheMetadata repo (World.now u4) _ _).
    assert (N8 : readJob id w8 = None)
      by (subst w8; by rewrite readJob_setCacheMetadata, readJob_saveAnalysis).
    assert (N9 := jobOp_none id w8 (withStatus completeStatus (Some full)) N8).
    cbn zeta in N9. destruct N9 as [_ L9].
    unfold completeAnalysisJob. etransitivity; [exact L9|]. subst w8. cbn.
    etransitivity; [exact L4|]. cbn. etransitivity; [exact L3|].
    etransitivity; [exact L2|]. cbn. exact L1.
Qed.

Lemma update_log (id : string) (status : AnalysisStatus.t) (w : World.t)
    (job : AnalysisJob.t) :
  readJob id w = Some job ->
  World.statusLog (updateAnalysisStatus id status w) = World.statusLog w ++ [(id, status)].
Proof.
  intros Hjob.
  exact (jobOp_log id w job (fun j => withStatus status (AnalysisJob.result j) j) Hjob).
Qed.

Lemma progressWritten_new (id : string) (w w' : World.t) (l : list AnalysisStatus.t) :
  World.statusLog w' = World.statusLog w ++ ((fun s => (id, s)) <$> l) ->
  progressWritten id (length (World.statusLog w)) w' = AnalysisStatus.progress <$> l.
Proof.
  intros Hlog. unfold progressWritten. rewrite Hlog, drop_app_length. clear Hlog.
  induction l as [|s l IH]; [done|]. cbn.
  rewrite bool_decide_eq_true_2 by done. cbn. by rewrite IH.
Qed.

Lemma runAnalysis_job (env : ProcessEnv.t) (ext : Services.t) (id : string)
    (repo : GitHubRepo.t) (w : World.t) (job : AnalysisJob.t) (t1 t2 : Z)
    (analysis : Analysis.t) :
  (forall j : AnalysisJob.t, JSONSerializable j) ->
  outcome env ext repo = Analysed t1 t2 analysis ->
  readJob id w = Some job ->
  (t1 <= HOUR)%Z -> (t2 <= HOUR)%Z ->
  let w' := runAnalysis env ext id repo w in
  let full := fullAnalysis analysis (World.now w + Z.max 0 t1 + Z.max 0 t2) repo in
  readJob id w' = Some (withStatus completeStatus (Some full) job)
  /\ exists statuses,
       AnalysisStatus.progress <$> statuses = [10; 30; 50; 80; 100]%Z
       /\ World.statusLog w' = World.statusLog w ++ ((fun s => (id, s)) <$> statuses).
Proof.
  intros Hsj Ho Hjob Ht1 Ht2 w' full.
  destruct (runAnalysis_Analysed env ext id repo w t1 t2 analysis Ho)
    as (buffer & s10 & s30 & s50 & s80 & _ & _ & Hrun & Hprog).
  cbn zeta in Hrun.
  assert (J1 := update_fresh id s10 w job t1 Hsj Hjob Ht1).
  assert (L1 := update_log id s10 w job Hjob).
  assert (J2 := update_now id s30 _ _ Hsj J1).
  assert (L2 := update_log id s30 _ _ J1).
  assert (J3 := update_fresh id s50 _ _ t2 Hsj J2 Ht2).
  assert (L3 := update_log id s50 _ _ J2).
  assert (J4 := update_now id s80 _ _ Hsj J3).
  assert (L4 := update_log id s80 _ _ J3).
  set (u4 := updateAnalysisStatus id s80 _) in *.
  assert (Hu4 : World.now u4 = (World.now w + Z.max 0 t1 + Z.max 0 t2)%Z).
  { subst u4. unfold updateAnalysisStatus.
    rewrite (proj1 (jobOp_now id _ _)). cbn [elapse World.now].
    rewrite (proj1 (jobOp_now id _ _)), (proj1 (jobOp_now id _ _)). cbn [elapse World.now].
    by rewrite (proj1 (jobOp_now id _ _)). }
  rewrite Hu4 in Hrun. fold full in Hrun.
  set (w8 := setCacheMetadata repo _ _ _) in Hrun.
  assert (J8 : readJob id w8 = Some (withStatus s80 (AnalysisJob.result job) job)).
  { subst w8. rewrite readJob_setCacheMetadata, readJob_saveAnalysis. exact J4. }
  assert (L8 : World.statusLog w8
               = World.statusLog w ++ ((fun s => (id, s)) <$> [s10; s30; s50; s80])).
  { subst w8. cbn. rewrite L4. cbn. rewrite L3, L2. cbn. rewrite L1.
    by rewrite <- !app_assoc. }
  assert (J9 : readJob id (elapse 0 (completeAnalysisJob id full w8))
               = Some (withStatus completeStatus (Some full)
                         (withStatus s80 (AnalysisJob.result job) job)))
    by (apply (jobOp_fresh id w8 _ (withStatus completeStatus (Some full)) 0 (Hsj _) J8);
        unfold HOUR; lia).
  rewrite elapse_zero in J9.
  assert (L9 : World.statusLog (completeAnalysisJob id full w8)
               = World.statusLog w8 ++ [(id, completeStatus)])
    by exact (jobOp_log id w8 _ (withStatus completeStatus (Some full)) J8).
  subst w'. rewrite Hrun.
  split; [exact J9|].
  exists ([s10; s30; s50; s80] ++ [completeStatus]). split.
  - by rewrite fmap_app, Hprog.
  - rewrite L9, L8, fmap_app. by rewrite <- app_assoc.
Qed.

(** X15.  A run on a job that is there, whose service calls succeed within the
    hour a job lives: the job ends complete, with progress 100 and the
    stored analysis as its result; the progress values written are 10, 30,
    50, 80 and 100; the analysis and its metadata are stored. *)
Theorem runAnalysis_completes_job (env : ProcessEnv.t) (ext : Services.t) (id : string)
    (repo : GitHubRepo.t) (w : World.t) (job : AnalysisJob.t) (t1 t2 : Z)
    (analysis : Analysis.t) :
  Faithful ->
  outcome env ext repo = Analysed t1 t2 analysis ->
  readJob id w = Some job ->
  (t1 <= HOUR)%Z -> (t2 <= HOUR)%Z ->
  let w' := runAnalysis env ext id repo w in
  let full := fullAnalysis analysis (World.now w + Z.max 0 t1 + Z.max 0 t2) repo in
  readJob id w' = Some (withStatus completeStatus (Some full) job)
  /\ progressWritten id (length (World.statusLog w)) w' = [10; 30; 50; 80; 100]%Z
  /\ getAnalysis repo w' = Some full
  /\ snd (getCacheMetadata repo w')
     = Some (metadataOf repo (World.now w + Z.max 0 t1 + Z.max 0 t2)).
Proof.
  intros Hf Ho Hjob Ht1 Ht2 w' full.
  destruct (runAnalysis_storage env ext id repo w t1 t2 analysis Hf Ho) as (_ & Hget & Hmeta).
  destruct (runAnalysis_job env ext id repo w job t1 t2 analysis (proj1 Hf) Ho Hjob Ht1 Ht2)
    as (Hdone & statuses & Hprog & Hlog).
  split; [exact Hdone|]. split; [|by split].
  subst w'. by rewrite (progressWritten_new id w _ statuses Hlog).
Qed.

(** X16.  With neither a GitHub token nor an API key, the services are not
    called: whatever they would answer, a run on a job that is there
    completes at once, with the placeholder analysis as its result. *)
Theorem runAnalysis_mock_mode (env : ProcessEnv.t) (ext : Services.t) (id : string)
    (repo : GitHubRepo.t) (w : World.t) (job : AnalysisJob.t) :
  Faithful ->
  unset (ProcessEnv.GITHUB_TOKEN env) = true ->
  unset (ProcessEnv.ANTHROPIC_API_KEY env) = true ->
  readJob id w = Some job ->
  let w' := runAnalysis env ext id repo w in
  let full := fullAnalysis (getMockAnalysis repo) (World.now w) repo in
  World.now w' = World.now w
  /\ readJob id w' = Some (withStatus completeStatus (Some full) job)
  /\ getAnalysis repo w' = Some full.
Proof.
  intros Hf Hg Ha Hjob w' full.
  assert (Ho : outcome env ext repo = Analysed 0 0 (getMockAnalysis repo)).
  { unfold outcome, downloadOf, analyzeWithClaude. by rewrite Hg, Ha. }
  destruct (runAnalysis_storage env ext id repo w 0 0 _ Hf Ho) as (Hnow & _).
  destruct (runAnalysis_storage env ext id repo w 0 0 _ Hf Ho) as (_ & G & _).
  destruct (runAnalysis_job env ext id repo w job 0 0 _ (proj1 Hf) Ho Hjob)
    as (J & _); [unfold HOUR; lia | unfold HOUR; lia |].
  cbn in Hnow, J, G. rewrite !Z.add_0_r in Hnow, J, G. done.
Qed.

(** X17.  A run on a job that is there, one of whose service calls fails within
    the hour: the job ends in the error status, with progress 0 and the
    message of the error thrown; no blob is written, and no entry of the
    store other than the job's is touched. *)
Theorem runAnalysis_failure (env : ProcessEnv.t) (ext : Services.t) (id : string)
    (repo : GitHubRepo.t) (w : World.t) (job : AnalysisJob.t) (t1 t2 : Z) (e : Thrown) :
  (forall j : AnalysisJob.t, JSONSerializable j) ->
  outcome env ext repo = Failed t1 t2 e ->
  readJob id w = Some job ->
  (t1 <= HOUR)%Z -> (t2 <= HOUR)%Z ->
  let w' := runAnalysis env ext id repo w in
  readJob id w'
  = Some (withStatus (errorStatus (errorMessage e)) (AnalysisJob.result job) job)
  /\ World.memoryBlobs w' = World.memoryBlobs w
  /\ (forall key, key <> jobKey id ->
        World.memoryStore w' !! key = World.memoryStore w !! key).
Proof.
  intros Hsj Ho Hjob Ht1 Ht2 w'. subst w'. unfold runAnalysis.
  change (if unset (ProcessEnv.GITHUB_TOKEN env) && unset (ProcessEnv.ANTHROPIC_API_KEY env)
          then Fulfilled 0 [] else Services.downloadRepoTarball ext repo)
    with (downloadOf env ext repo).
  unfold outcome in Ho.
  set (s10 := AnalysisStatus.mk downloading 10 _ None).
  assert (J1 := update_fresh id s10 w job t1 Hsj Hjob Ht1).
  assert (Hfail : forall w0 job0 msg,
            readJob id w0 = Some job0 ->
            readJob id (failAnalysisJob id msg w0)
            = Some (withStatus (errorStatus msg) (AnalysisJob.result job0) job0)).
  { intros w0 job0 msg Hj. rewrite <- (elapse_zero (failAnalysisJob id msg w0)).
    apply (jobOp_fresh id w0 job0
             (fun j => withStatus (errorStatus msg) (AnalysisJob.result j) j) 0 (Hsj _) Hj).
    unfold HOUR. lia. }
  destruct (downloadOf env ext repo) as [t1' buffer|t1' e'] eqn:Hd.
  - destruct (analyzeWithClaude env ext repo buffer) as [t2' a|t2' e'] eqn:Ha; [done|].
    injection Ho as -> -> ->.
    assert (J2 := update_now id (AnalysisStatus.mk extracting 30
                     "Extracting repository files..." None) _ _ Hsj J1).
    assert (J3 := update_fresh id (AnalysisStatus.mk analyzing 50
                     "Analyzing code architecture with Claude..." None) _ _ t2 Hsj J2 Ht2).
    split; [|split].
    + rewrite (Hfail _ _ _ J3). done.
    + unfold failAnalysisJob, updateAnalysisStatus.
      rewrite (proj1 (proj2 (jobOp_now id _ _))). cbn [elapse World.memoryBlobs].
      rewrite (proj1 (proj2 (jobOp_now id _ _))), (proj1 (proj2 (jobOp_now id _ _))).
      cbn [elapse World.memoryBlobs]. by rewrite (proj1 (proj2 (jobOp_now id _ _))).
    + intros key Hne. unfold failAnalysisJob, updateAnalysisStatus.
      rewrite jobOp_store by done. cbn [elapse World.memoryStore].
      rewrite !jobOp_store by done. cbn [elapse World.memoryStore].
      by rewrite jobOp_store.
  - injection Ho as -> <- ->.
    split; [|split].
    + rewrite (Hfail _ _ _ J1). done.
    + unfold failAnalysisJob, updateAnalysisStatus.
      rewrite (proj1 (proj2 (jobOp_now id _ _))). cbn [elapse World.memoryBlobs].
      by rewrite (proj1 (proj2 (jobOp_now id _ _))).
    + intros key Hne. unfold failAnalysisJob, updateAnalysisStatus.
      rewrite jobOp_store by done. cbn [elapse World.memoryStore].
      by rewrite jobOp_store.
Qed.

End RunTheorems.

Lemma refFaithful : @Faithful refJob refAnalysis refMetadata.
Proof.
  split; [|split]; intros x.
  - exact (refJSON_serializable x).
  - exact (refJSON_serializable x).
  - exact (refJSON_serializable x).
Qed.

Lemma writeJob_fresh `{JSON AnalysisJob.t} (id : string) (job : AnalysisJob.t) (ms : Z)
    (w : World.t) :
  JSONSerializable job -> (ms <= HOUR)%Z ->
  readJob id (elapse ms (writeJob job id w)) = Some job.
Proof.
  intros [Hparse Hne] Hms. rewrite readJob_kv. unfold writeJob.
  change (elapse ms (logStatus id (AnalysisJob.status job)
            (kv_set (jobKey id) (JSON_stringify job) ANALYSIS_TTL w)))
    with (logStatus id (AnalysisJob.status job)
            (elapse ms (kv_set (jobKey id) (JSON_stringify job) ANALYSIS_TTL w))).
  assert (Hlog : forall key s w0, snd (kv_get key (logStatus id s w0)) = snd (kv_get key w0))
    by (intros; by rewrite !kv_get_snd).
  rewrite Hlog, kv_get_fresh by (right; unfold ANALYSIS_TTL, HOUR in *; lia). cbn.
  by rewrite bool_decide_eq_false_2.
Qed.

Lemma createAnalysisJob_now `{JSON AnalysisJob.t} (id : string) (repo : GitHubRepo.t)
    (w : World.t) :
  JSONSerializable (newJob id repo (World.now w)) ->
  readJob id (createAnalysisJob id repo w) = Some (newJob id repo (World.now w)).
Proof.
  intros Hs. rewrite <- (elapse_zero (createAnalysisJob id repo w)).
  apply (writeJob_fresh id (newJob id repo (World.now w)) 0 w Hs). unfold HOUR. lia.
Qed.

(** ** The route that starts an analysis *)

Section PostRoute.
Context `{JSON AnalysisJob.t} `{JSON ArchitectureAnalysis.t} `{JSON CacheMetadata.t}.

Lemma cached_getAnalysis (repo : GitHubRepo.t) (w : World.t) :
  (if hasAnalysis repo w then getAnalysis repo w else None) = getAnalysis repo w.
Proof.
  unfold hasAnalysis, getAnalysis, blob_head, blob_get.
  destruct (World.memoryBlobs w !! analysisKey repo) as [data|].
  - by rewrite bool_decide_eq_true_2 by (by eexists).
  - by case_bool_decide.
Qed.

Lemma POST_accepted (owner name id : string) (w : World.t) :
  validPattern owner = true -> validPattern name = true ->
  (forall n, name <> n +:+ ".git") ->
  let repo := GitHubRepo.mk owner name None in
  POST (Some (Body.mk (Some owner) (Some name))) id w
  = match (if hasAnalysis repo w then getAnalysis repo w else None) with
    | Some analysis => (w, CachedAnalysis analysis, None)
    | None => (createAnalysisJob id repo w, AnalysisStarted id, Some (id, repo))
    end.
Proof.
  intros Ho Hn Hgit repo.
  destruct (validateRepoUrl_shorthand owner name) as [Hparse Hvalid];
    [by apply validPattern_segment | by apply validPattern_segment | done |].
  rewrite Ho, Hn in Hvalid. cbn in Hvalid.
  unfold POST. cbn [Body.owner Body.name].
  rewrite !bool_decide_eq_false_2 by (by apply validPattern_segment). cbn [orb].
  cbn zeta. by rewrite Hvalid, Hparse.
Qed.

(** X18.  A request for a well-formed owner and name: the stored analysis of
    that repository is returned if one can be read, and nothing changes;
    otherwise a job is created for the repository and its analysis is
    started. *)
Theorem POST_valid_request (owner name id : string) (w : World.t) :
  validPattern owner = true -> validPattern name = true ->
  (forall n, name <> n +:+ ".git") ->
  let repo := GitHubRepo.mk owner name None in
  POST (Some (Body.mk (Some owner) (Some name))) id w
  = match getAnalysis repo w with
    | Some analysis => (w, CachedAnalysis analysis, None)
    | None => (createAnalysisJob id repo w, AnalysisStarted id, Some (id, repo))
    end.
Proof.
  intros Ho Hn Hgit repo. rewrite POST_accepted by done. fold repo.
  by rewrite cached_getAnalysis.
Qed.

(** X19.  Whatever the request, the handler changes the state of the server only
    when it answers that an analysis was started: then it has created the
    job it names, for a repository whose owner and name are made of the
    characters [a-zA-Z0-9._-] and of which no analysis can be read, and it
    has started the analysis of that repository under that job.  In every
    other case nothing is written and nothing is started. *)
Theorem POST_effects (body : option Body.t) (id : string) (w : World.t) :
  match POST body id w with
  | (w', AnalysisStarted id', trigger) =>
      exists repo,
        id' = id /\ trigger = Some (id, repo)
        /\ w' = createAnalysisJob id repo w
        /\ validPattern (GitHubRepo.owner repo) = true
        /\ validPattern (GitHubRepo.name repo) = true
        /\ getAnalysis repo w = None
  | (w', _, trigger) => w' = w /\ trigger = None
  end.
Proof.
  unfold POST. destruct body as [[[owner|] [name|]]|]; cbn [Body.owner Body.name]; try done.
  destruct (bool_decide (owner = "") || bool_decide (name = "")); [done|].
  cbn zeta.
  destruct (Validation.valid (validateRepoUrl (owner +:+ "/" +:+ name))) eqn:Hv; [|done].
  cbn [negb].
  destruct (validateRepoUrl_valid _ Hv) as (repo & Hp & Ho & Hn & _).
  rewrite Hp, cached_getAnalysis.
  destruct (getAnalysis repo w) as [analysis|] eqn:Hg; [done|].
  by exists repo.
Qed.

(** X20.  From the request to the served analysis: a request for a repository
    without a stored analysis starts a job; when the run of that job
    succeeds within the hour, the stream of the job sends the complete
    status and the analysis and closes, and the next request for the
    repository is answered with that analysis and starts nothing. *)
Theorem analysis_served_after_run (env : ProcessEnv.t) (ext : Services.t)
    (owner name id id' : string) (w : World.t) (t1 t2 : Z) (analysis : Analysis.t) :
  Faithful ->
  validPattern owner = true -> validPattern name = true ->
  (forall n, name <> n +:+ ".git") ->
  let repo := GitHubRepo.mk owner name None in
  let request := Some (Body.mk (Some owner) (Some name)) in
  getAnalysis repo w = None ->
  outcome env ext repo = Analysed t1 t2 analysis ->
  (t1 <= HOUR)%Z -> (t2 <= HOUR)%Z ->
  let w1 := createAnalysisJob id repo w in
  let w2 := triggerAnalysis env ext id repo w1 in
  let full := fullAnalysis analysis (World.now w + Z.max 0 t1 + Z.max 0 t2) repo in
  POST request id w = (w1, AnalysisStarted id, Some (id, repo))
  /\ stream id [w2] = ([StatusEvent completeStatus; CompleteEvent full], true)
  /\ POST request id' w2 = (w2, CachedAnalysis full, None).
Proof.
  intros Hf Ho Hn Hgit repo request Hnone Hout Ht1 Ht2 w1 w2 full.
  assert (Hjob : readJob id w1 = Some (newJob id repo (World.now w)))
    by (apply createAnalysisJob_now, Hf).
  destruct (runAnalysis_job env ext id repo w1 _ t1 t2 analysis
              (proj1 Hf) Hout Hjob Ht1 Ht2) as (Hdone & _).
  destruct (runAnalysis_storage env ext id repo w1 t1 t2 analysis Hf Hout) as (_ & Hget & _).
  change (World.now w1) with (World.now w) in Hdone, Hget.
  fold full in Hdone, Hget. subst w2. unfold triggerAnalysis.
  split; [|split].
  - subst request. rewrite POST_accepted, cached_getAnalysis by done. fold repo.
    by rewrite Hnone.
  - cbn [stream].
    change (snd (getAnalysisJob id (runAnalysis env ext id repo w1)))
      with (readJob id (runAnalysis env ext id repo w1)).
    by rewrite Hdone.
  - subst request. rewrite POST_accepted, cached_getAnalysis by done. fold repo.
    by rewrite Hget.
Qed.

End PostRoute.

(** ** The server theorems on the example server *)

Lemma blob_put_get_head_witness :
  blob_get "k" (fst (blob_put "k" "" exampleWorld)) = None
  /\ blob_head "k" (fst (blob_put "k" "" exampleWorld)) = true
  /\ blob_get "other" (fst (blob_put "k" "data" exampleWorld)) = None.
Proof.
  destruct (blob_put_get_head "k" "" exampleWorld) as (Hh & Hg & _).
  destruct (blob_put_get_head "k" "data" exampleWorld) as (_ & _ & _ & Ho & _).
  split; [exact Hg|]. split; [exact Hh|].
  rewrite (proj1 (Ho "other" ltac:(done))). reflexivity.
Defined.

Lemma hasAnalysis_getAnalysis_witness :
  @getAnalysis refAnalysis exampleRepo exampleWorld = None.
Proof.
  apply (proj1 (proj2 (@hasAnalysis_getAnalysis refAnalysis exampleRepo someAnalysis
                         exampleWorld))).
  reflexivity.
Defined.

Lemma exampleCreated_job : @readJob refJob "job-1" exampleCreated
                           = Some (newJob "job-1" exampleRepo 1000).
Proof. exact (@createAnalysisJob_now refJob "job-1" exampleRepo exampleWorld (refJSON_serializable _)). Qed.

Lemma job_update_lifetime_witness :
  @readJob refJob "job-1"
    (elapse HOUR
       (@failAnalysisJob refJob "job-1" "boom"
          (@createAnalysisJob refJob "job-1" exampleRepo exampleWorld)))
  = Some (withStatus (errorStatus "boom") None (newJob "job-1" exampleRepo 1000)).
Proof.
  refine (proj2 (proj2 (@job_update_lifetime refJob "job-1" completeStatus someAnalysis "boom"
            HOUR (@createAnalysisJob refJob "job-1" exampleRepo exampleWorld)
            (newJob "job-1" exampleRepo 1000)
            (fun j => refJSON_serializable j) ltac:(cbn; lia) _))).
  exact exampleCreated_job.
Defined.

Lemma runAnalysis_without_job_witness :
  @getAnalysis refAnalysis exampleRepo
    (@runAnalysis refJob refAnalysis refMetadata mockEnv failingServices "job-1" exampleRepo
       exampleWorld)
  = Some (fullAnalysis (getMockAnalysis exampleRepo) 1000 exampleRepo).
Proof.
  exact (proj1 (proj2 (proj2
    (@runAnalysis_without_job refJob refAnalysis refMetadata mockEnv failingServices "job-1"
       exampleRepo exampleWorld 0 0 (getMockAnalysis exampleRepo)
       refFaithful eq_refl eq_refl)))).
Defined.

Lemma runAnalysis_completes_job_witness :
  @progressWritten "job-1" 1
    (@runAnalysis refJob refAnalysis refMetadata mockEnv failingServices "job-1" exampleRepo
       exampleCreated)
  = [10; 30; 50; 80; 100]%Z.
Proof.
  exact (proj1 (proj2
    (@runAnalysis_completes_job refJob refAnalysis refMetadata mockEnv failingServices "job-1"
       exampleRepo exampleCreated (newJob "job-1" exampleRepo 1000) 0 0
       (getMockAnalysis exampleRepo)
       refFaithful eq_refl exampleCreated_job ltac:(unfold HOUR; lia) ltac:(unfold HOUR; lia)))).
Defined.

Lemma runAnalysis_mock_mode_witness :
  @readJob refJob "job-1"
    (@runAnalysis refJob refAnalysis refMetadata mockEnv failingServices "job-1" exampleRepo
       exampleCreated)
  = Some (withStatus completeStatus
            (Some (fullAnalysis (getMockAnalysis exampleRepo) 1000 exampleRepo))
            (newJob "job-1" exampleRepo 1000)).
Proof.
  exact (proj1 (proj2
    (@runAnalysis_mock_mode refJob refAnalysis refMetadata mockEnv failingServices "job-1"
       exampleRepo exampleCreated (newJob "job-1" exampleRepo 1000)
       refFaithful eq_refl eq_refl exampleCreated_job))).
Defined.

Lemma runAnalysis_failure_witness :
  @readJob refJob "job-1" failedRun
  = Some (withStatus (errorStatus "Failed to download repository: Not Found") None
            (newJob "job-1" exampleRepo 1000)).
Proof.
  exact (proj1
    (@runAnalysis_failure refJob refAnalysis refMetadata failingEnv failingServices "job-1"
       exampleRepo exampleCreated (newJob "job-1" exampleRepo 1000) 1500 0
       (ErrorObject "Failed to download repository: Not Found")
       (fun j => refJSON_serializable j) eq_refl exampleCreated_job
       ltac:(unfold HOUR; lia) ltac:(unfold HOUR; lia))).
Defined.

Lemma noDotGit_widgets : forall n : string, "widgets" <> n +:+ ".git".
Proof.
  intros n E. pose proof (f_equal dropDotGit E) as E'.
  rewrite dropDotGit_app in E'. vm_compute in E'. subst n. by vm_compute in E.
Qed.

Lemma POST_valid_request_witness :
  @POST refJob refAnalysis (Some (Body.mk (Some "acme") (Some "widgets"))) "job-1" exampleWorld
  = (exampleCreated, AnalysisStarted "job-1", Some ("job-1", exampleRepo)).
Proof.
  exact (@POST_valid_request refJob refAnalysis "acme" "widgets" "job-1" exampleWorld
           eq_refl eq_refl noDotGit_widgets).
Defined.

Lemma analysis_served_after_run_witness :
  let served := @triggerAnalysis refJob refAnalysis refMetadata mockEnv failingServices
                  "job-1" exampleRepo exampleCreated in
  @POST refJob refAnalysis (Some (Body.mk (Some "acme") (Some "widgets"))) "job-2" served
  = (served, CachedAnalysis (fullAnalysis (getMockAnalysis exampleRepo) 1000 exampleRepo),
     None).
Proof.
  exact (proj2 (proj2
    (@analysis_served_after_run refJob refAnalysis refMetadata mockEnv failingServices
       "acme" "widgets" "job-1" "job-2" exampleWorld 0 0 (getMockAnalysis exampleRepo)
       refFaithful eq_refl eq_refl noDotGit_widgets eq_refl eq_refl
       ltac:(unfold HOUR; lia) ltac:(unfold HOUR; lia)))).
Defined.

(** ** The order of the steps in autoplay *)

Lemma startAutoplay_first (flows : list Flow.t) (flow : Flow.t) (v : Viewer.t) :
  AtRest v ->
  flows !! Viewer.selectedFlow v = Some flow ->
  (Flow.steps flow = [] /\ Finished flow (Viewer.clock v) (startAutoplay flows v))
  \/ exists step p rest, Showing flow (Viewer.clock v) (startAutoplay flows v) 0 step p rest [].
Proof.
  intros [Ht (d & Hd & Hclean)] Hflow.
  unfold startAutoplay, runEffect, handleStartAnimation.
  cbn [Viewer.isAnimating setIsAnimating negb Viewer.selectedFlow setIsPaused
       setCurrentStep Viewer.currentStep Viewer.isPaused].
  rewrite Hflow. cbn [Z.ltb Z.compare].
  destruct (animateStep_enters flow (Viewer.clock v)
              (setEffect (Some (Closure.mk flow false 0 None None))
                 (setIsAnimating true (setIsPaused false (setCurrentStep 0 v))))
              0 None d) as [[Hnone F] | (step & p & rest & S)].
  - done.
  - done.
  - by destruct v.
  - destruct v. cbn. unfold startOf. rewrite take_0. cbn. lia.
  - by destruct v.
  - intros Hnone. split; [|done].
    apply lookup_ge_None_1 in Hnone. lia.
  - left. split; [|done]. by destruct (Flow.steps flow).
  - right. by exists step, p, rest.
Qed.

Lemma showing_last_turn_order (flow : Flow.t) (t0 : Z) (v : Viewer.t) (k : nat)
    (step : AnimationStep.t) (p : nat) (tail : list Timer.t) :
  Showing flow t0 v k step p [] tail ->
  exists v',
    turn v = Some v'
    /\ ((S k = length (Flow.steps flow) /\ Finished flow t0 v')
        \/ exists step' p' rest', Showing flow t0 v' (S k) step' p' rest' []).
Proof.
  intros [Hk Ha Hcur Ht Hd Hcb Hclock Hnd Hfresh (d & Hdom & Hemph) Hphase].
  destruct Hphase as [(_ & _ & (r & Hr & _)) | (id & tid & -> & He & Hck)].
  { by apply elem_of_nil in Hr. }
  cbn [app] in Ht.
  rewrite (turn_head v _ [] Ht); [|constructor|done].
  eexists. split; [reflexivity|]. cbn [Timer.callback Timer.due fire].
  pose proof (delayOf_nonneg step) as Hpos.
  pose proof (startOf_S flow t0 k step Hk) as HS.
  destruct (animateStep_enters flow t0
              (setClock (Z.max (Viewer.clock v) (startOf flow t0 (S k))) (setTimers [] v))
              (S k) tid d) as [[Hnone Hfin] | Hshow].
  - destruct v; cbn in *. congruence.
  - destruct v; cbn in *. congruence.
  - destruct v; done.
  - destruct v; cbn in *. lia.
  - destruct v; cbn in *. congruence.
  - intros Hnone. split.
    + apply lookup_ge_None_1 in Hnone. apply lookup_lt_Some in Hk. lia.
    + intros n Hn. apply list_elem_of_lookup in Hn as [i Hi].
      destruct (nodeEmphasised n) eqn:En; [|done].
      destruct (Hemph i n Hi En) as (_ & timer & Hin & _).
      by apply elem_of_nil in Hin.
  - left. split; [|done].
    apply lookup_ge_None_1 in Hnone. apply lookup_lt_Some in Hk. lia.
  - by right.
Qed.

Lemma showing_next_order (flow : Flow.t) (t0 : Z) (m : nat) :
  forall (v : Viewer.t) (k : nat) (step : AnimationStep.t) (p : nat)
         (rest tail : list Timer.t),
    stepsLeft rest tail <= m ->
    Showing flow t0 v k step p rest tail ->
    exists n,
      (S k = length (Flow.steps flow) /\ Finished flow t0 (run n v))
      \/ exists step' p' rest', Showing flow t0 (run n v) (S k) step' p' rest' [].
Proof.
  induction m as [|m IH]; intros v k step p rest tail Hm S.
  - destruct rest as [|x rest]; [|cbn in Hm; lia].
    destruct (showing_last_turn_order _ _ _ _ _ _ _ S) as (v1 & Hv1 & Hnext).
    exists 1. cbn. by rewrite Hv1.
  - destruct rest as [|x rest].
    + destruct (showing_last_turn_order _ _ _ _ _ _ _ S) as (v1 & Hv1 & Hnext).
      exists 1. cbn. by rewrite Hv1.
    + destruct (showing_turn _ _ _ _ _ _ _ _ _ S) as (v1 & tail' & Hv1 & S' & Hlt).
      destruct (IH v1 k step p rest tail') as (n & Hn); [lia | done |].
      exists (Datatypes.S n). cbn. by rewrite Hv1.
Qed.

Lemma autoplay_reaches_step (flows : list Flow.t) (flow : Flow.t) (v : Viewer.t) (k : nat) :
  AtRest v ->
  flows !! Viewer.selectedFlow v = Some flow ->
  k < length (Flow.steps flow) ->
  exists m step p rest tail,
    Showing flow (Viewer.clock v) (run m (startAutoplay flows v)) k step p rest tail.
Proof.
  intros Hrest Hflow. induction k as [|k IH]; intros Hk.
  - destruct (startAutoplay_first flows flow v Hrest Hflow)
      as [[Hnil _] | (step & p & rest & S)].
    + rewrite Hnil in Hk. cbn in Hk. lia.
    + exists 0, step, p, rest, []. exact S.
  - destruct IH as (m & step & p & rest & tail & S); [lia|].
    destruct (showing_next_order flow (Viewer.clock v) _ _ k step p rest tail (le_n _) S)
      as (n & [[Hlast _] | (step' & p' & rest' & S')]); [lia|].
    exists (m + n), step', p', rest', []. by rewrite run_add.
Qed.



(** ** Manual navigation outside the steps of the flow *)

(** X22.  When the two handlers return and when they throw: without a selected
    flow they return at once and change nothing; with one, Back returns iff
    the flow has a step and the current step is at most one past the last,
    Forward iff the flow has a step and the current step is not negative.
    Otherwise the step they compute has no entry in [flow.steps] and they
    throw, having set the current step and having set no timer. *)
Theorem manual_navigation_completion (flows : list Flow.t) (v : Viewer.t) :
  (flows !! Viewer.selectedFlow v = None ->
   handlePreviousStep flows v = Returned v /\ handleNextStep flows v = Returned v)
  /\ (forall flow, flows !! Viewer.selectedFlow v = Some flow ->
        let n := Z.of_nat (length (Flow.steps flow)) in
        let c := Viewer.currentStep v in
        ((exists v', handlePreviousStep flows v = Returned v') <-> (1 <= n /\ c <= n + 1)%Z)
        /\ ((exists v', handleNextStep flows v = Returned v') <-> (1 <= n /\ 0 <= c)%Z)
        /\ (forall v', handlePreviousStep flows v = Threw v' ->
              Viewer.currentStep v' = Z.max 1 (c - 1) /\ Viewer.timers v' = Viewer.timers v)
        /\ (forall v', handleNextStep flows v = Threw v' ->
              Viewer.currentStep v' = Z.min n (c + 1) /\ Viewer.timers v' = Viewer.timers v)).
Proof.
  split.
  - intros Hnone. unfold handlePreviousStep, handleNextStep. by rewrite Hnone.
  - intros flow Hflow n c. unfold handlePreviousStep, handleNextStep. rewrite Hflow.
    assert (Hstep : forall newStep,
              ((exists v', stepTo flow newStep v = Returned v') <-> (1 <= newStep <= n)%Z)
              /\ (forall v', stepTo flow newStep v = Threw v' ->
                    Viewer.currentStep v' = newStep /\ Viewer.timers v' = Viewer.timers v)).
    { intros newStep. unfold stepTo, at_index.
      destruct (Z.ltb_spec (newStep - 1) 0) as [Hneg|Hpos].
      - split; [|by intros v' [= <-]]. split; [by intros [v' ?] | lia].
      - destruct (Flow.steps flow !! Z.to_nat (newStep - 1)) as [step|] eqn:Es.
        + split; [|done]. split; [|by eauto].
          intros _. apply lookup_lt_Some in Es. subst n. lia.
        + split; [|by intros v' [= <-]]. split; [by intros [v' ?]|].
          apply lookup_ge_None_1 in Es. subst n. lia. }
    split; [|split; [|split]].
    + rewrite (proj1 (Hstep _)). subst c. lia.
    + rewrite (proj1 (Hstep _)). subst c. lia.
    + intros v'. apply (proj2 (Hstep _)).
    + intros v'. apply (proj2 (Hstep _)).
Qed.

Lemma manual_navigation_completion_witness :
  exists v', handleNextStep [Flow.mk "empty" "" [] []] (mounted (Some exampleDom)) = Threw v'.
Proof.
  destruct (handleNextStep [Flow.mk "empty" "" [] []] (mounted (Some exampleDom))) as [v'|v']
    eqn:E.
  - exfalso.
    destruct (proj2 (manual_navigation_completion [Flow.mk "empty" "" [] []]
                       (mounted (Some exampleDom))) _ eq_refl) as (_ & Hnext & _).
    cbn zeta in Hnext. rewrite E in Hnext.
    destruct (proj1 Hnext) as [H1 _]; [by eexists | cbn in H1; lia].
  - by exists v'.
Defined.

(** ** One arrow highlight from beginning to end *)

Lemma select_from_lookup (sel : Arrow.t -> bool) (l : list Arrow.t) :
  forall k pos,
    pos ∈ select_from k sel l ->
    k <= pos /\ exists a, l !! (pos - k) = Some a /\ sel a = true.
Proof.
  induction l as [|a l IH]; intros k pos Hpos; cbn in Hpos.
  - by apply elem_of_nil in Hpos.
  - destruct (sel a) eqn:Ea.
    + apply elem_of_cons in Hpos as [->|Hpos].
      * split; [lia|]. exists a. by rewrite Nat.sub_diag.
      * destruct (IH _ _ Hpos) as (Hk & a' & Ha' & Hs). split; [lia|].
        exists a'. split; [|done]. replace (pos - k) with (S (pos - S k)) by lia. done.
    + destruct (IH _ _ Hpos) as (Hk & a' & Ha' & Hs). split; [lia|].
      exists a'. split; [|done]. replace (pos - k) with (S (pos - S k)) by lia. done.
Qed.

Lemma at_index_elem {A : Type} (l : list A) (i : Z) (x : A) :
  at_index l i = Some x -> x ∈ l.
Proof.
  unfold at_index. destruct (i <? 0)%Z; [done|]. intros Hx.
  apply list_elem_of_lookup. eauto.
Qed.

Lemma targetPath_lookup (stepNumber : Z) (arrows : list Arrow.t) (pos : nat) :
  targetPath stepNumber arrows = Some pos ->
  exists arrow, arrows !! pos = Some arrow
                /\ (Arrow.flowchartLink arrow = true \/ fallbackSelector arrow = true).
Proof.
  unfold targetPath, querySelectorAll.
  destruct (at_index (select_from 0 Arrow.flowchartLink arrows) (stepNumber - 1)) as [q|] eqn:E1.
  - intros [= <-]. apply at_index_elem, select_from_lookup in E1 as (_ & a & Ha & Hs).
    rewrite Nat.sub_0_r in Ha. exists a. by auto.
  - intros E2. apply at_index_elem, select_from_lookup in E2 as (_ & a & Ha & Hs).
    rewrite Nat.sub_0_r in Ha. exists a. by auto.
Qed.

(** X23.  [highlightArrow] on a viewer with a diagram and nothing scheduled.  A
    step number without an arrow (zero, negative, or past the arrows that
    the selectors find) changes nothing.  Otherwise one arrow, found by one
    of the selectors, is emphasised and one timer is set; when it fires,
    [duration] later, the arrow has its stroke and stroke width back -- the
    inline value it had, or else the value of its attribute, or else the
    default -- its filter and dash are reset and its interval is cleared,
    and no other arrow and no node has changed. *)
Theorem highlightArrow_then_reset (stepNumber duration : Z) (v : Viewer.t) (d : Dom.t) :
  Viewer.diagramRef v = Some d ->
  Viewer.timers v = [] ->
  match targetPath stepNumber (Dom.arrows d) with
  | None => highlightArrow stepNumber duration v = v
  | Some pos =>
      exists arrow v' arrow',
        Dom.arrows d !! pos = Some arrow
        /\ (Arrow.flowchartLink arrow = true \/ fallbackSelector arrow = true)
        /\ Viewer.diagramRef (highlightArrow stepNumber duration v)
           = Some (Dom.mk (Dom.nodes d) (<[pos := emphasiseArrow arrow]> (Dom.arrows d)))
        /\ arrowEmphasised (emphasiseArrow arrow) = true
        /\ turn (highlightArrow stepNumber duration v) = Some v'
        /\ Viewer.clock v' = (Viewer.clock v + Z.max 0 duration)%Z
        /\ Viewer.timers v' = []
        /\ Viewer.diagramRef v'
           = Some (Dom.mk (Dom.nodes d) (<[pos := arrow']> (Dom.arrows d)))
        /\ Arrow.stroke arrow'
           = orElse (Arrow.stroke arrow) (attrOrElse (Arrow.attrStroke arrow) "#333")
        /\ Arrow.strokeWidth arrow'
           = orElse (Arrow.strokeWidth arrow) (attrOrElse (Arrow.attrStrokeWidth arrow) "2")
        /\ Arrow.filter arrow' = "none"
        /\ Arrow.strokeDasharray arrow' = "none"
        /\ Arrow.strokeDashoffset arrow' = "0"
        /\ Arrow.dashing arrow' = Arrow.dashing arrow
  end.
Proof.
  intros Hd Ht.
  destruct (targetPath stepNumber (Dom.arrows d)) as [pos|] eqn:Etp.
  - destruct (targetPath_lookup _ _ _ Etp) as (arrow & Ha & Hsel).
    pose proof (highlightArrow_spec stepNumber duration v d Hd) as Hspec.
    cbn zeta in Hspec. unfold arrowEffect in Hspec. rewrite Etp, Ha in Hspec.
    cbn [fst snd length] in Hspec. rewrite Ht in Hspec. cbn [app] in Hspec.
    exists arrow. eexists.
    exists (revertArrow
              (orElse (Arrow.stroke arrow) (attrOrElse (Arrow.attrStroke arrow) "#333"))
              (orElse (Arrow.strokeWidth arrow) (attrOrElse (Arrow.attrStrokeWidth arrow) "2"))
              (emphasiseArrow arrow)).
    split; [exact Ha|]. split; [exact Hsel|].
    rewrite Hspec. split; [reflexivity|]. split; [reflexivity|].
    split.
    { erewrite (turn_head _ _ []); [reflexivity | reflexivity | constructor |].
      cbn. apply NoDup_singleton. }
    cbn [fire Timer.callback Timer.due setClock setTimers setDiagram Viewer.clock
         Viewer.timers Viewer.diagramRef Viewer.selectedFlow Viewer.isAnimating
         Viewer.isPaused Viewer.currentStep Viewer.animationTimeoutRef
         Viewer.nextTimerId Viewer.nextPromise Viewer.effect fmap option_fmap option_map
         Dom.nodes Dom.arrows].
    split; [lia|]. split; [reflexivity|]. split.
    { f_equal. f_equal. apply list_eq. intros j.
      destruct (decide (j = pos)) as [->|Hne].
      - rewrite list_lookup_alter, decide_True by done.
        rewrite !list_lookup_insert_eq by (by apply lookup_lt_Some in Ha). reflexivity.
      - rewrite list_lookup_alter, decide_False by done.
        rewrite !list_lookup_insert_ne by done. reflexivity. }
    cbn. repeat split; reflexivity.
  - unfold highlightArrow. by rewrite Hd, Etp.
Qed.

Lemma highlightArrow_then_reset_witness :
  exists v', turn (highlightArrow 2 800 (mounted (Some exampleDom))) = Some v'
             /\ Viewer.clock v' = 800%Z.
Proof.
  pose proof (highlightArrow_then_reset 2 800 (mounted (Some exampleDom)) exampleDom
                eq_refl eq_refl) as Hr.
  cbn in Hr. destruct Hr as (arrow & v' & arrow' & _ & _ & _ & _ & Hturn & Hclock & _).
  exists v'. split; [exact Hturn | exact Hclock].
Defined.

(** ** A blank step label *)

(** X24.  A step label that is empty or all white space matches exactly the
    rendered labels that are empty once lower-cased, trimmed and stripped of
    the pictographs: [''.split(/\s+/)] is [['']], and the first word of such
    a label is the empty one too. *)
Theorem labelMatches_blank_query (nodeName textContent : jsstring) :
  normalizedName nodeName = [] ->
  labelMatches nodeName textContent = true <-> cleanLabel textContent = [].
Proof.
  intros Hq. rewrite labelMatches_split, Hq. cbn [split_ws].
  unfold cleanLabel. rewrite split_ws_trim.
  case_bool_decide as Hc.
  - split; done.
  - split; [|done]. intros [k Hk].
    destruct (tokens (trim (removeEmojiRange (trim (toLowerCase textContent))))) as [|t ts] eqn:Et.
    + done.
    + injection Hk as -> _.
      pose proof (tokens_from_no_empty (trim (removeEmojiRange (trim (toLowerCase textContent)))) [])
        as Hne.
      unfold tokens in Et. rewrite Et in Hne. exfalso. apply Hne. left.
Qed.

(** ** The form for the repository URL *)

(** X25.  What [handleSubmit] can do: it navigates only for a URL that
    [validateRepoUrl] accepts, to the page of the repository that
    [parseGitHubUrl] finds in it, whose owner and name are made of
    [a-zA-Z0-9._-]; otherwise it shows the error of [validateRepoUrl] and
    stops loading.  Its two fall-back messages are never shown. *)
Theorem handleSubmit_outcomes (s : RepoInput.t) :
  match handleSubmit s with
  | (s', Some route) =>
      exists repo,
        parseGitHubUrl (RepoInput.url s) = Some repo
        /\ validPattern (GitHubRepo.owner repo) = true
        /\ validPattern (GitHubRepo.name repo) = true
        /\ route = "/repo/" +:+ getRepoKey repo
        /\ RepoInput.isLoading s' = true /\ RepoInput.error s' = ""
  | (s', None) =>
      Validation.valid (validateRepoUrl (RepoInput.url s)) = false
      /\ RepoInput.isLoading s' = false
      /\ RepoInput.error s' ∈ [ "Invalid GitHub repository URL";
                                "Invalid repository format";
                                "Invalid characters in repository name" ]
  end.
Proof.
  unfold handleSubmit.
  destruct (Validation.valid (validateRepoUrl (RepoInput.url s))) eqn:Hv; cbn [negb].
  - destruct (validateRepoUrl_valid _ Hv) as (repo & Hp & Ho & Hn & _).
    rewrite Hp. by exists repo.
  - split; [done|]. split; [done|]. cbn [RepoInput.error].
    unfold validateRepoUrl in *.
    destruct (parseGitHubUrl (RepoInput.url s)) as [repo|]; [|cbn; set_solver].
    destruct (bool_decide (GitHubRepo.owner repo = "") || bool_decide (GitHubRepo.name repo = ""));
      [cbn; set_solver|].
    destruct (negb (validPattern (GitHubRepo.owner repo))
              || negb (validPattern (GitHubRepo.name repo))); [cbn; set_solver | done].
Qed.

(** ** The files of a repository *)

Lemma Dirent_ind (P : Dirent -> Prop) :
  (forall name, P (IsFile name)) ->
  (forall name entries, Forall P entries -> P (IsDirectory name entries)) ->
  (forall name, P (IsOther name)) ->
  forall entry, P entry.
Proof.
  intros Hf Hd Ho. fix IH 1. intros [name|name entries|name].
  - apply Hf.
  - apply Hd. induction entries as [|e entries IHe]; constructor; [apply IH | exact IHe].
  - apply Ho.
Qed.

Lemma pathOf_cons (name : jsstring) (names : list jsstring) :
  name <> [] -> names <> [] ->
  pathOf (name :: names) = relativePath name (pathOf names).
Proof. intros Hn Hs. destruct names; [done|]. by destruct name. Qed.

Lemma relativePath_assoc (rel name p : jsstring) :
  name <> [] ->
  relativePath (relativePath rel name) p = relativePath rel (relativePath name p).
Proof.
  intros Hn. destruct rel as [|c rel]; [done|].
  destruct name as [|c' name]; [done|]. cbn. by rewrite <- !app_assoc.
Qed.

Lemma fileAt_nonempty (names : list jsstring) (entries : list Dirent) :
  fileAt names entries -> names <> [].
Proof. by intros []. Qed.

Lemma walk_lists (entries : list Dirent) :
  forallb named entries = true ->
  forall rel p,
    p ∈ walk rel entries <->
    exists names,
      p = relativePath rel (pathOf names)
      /\ fileAt names entries
      /\ Forall (fun name => skipped name = false) names.
Proof.
  intros Hnamed.
  assert (Hall : Forall (fun entry =>
            named entry = true ->
            forall rel p,
              p ∈ walkEntry rel entry <->
              exists names,
                p = relativePath rel (pathOf names)
                /\ fileAt names [entry]
                /\ Forall (fun name => skipped name = false) names) entries).
  { clear Hnamed. apply Forall_forall. intros entry _.
    induction entry as [name|name sub IH|name] using Dirent_ind; intros Hn rel p.
    - cbn [walkEntry]. destruct (skipped name) eqn:Hs.
      + split; [by intros ?%elem_of_nil|].
        intros (names & _ & Hat & Hvis). exfalso.
        inversion Hat as [n es Hin|n sub es ns Hin _]; subst.
        * apply list_elem_of_singleton in Hin. injection Hin as ->.
          apply Forall_inv in Hvis. congruence.
        * by apply list_elem_of_singleton in Hin.
      + rewrite list_elem_of_singleton. split.
        * intros ->. exists [name]. split; [done|]. split; [constructor; left|].
          by constructor.
        * intros (names & -> & Hat & _).
          inversion Hat as [n es Hin|n sub es ns Hin _]; subst.
          -- apply list_elem_of_singleton in Hin. by injection Hin as ->.
          -- by apply list_elem_of_singleton in Hin.
    - cbn [walkEntry]. cbn [named] in Hn.
      apply andb_true_iff in Hn as [Hne Hsub].
      apply negb_true_iff, bool_decide_eq_false in Hne.
      destruct (skipped name) eqn:Hs.
      + split; [by intros ?%elem_of_nil|].
        intros (names & _ & Hat & Hvis). exfalso.
        inversion Hat as [n es Hin|n sub' es ns Hin _]; subst.
        * by apply list_elem_of_singleton in Hin.
        * apply list_elem_of_singleton in Hin. injection Hin as -> ->.
          apply Forall_inv in Hvis. congruence.
      + rewrite list_elem_of_In, in_flat_map. split.
        * intros (e & He & Hp). apply list_elem_of_In in He, Hp.
          rewrite Forall_forall in IH. rewrite forallb_forall in Hsub.
          apply (IH e He) in Hp as (names & -> & Hat & Hvis).
          2:{ apply Hsub. by apply list_elem_of_In. }
          exists (name :: names). split; [|split].
          -- rewrite pathOf_cons by (done || by apply fileAt_nonempty in Hat).
             by apply relativePath_assoc.
          -- apply (fileAt_below name sub); [left|].
             inversion Hat as [n es Hin|n sub' es ns Hin Hrec]; subst.
             ++ apply list_elem_of_singleton in Hin. subst e. by constructor.
             ++ apply list_elem_of_singleton in Hin. subst e.
                by apply (fileAt_below n sub').
          -- by constructor.
        * intros (names & -> & Hat & Hvis).
          inversion Hat as [n es Hin|n sub' es ns Hin Hrec]; subst.
          { by apply list_elem_of_singleton in Hin. }
          apply list_elem_of_singleton in Hin. injection Hin as -> ->.
          apply Forall_cons in Hvis as [_ Hvis].
          assert (exists e, e ∈ sub /\ fileAt ns [e]) as (e & He & Hate).
          { inversion Hrec as [n es Hin|n sub' es ns' Hin Hrec']; subst.
            - exists (IsFile n). split; [done|]. constructor. left.
            - exists (IsDirectory n sub'). split; [done|].
              apply (fileAt_below n sub'); [left | done]. }
          exists e. split; [by apply list_elem_of_In|]. apply list_elem_of_In.
          rewrite Forall_forall in IH. rewrite forallb_forall in Hsub.
          apply (IH e He); [apply Hsub; by apply list_elem_of_In|].
          exists ns. split; [|done].
          rewrite pathOf_cons by (done || by apply fileAt_nonempty in Hrec).
          symmetry. by apply relativePath_assoc.
    - cbn [walkEntry]. split; [by intros ?%elem_of_nil|].
      intros (names & _ & Hat & _). exfalso.
      inversion Hat as [n es Hin|n sub es ns Hin _]; subst;
        by apply list_elem_of_singleton in Hin. }
  intros rel p. unfold walk. rewrite list_elem_of_In, in_flat_map. split.
  - intros (e & He & Hp). apply list_elem_of_In in He, Hp.
    rewrite Forall_forall in Hall. rewrite forallb_forall in Hnamed.
    apply (Hall e He) in Hp as (names & -> & Hat & Hvis).
    2:{ apply Hnamed. by apply list_elem_of_In. }
    exists names. split; [done|]. split; [|done].
    inversion Hat as [n es Hin|n sub es ns Hin Hrec]; subst.
    + apply list_elem_of_singleton in Hin. subst e. by constructor.
    + apply list_elem_of_singleton in Hin. subst e. by apply (fileAt_below n sub).
  - intros (names & -> & Hat & Hvis).
    assert (exists e, e ∈ entries /\ fileAt names [e]) as (e & He & Hate).
    { inversion Hat as [n es Hin|n sub es ns Hin Hrec]; subst.
      - exists (IsFile n). split; [done|]. constructor. left.
      - exists (IsDirectory n sub). split; [done|].
        apply (fileAt_below n sub); [left | done]. }
    exists e. split; [by apply list_elem_of_In|]. apply list_elem_of_In.
    rewrite Forall_forall in Hall. rewrite forallb_forall in Hnamed.
    apply (Hall e He); [apply Hnamed; by apply list_elem_of_In|].
    by exists names.
Qed.

(** X26.  [findSourceFiles] lists exactly the regular files that are reached
    from the directory through directories, by names none of which is
    [node_modules] or begins with a dot: each under its relative path, the
    names joined by slashes.  Links and other special entries are not
    listed and not followed. *)
Theorem findSourceFiles_lists (entries : list Dirent) (p : jsstring) :
  forallb named entries = true ->
  p ∈ findSourceFiles entries <->
  exists names,
    p = pathOf names
    /\ fileAt names entries
    /\ Forall (fun name => skipped name = false) names.
Proof. intros Hnamed. apply (walk_lists entries Hnamed [] p). Qed.

Lemma findSourceFiles_lists_witness :
  str "src/index.ts" ∈ findSourceFiles exampleTree
  /\ findSourceFiles exampleTree = [str "src/index.ts"; str "package.json"].
Proof.
  split; [|reflexivity].
  apply (proj2 (findSourceFiles_lists exampleTree (str "src/index.ts") eq_refl)).
  exists [str "src"; str "index.ts"]. split; [reflexivity|]. split.
  - apply (fileAt_below (str "src") [IsFile (str "index.ts"); IsFile (str ".env")]).
    + right. right. left.
    + constructor. left.
  - repeat constructor.
Defined.

(** ** The key files of the prompt *)

Lemma truncated_length (content : jsstring) : length (truncated content) <= 2016.
Proof.
  unfold truncated. destruct (Nat.ltb_spec 2000 (length content)) as [Hlt|Hle]; [|lia].
  rewrite !length_app, length_take.
  change (length [10%N]) with 1. change (length (str "... (truncated)")) with 15. lia.
Qed.

Lemma joinLines_length (a : list jsstring) (bound : nat) :
  Forall (fun s => length s <= bound) a ->
  length (joinLines a) <= length a * (bound + 1).
Proof.
  induction a as [|s a IH]; intros Hall; [done|].
  apply Forall_cons in Hall as [Hs Ha]. specialize (IH Ha).
  destruct a as [|s' a]; [cbn; lia|].
  change (joinLines (s :: s' :: a)) with (s ++ [10%N] ++ joinLines (s' :: a)).
  rewrite !length_app. change (length (s :: s' :: a)) with (S (length (s' :: a))).
  change (length [10%N]) with 1. rewrite Nat.mul_succ_l. lia.
Qed.

(** X27.  [readKeyFiles] samples at most ten files, all of them key files that
    could be read, each with at most 2000 code units of its content and
    the truncation mark after them; so the text it returns for the prompt
    has at most [10 * (L + 2027)] code units when no path is longer than
    [L]. *)
Theorem readKeyFiles_bounded (readFileSync : jsstring -> option jsstring)
    (allFiles : list jsstring) (L : nat) :
  Forall (fun file => length file <= L) allFiles ->
  length (samples readFileSync allFiles) <= 10
  /\ (forall sample, sample ∈ samples readFileSync allFiles ->
        exists file content,
          file ∈ allFiles /\ isKeyFile file = true /\ readFileSync file = Some content
          /\ sample = [10%N] ++ str "=== " ++ file ++ str " ===" ++ [10%N] ++ truncated content
          /\ length (truncated content) <= 2016
          /\ (length content <= 2000 -> truncated content = content))
  /\ length (readKeyFiles readFileSync allFiles) <= 10 * (L + 2027).
Proof.
  intros HL.
  set (keyFiles := take 10 (List.filter isKeyFile allFiles)).
  assert (Hk : length keyFiles <= 10) by (subst keyFiles; rewrite length_take; lia).
  assert (Hkey : forall file, file ∈ keyFiles ->
            file ∈ allFiles /\ isKeyFile file = true /\ length file <= L).
  { intros file Hf. subst keyFiles.
    apply list_elem_of_lookup in Hf as [i Hi]. apply lookup_take_Some in Hi as [Hi _].
    apply list_elem_of_lookup_2, list_elem_of_In, filter_In in Hi as [Hin Hkey].
    apply list_elem_of_In in Hin. rewrite Forall_forall in HL. auto. }
  unfold readKeyFiles, samples. fold keyFiles.
  clearbody keyFiles.
  assert (Hs : forall sample,
            sample ∈ flat_map (fun file =>
                        match readFileSync file with
                        | Some content =>
                            [[10%N] ++ str "=== " ++ file ++ str " ===" ++ [10%N]
                             ++ truncated content]
                        | None => []
                        end) keyFiles ->
            exists file content,
              file ∈ keyFiles /\ readFileSync file = Some content
              /\ sample = [10%N] ++ str "=== " ++ file ++ str " ===" ++ [10%N]
                          ++ truncated content).
  { intros sample Hin. apply list_elem_of_In, in_flat_map in Hin as (file & Hf & Hin).
    apply list_elem_of_In in Hf.
    destruct (readFileSync file) as [content|] eqn:Hr; [|done].
    destruct Hin as [<-|[]]. by exists file, content. }
  assert (Hlen : length (flat_map (fun file =>
                    match readFileSync file with
                    | Some content =>
                        [[10%N] ++ str "=== " ++ file ++ str " ===" ++ [10%N]
                         ++ truncated content]
                    | None => []
                    end) keyFiles) <= length keyFiles).
  { clear. induction keyFiles as [|file l IH]; [done|]. cbn [flat_map].
    rewrite length_app. destruct (readFileSync file); cbn [length]; lia. }
  split; [etransitivity; [exact Hlen | exact Hk]|]. split.
  - intros sample Hin. destruct (Hs sample Hin) as (file & content & Hf & Hr & ->).
    destruct (Hkey file Hf) as (Hall & Hk' & _).
    exists file, content. repeat split; try done.
    + apply truncated_length.
    + intros Hc. unfold truncated.
      by destruct (Nat.ltb_spec 2000 (length content)) as [Hlt|_]; [lia|].
  - etransitivity; [apply (joinLines_length _ (L + 2026))|].
    + apply Forall_forall. intros sample Hin.
      destruct (Hs sample Hin) as (file & content & Hf & Hr & ->).
      destruct (Hkey file Hf) as (_ & _ & HfL).
      pose proof (truncated_length content).
      rewrite !length_app. change (length [10%N]) with 1.
      change (length (str "=== ")) with 4. change (length (str " ===")) with 4. lia.
    + etransitivity;
        [apply Nat.mul_le_mono_r; etransitivity; [exact Hlen | exact Hk] | lia].
Qed.

Lemma readKeyFiles_bounded_witness :
  length (readKeyFiles (fun _ => Some (repeat 97%N 5000))
            [str "package.json"; str "notes.txt"]) <= 10 * (12 + 2027).
Proof.
  apply (readKeyFiles_bounded (fun _ => Some (repeat 97%N 5000))
           [str "package.json"; str "notes.txt"] 12).
  repeat constructor; cbn; lia.
Defined.

Lemma labelMatches_blank_query_witness :
  labelMatches (str "  ") emoji_floppy = true.
Proof.
  apply (proj2 (labelMatches_blank_query (str "  ") emoji_floppy eq_refl)).
  reflexivity.
Defined.

(** ** A stream that stays open *)

Section OpenStream.
Context `{JSON AnalysisJob.t}.

(** X28.  While the job is there and is neither in the error phase nor complete
    with a result, every poll sends exactly one status event and leaves
    the stream open: a job marked complete without a result is polled for
    ever. *)
Theorem stream_stays_open (analysisId : string) (worlds : list World.t) :
  Forall (fun w =>
            exists job,
              readJob analysisId w = Some job
              /\ AnalysisStatus.status (AnalysisJob.status job) <> error
              /\ (AnalysisStatus.status (AnalysisJob.status job) = complete ->
                  AnalysisJob.result job = None)) worlds ->
  stream analysisId worlds
  = (flat_map (fun w =>
                 match readJob analysisId w with
                 | Some job => [StatusEvent (AnalysisJob.status job)]
                 | None => []
                 end) worlds,
     false)
  /\ length (fst (stream analysisId worlds)) = length worlds.
Proof.
  induction 1 as [|w worlds (job & Hjob & Herr & Hdone) _ [IH1 IH2]]; [done|].
  cbn [stream flat_map]. change (snd (getAnalysisJob analysisId w)) with (readJob analysisId w).
  rewrite Hjob. unfold poll.
  destruct (AnalysisStatus.status (AnalysisJob.status job)) eqn:Hphase;
    try (rewrite IH1; cbn; split; [done | by rewrite <- IH2, IH1]).
  - rewrite (Hdone eq_refl). rewrite IH1. cbn. split; [done | by rewrite <- IH2, IH1].
  - done.
Qed.

End OpenStream.

Lemma stream_stays_open_witness :
  snd (@stream refJob "job-1" [exampleCreated; exampleCreated]) = false.
Proof.
  assert (Hopen : Forall (fun w =>
            exists job,
              @readJob refJob "job-1" w = Some job
              /\ AnalysisStatus.status (AnalysisJob.status job) <> error
              /\ (AnalysisStatus.status (AnalysisJob.status job) = complete ->
                  AnalysisJob.result job = None)) [exampleCreated; exampleCreated]).
  { repeat constructor; exists (newJob "job-1" exampleRepo 1000);
      (split; [exact exampleCreated_job | split; discriminate]). }
  by rewrite (proj1 (@stream_stays_open refJob "job-1" _ Hopen)).
Defined.

(** ** Autoplay before the diagram is rendered *)

(** The states of autoplay without a diagram: step [k] has been entered,
    its promise was resolved at once, and the timer for the next call of
    [animateStep] is the only one. *)
Lemma animateStep_no_diagram (flow : Flow.t) (v : Viewer.t) (k : nat) (tid : option nat) :
  Viewer.diagramRef v = None ->
  Viewer.effect v = Some (Closure.mk flow false k tid None) ->
  Viewer.timers v = [] ->
  match Flow.steps flow !! k with
  | None =>
      Viewer.isAnimating (animateStep v) = false
      /\ Viewer.currentStep (animateStep v) = 0%Z
      /\ Viewer.timers (animateStep v) = []
      /\ Viewer.clock (animateStep v) = Viewer.clock v
  | Some step =>
      Viewer.isAnimating (animateStep v) = Viewer.isAnimating v
      /\ Viewer.currentStep (animateStep v) = (Z.of_nat k + 1)%Z
      /\ Viewer.clock (animateStep v) = Viewer.clock v
      /\ Viewer.diagramRef (animateStep v) = None
      /\ Viewer.timers (animateStep v)
         = [Timer.mk (Viewer.nextTimerId v) (Viewer.clock v + delayOf step) AnimateStep]
      /\ Viewer.effect (animateStep v)
         = Some (Closure.mk flow false (S k) (Some (Viewer.nextTimerId v)) None)
  end.
Proof.
  intros Hd He Ht. unfold animateStep. rewrite He. cbn [Closure.isPaused Closure.flow Closure.stepIndex].
  destruct (Flow.steps flow !! k) as [step|] eqn:Hk.
  - destruct v as [sf an pa cs dr ar ck ts ni np ef]. cbn in *. subst. done.
  - destruct v as [sf an pa cs dr ar ck ts ni np ef]. cbn in *. subst. done.
Qed.

(** From such a state, [m + 1] turns of the loop enter step [k + m]. *)
Lemma autoplay_no_diagram_run (flow : Flow.t) (t0 : Z) (m : nat) :
  forall (v : Viewer.t) (k : nat) (id : nat) (tid : option nat),
    Viewer.diagramRef v = None ->
    Viewer.isAnimating v = true ->
    Viewer.effect v = Some (Closure.mk flow false k tid None) ->
    Viewer.timers v = [Timer.mk id (t0 + delaysBefore flow k) AnimateStep] ->
    (Viewer.clock v <= t0 + delaysBefore flow k)%Z ->
    k + m <= length (Flow.steps flow) ->
    let w := run (S m) v in
    Viewer.clock w = (t0 + delaysBefore flow (k + m))%Z
    /\ (k + m < length (Flow.steps flow) ->
        Viewer.isAnimating w = true /\ Viewer.currentStep w = (Z.of_nat (k + m) + 1)%Z)
    /\ (k + m = length (Flow.steps flow) ->
        Viewer.isAnimating w = false /\ Viewer.currentStep w = 0%Z /\ Viewer.timers w = []).
Proof.
  induction m as [|m IH]; intros v k id tid Hd Ha He Ht Hck Hkm.
  - cbn zeta. cbn [run]. rewrite (turn_head v _ [] Ht); [|constructor|rewrite Ht; apply NoDup_singleton].
    cbn [Timer.callback Timer.due fire].
    set (v1 := setClock _ _).
    assert (Hd1 : Viewer.diagramRef v1 = None) by (subst v1; by destruct v).
    assert (He1 : Viewer.effect v1 = Some (Closure.mk flow false k tid None))
      by (subst v1; by destruct v).
    assert (Ht1 : Viewer.timers v1 = []) by (subst v1; by destruct v).
    assert (Hc1 : Viewer.clock v1 = (t0 + delaysBefore flow k)%Z)
      by (subst v1; destruct v; cbn in *; lia).
    assert (Ha1 : Viewer.isAnimating v1 = true) by (subst v1; by destruct v).
    pose proof (animateStep_no_diagram flow v1 k tid Hd1 He1 Ht1) as Hstep.
    rewrite Nat.add_0_r.
    destruct (Flow.steps flow !! k) as [step|] eqn:Hk.
    + destruct Hstep as (A & C & K & _). apply lookup_lt_Some in Hk.
      split; [congruence|]. split; [intros _; split; congruence | lia].
    + destruct Hstep as (A & C & T & K). apply lookup_ge_None_1 in Hk.
      split; [congruence|]. split; [lia | done].
  - cbn zeta. change (run (S (S m)) v) with (match turn v with None => v | Some v' => run (S m) v' end).
    rewrite (turn_head v _ [] Ht); [|constructor|rewrite Ht; apply NoDup_singleton].
    cbn [Timer.callback Timer.due fire].
    set (v1 := setClock _ _).
    assert (Hd1 : Viewer.diagramRef v1 = None) by (subst v1; by destruct v).
    assert (He1 : Viewer.effect v1 = Some (Closure.mk flow false k tid None))
      by (subst v1; by destruct v).
    assert (Ht1 : Viewer.timers v1 = []) by (subst v1; by destruct v).
    assert (Hc1 : Viewer.clock v1 = (t0 + delaysBefore flow k)%Z)
      by (subst v1; destruct v; cbn in *; lia).
    assert (Ha1 : Viewer.isAnimating v1 = true) by (subst v1; by destruct v).
    pose proof (animateStep_no_diagram flow v1 k tid Hd1 He1 Ht1) as Hstep.
    destruct (Flow.steps flow !! k) as [step|] eqn:Hk.
    2:{ apply lookup_ge_None_1 in Hk. lia. }
    destruct Hstep as (A & C & K & D & T & E).
    assert (Hnext : delaysBefore flow (S k) = (delaysBefore flow k + delayOf step)%Z).
    { unfold delaysBefore. rewrite (take_S_r _ _ _ Hk), fmap_app, foldr_app. cbn.
      generalize (delayOf <$> take k (Flow.steps flow)). intros l.
      induction l as [|x l IHl]; cbn; lia. }
    replace (k + S m) with (S k + m) by lia.
    apply (IH (animateStep v1) (S k) (Viewer.nextTimerId v1) (Some (Viewer.nextTimerId v1))).
    + exact D.
    + congruence.
    + exact E.
    + rewrite T, Hc1, Hnext. f_equal. f_equal. lia.
    + rewrite K, Hc1, Hnext. pose proof (delayOf_nonneg step). lia.
    + lia.
Qed.



(** ** The current step stays within the flow *)


